(** * Patch indexing, dataset adapter and curriculum sampler of [datasets.py]

    A shallow embedding of the patch-extraction functions ([get_slices_bb],
    [centers_to_slice], [filter_size], [get_balanced_slices]), of
    [GenericSegmentationCroppingDataset] and of the weighted sampler
    ([sample], [WeightedSubsetRandomSampler]).

    Conventions of the embedding:
    - Python integers are [Z]; [//] is [Z.div] (both round towards minus
      infinity) and [%] is [Z.modulo].
    - A Python float is the rational number it denotes, and every operation
      on floats rounds its result to a double with [fl]; [int(x)] truncates
      towards zero.
    - An n-dimensional numpy array is its shape together with its entries in
      row-major order.
    - An exception is a value of [exn]; a function that can raise returns a
      [result].
    - Random draws come from an explicit generator state that is threaded
      through the code. *)

From Stdlib Require Import ZArith List QArith Qround Qminmax Qpower Lia Lqa Permutation Bool.
From stdpp Require Import base list.
Import ListNotations.
Local Open Scope Z_scope.

(** ** Exceptions *)

(** What torch reports with a [RuntimeError]. *)
Inductive torch_error : Type :=
| NegativeSize          (* a tensor or a permutation of negative size *)
| ShapeMismatch         (* a value that does not fit the indexed part *)
| EmptyTensor           (* a reduction of a tensor without entries *)
| NoSamples             (* multinomial: no sample is requested *)
| NegativeProbability   (* multinomial: invalid distribution, an entry < 0 *)
| ZeroProbabilities     (* multinomial: invalid distribution, sum <= 0 *)
| ZeroDimensional       (* cat: a tensor without axes *)
| UnknownTensor.        (* a reference outside the store of the model *)

Inductive exn : Type :=
| ValueError
| IndexError
| TypeError
| RuntimeError (why : torch_error)
| ZeroDivisionError.

Inductive result (A : Type) : Type :=
| Ok (a : A)
| Raise (e : exn).
Arguments Ok {A} a.
Arguments Raise {A} e.

#[global] Instance result_ret : MRet result := fun _ a => Ok a.
#[global] Instance result_bind : MBind result := fun _ _ f m =>
  match m with
  | Ok a => f a
  | Raise e => Raise e
  end.

(** Python 2 [map] with a function that may raise: the list is traversed
    from the left and the first exception is propagated. *)
Fixpoint map_result {A B : Type} (f : A -> result B) (l : list A)
  : result (list B) :=
  match l with
  | [] => Ok []
  | a :: l' =>
      match f a with
      | Raise e => Raise e
      | Ok b =>
          match map_result f l' with
          | Raise e => Raise e
          | Ok bs => Ok (b :: bs)
          end
      end
  end.

(** Python 2 [filter] with a predicate that may raise. *)
Fixpoint filter_result {A : Type} (f : A -> result bool) (l : list A)
  : result (list A) :=
  match l with
  | [] => Ok []
  | a :: l' =>
      match f a with
      | Raise e => Raise e
      | Ok b =>
          match filter_result f l' with
          | Raise e => Raise e
          | Ok r => Ok (if b then a :: r else r)
          end
      end
  end.

(** ** Arrays *)

Record ndarray (A : Type) : Type := mkarray {
  shape : list Z;
  data : list A
}.
Arguments mkarray {A} shape data.
Arguments shape {A} n.
Arguments data {A} n.

(** [range(n)]. *)
Definition range (n : Z) : list Z := map Z.of_nat (seq 0 (Z.to_nat n)).

(** [itertools.product] applied to the lists [ls]: the rightmost list varies fastest. *)
Fixpoint product (ls : list (list Z)) : list (list Z) :=
  match ls with
  | [] => [[]]
  | l :: rest => flat_map (fun i => map (cons i) (product rest)) l
  end.

(** The coordinates of an array of the given shape, in row-major order. *)
Definition ndindex (sh : list Z) : list (list Z) := product (map range sh).

Definition array_map {A B : Type} (f : A -> B) (a : ndarray A) : ndarray B :=
  mkarray (shape a) (map f (data a)).

(** [a > 0] on an integer array. *)
Definition gt0 (a : ndarray Z) : ndarray bool := array_map (fun x => 0 <? x) a.

(** Truth value of an integer entry ([astype(bool)], and the implicit
    conversion done by the [logical_*] functions). *)
Definition truthy (x : Z) : bool := negb (x =? 0).

(** The coordinate tuples at which a boolean array is true, in row-major
    order. *)
Definition true_voxels (a : ndarray bool) : list (list Z) :=
  map fst (List.filter (fun cv => snd cv) (combine (ndindex (shape a)) (data a))).

(** [np.where(a)]: one index array per dimension. *)
Definition np_where (a : ndarray bool) : list (list Z) :=
  map (fun j => map (fun v => nth j v 0) (true_voxels a))
      (seq 0 (length (shape a))).

Definition list_min (l : list Z) : Z :=
  match l with
  | [] => 0
  | x :: xs => fold_left Z.min xs x
  end.

Definition list_max (l : list Z) : Z :=
  match l with
  | [] => 0
  | x :: xs => fold_left Z.max xs x
  end.

(** [np.min(rows, axis=-1)] and [np.max(rows, axis=-1)] on a tuple of
    equally long index arrays: numpy raises [ValueError] when the reduced
    axis is empty. *)
Definition np_reduce_last (f : list Z -> Z) (rows : list (list Z))
  : result (list Z) :=
  match rows with
  | [] => Raise ValueError
  | [] :: _ => Raise ValueError
  | (_ :: _) :: _ => Ok (map f rows)
  end.

Definition np_min_last := np_reduce_last list_min.
Definition np_max_last := np_reduce_last list_max.

(** [np.arange(start, stop, step)] for a positive step. *)
Definition arange (start stop step : Z) : list Z :=
  map (fun k => start + Z.of_nat k * step)
      (seq 0 (Z.to_nat ((stop - start + step - 1) / step))).

(** ** Slices *)

(** [slice(start, stop)]. *)
Record slice : Type := mkslice { start : Z; stop : Z }.

(** [slice(start, stop).indices(n)]: negative bounds count from the end and
    both bounds are clipped to the axis. *)
Definition clip_index (n x : Z) : Z :=
  if x <? 0 then Z.max (x + n) 0 else Z.min x n.

Definition slice_indices (n : Z) (s : slice) : Z * Z :=
  (clip_index n (start s), clip_index n (stop s)).

(** Number of entries an axis of length [n] keeps under a slice. *)
Definition slice_len (n : Z) (s : slice) : Z :=
  let '(a, b) := slice_indices n s in Z.max (b - a) 0.

Definition in_slice (n : Z) (s : slice) (i : Z) : bool :=
  let '(a, b) := slice_indices n s in (a <=? i) && (i <? b).

(** Does the coordinate [c] survive the slices [ss] (one per leading axis)? *)
Fixpoint in_slices (sh : list Z) (ss : list slice) (c : list Z) : bool :=
  match sh, ss, c with
  | n :: sh', s :: ss', i :: c' => in_slice n s i && in_slices sh' ss' c'
  | _, _, _ => true
  end.

Fixpoint sliced_shape (sh : list Z) (ss : list slice) : list Z :=
  match sh, ss with
  | n :: sh', s :: ss' => slice_len n s :: sliced_shape sh' ss'
  | _, _ => sh
  end.

(** [a[ss]] for a tuple of slices: [IndexError] when there are more slices
    than axes; out-of-range slices are clipped. *)
Definition getitem {A : Type} (a : ndarray A) (ss : list slice)
  : result (ndarray A) :=
  if (length (shape a) <? length ss)%nat then Raise IndexError
  else Ok (mkarray (sliced_shape (shape a) ss)
             (map snd (List.filter (fun cv => in_slices (shape a) ss (fst cv))
                         (combine (ndindex (shape a)) (data a))))).

(** [np.sum(a)] on a boolean array. *)
Definition np_sum (a : ndarray bool) : Z :=
  Z.of_nat (length (List.filter (fun b : bool => b) (data a))).

(** ** The patch indexer *)

(** [centers_to_slice]: one tuple of slices per centre. *)
Definition centers_to_slice (voxels : list (list Z)) (patch_half : list Z)
  : list (list slice) :=
  map (fun voxel =>
         map (fun ip => mkslice (fst ip - snd ip) (fst ip + snd ip))
             (combine voxel patch_half))
      voxels.

(** [filter_size]: keep the slices that cover more than [min_size]
    positive entries of the mask. *)
Definition filter_size (slices : list (list slice)) (mask : ndarray Z)
    (min_size : Z) : result (list (list slice)) :=
  filter_result
    (fun s_i => sub ← getitem mask s_i; Ok (min_size <? np_sum (gt0 sub)))
    slices.

(** The argument [masks] of [get_slices_bb] is either a list of arrays or a
    single array, and the result has the matching structure. *)
Inductive masks_arg : Type :=
| MaskList (masks : list (ndarray Z))
| MaskArray (mask : ndarray Z).

Inductive slices_out : Type :=
| PerCase (patch_slices : list (list (list slice)))
| Flat (patch_slices : list (list slice)).

Definition patch_half_of (patch_size : list Z) : list Z :=
  map (fun p_length => p_length / 2) patch_size.

Definition steps_of (patch_size : list Z) (overlap : Z) : list Z :=
  map (fun p_length => Z.max (p_length - overlap) 1) patch_size.

Definition shift_by (f : Z -> Z -> Z) (bb patch_half : list Z) : list Z :=
  map (fun ip => f (fst ip) (snd ip)) (combine bb patch_half).

(** The per-dimension centre coordinates of the list branch:
    for every triple [t] of [zip(min_bb_i, max_bb_i, steps)], the [np.arange]
    of [t] followed by [t[1]]. *)
Definition dim_ranges (min_bb_i max_bb_i steps : list Z) : list (list Z) :=
  map (fun t => arange (fst (fst t)) (snd (fst t)) (snd t) ++ [snd (fst t)])
      (combine (combine min_bb_i max_bb_i) steps).

(** The per-dimension centre coordinates of the single-array branch:
    the [np.arange] of the triple only. *)
Definition dim_range_single (min_bb max_bb steps : list Z) : list (list Z) :=
  map (fun t => arange (fst (fst t)) (snd (fst t)) (snd t))
      (combine (combine min_bb max_bb) steps).

(** The centres enumerated by the list branch of [get_slices_bb], one list
    per mask: the argument given to [centers_to_slice]. *)
Definition bb_centers (masks : list (ndarray Z)) (patch_size : list Z)
    (overlap : Z) : result (list (list (list Z))) :=
  let patch_half := patch_half_of patch_size in
  let steps := steps_of patch_size overlap in
  min_bb ← map_result (fun mask => np_min_last (np_where (gt0 mask))) masks;
  let min_bb := map (fun min_bb_i => shift_by Z.add min_bb_i patch_half) min_bb in
  max_bb ← map_result (fun mask => np_max_last (np_where (gt0 mask))) masks;
  let max_bb := map (fun max_bb_i => shift_by Z.sub max_bb_i patch_half) max_bb in
  let ranges :=
    map (fun mm => dim_ranges (fst mm) (snd mm) steps) (combine min_bb max_bb) in
  Ok (map product ranges).

(** The centres enumerated by the single-array branch. *)
Definition bb_centers_single (masks : ndarray Z) (patch_size : list Z)
    (overlap : Z) : result (list (list Z)) :=
  let patch_half := patch_half_of patch_size in
  let steps := steps_of patch_size overlap in
  min_bb ← np_min_last (np_where (gt0 masks));
  let min_bb := shift_by Z.add min_bb patch_half in
  max_bb ← np_max_last (np_where (gt0 masks));
  let max_bb := shift_by Z.sub max_bb patch_half in
  Ok (product (dim_range_single min_bb max_bb steps)).

Definition get_slices_bb (masks : masks_arg) (patch_size : list Z)
    (overlap : Z) (filtered : bool) (min_size : Z) : result slices_out :=
  let patch_half := patch_half_of patch_size in
  match masks with
  | MaskList masks =>
      centers ← bb_centers masks patch_size overlap;
      let patch_slices :=
        map (fun c => centers_to_slice c patch_half) centers in
      if filtered then
        patch_slices ←
          map_result (fun sm => filter_size (fst sm) (snd sm) min_size)
                     (combine patch_slices masks);
        Ok (PerCase patch_slices)
      else Ok (PerCase patch_slices)
  | MaskArray masks =>
      centers ← bb_centers_single masks patch_size overlap;
      let patch_slices := centers_to_slice centers patch_half in
      if filtered then
        patch_slices ← filter_size patch_slices masks min_size;
        Ok (Flat patch_slices)
      else Ok (Flat patch_slices)
  end.

(** A mask of the given shape whose positive entries are exactly the listed
    voxels (used to write concrete inputs). *)
Definition mask_of (sh : list Z) (voxels : list (list Z)) : ndarray Z :=
  mkarray sh
    (map (fun c => if existsb (fun v => forallb (fun p => fst p =? snd p) (combine c v)
                                        && (length c =? length v)%nat) voxels
                   then 1 else 0)
         (ndindex sh)).

(** ** Floating point *)

(** A Python float is a double.  It is modelled by the rational number it
    denotes, and the result of every operation on floats is rounded by
    [fl] to the nearest number of 53 significant bits, ties going to the
    even significand.  The range of the exponent is not bounded: the
    results differ from those of the doubles only beyond the largest double
    (about 1.8e308) and below the smallest normal one (about 2.2e-308). *)

(** The integer nearest to [q], a tie going to the even one. *)
Definition round_half_even (q : Q) : Z :=
  let f := Qfloor q in
  match (q - inject_Z f ?= 1 # 2)%Q with
  | Lt => f
  | Eq => if Z.even f then f else f + 1
  | Gt => f + 1
  end.

Definition pow2 (e : Z) : Q := (2 ^ e)%Q.

(** The exponent [e] of the last significant bit of [x > 0]:
    [2^52 <= x / 2^e < 2^53]. *)
Definition ulp_exp (x : Q) : Z :=
  let k := Z.log2 (Qnum x) - Z.log2 (Zpos (Qden x)) in
  if Qle_bool (pow2 k) x then k - 52 else k - 53.

Definition fl_pos (x : Q) : Q :=
  let e := ulp_exp x in
  Qred (inject_Z (round_half_even (x / pow2 e)) * pow2 e).

Definition fl (x : Q) : Q :=
  match (x ?= 0)%Q with
  | Eq => 0%Q
  | Gt => fl_pos x
  | Lt => Qred (- fl_pos (- x))
  end.

(** [x * y] and [x + y] on floats; a number that is not a double stands
    for the double nearest to it, as a decimal literal or an integer
    operand does. *)
Definition float_mul (x y : Q) : Q := fl (fl x * fl y).
Definition float_add (x y : Q) : Q := fl (fl x + fl y).

(** [int(x)] on a float: truncation towards zero. *)
Definition py_int (x : Q) : Z := Z.quot (Qnum x) (Zpos (Qden x)).

(** ** The balanced sampler *)

(** [l[:k]] on a Python list or numpy array: a negative [k] counts from the
    end. *)
Definition py_take {A : Type} (k : Z) (l : list A) : list A :=
  if k <? 0 then firstn (length l - Z.to_nat (- k)) l
  else firstn (Z.to_nat k) l.

(** [np.logical_not] on an integer array. *)
Definition logical_not (a : ndarray Z) : ndarray bool :=
  array_map (fun x => negb (truthy x)) a.

(** [a.astype(bool)]. *)
Definition astype_bool (a : ndarray Z) : ndarray bool := array_map truthy a.

(** [np.logical_and] on two arrays of the same shape.  numpy raises
    [ValueError] for shapes that cannot be broadcast together; broadcasting
    between different but compatible shapes is outside this model, and such
    a pair is rejected with the same exception. *)
Definition logical_and (a b : ndarray bool) : result (ndarray bool) :=
  if decide (shape a = shape b)
  then Ok (mkarray (shape a) (zip_with andb (data a) (data b)))
  else Raise ValueError.

(** Python 2 [reduce(np.logical_and, l)]: [TypeError] on an empty list. *)
Definition reduce_logical_and (l : list (ndarray bool)) : result (ndarray bool) :=
  match l with
  | [] => Raise TypeError
  | a :: l' =>
      fold_left (fun acc b => acc ← acc; logical_and acc b) l' (Ok a)
  end.

(** [get_mesh]: for every axis the array of the coordinates along that axis
    (their [float32] values are idealised as integers).  [np.stack] raises
    [ValueError] when there is no axis. *)
Definition get_mesh (sh : list Z) : result (list (ndarray Z)) :=
  match sh with
  | [] => Raise ValueError
  | _ :: _ =>
      Ok (map (fun j => mkarray sh (map (fun c => nth j c 0) (ndindex sh)))
              (seq 0 (length sh)))
  end.

(** Modelled from the spec: [get_mask_voxels] is imported from the package
    [data_manipulation], whose source is not part of this repository; the
    spec describes it as the utility that, given a boolean array, returns
    the list of integer coordinate tuples where it is true. *)
Definition get_mask_voxels (a : ndarray bool) : list (list Z) := true_voxels a.

(** [zip] of five lists. *)
Definition zip5 {A B C D E : Type} (la : list A) (lb : list B) (lc : list C)
    (ld : list D) (le : list E) : list (A * B * C * D * E) :=
  combine (combine (combine (combine la lb) lc) ld) le.

(** The mask of the positions at which a patch can be centred, for one case:
    inside the bounding box and at least half a patch away from the
    borders. *)
Definition legal_mask (mesh : list (ndarray Z)) (patch_half max_shape : list Z)
    (min_i max_i : list Z) : result (ndarray bool) :=
  conds ←
    map_result
      (fun t =>
         let '(m_j, min_ij, max_ij, p_ij, max_j) := t in
         logical_and
           (array_map (fun x => Z.max min_ij p_ij <=? x) m_j)
           (array_map (fun x => x <=? Z.min max_ij (max_j - p_ij)) m_j))
      (zip5 mesh min_i max_i patch_half max_shape);
  reduce_logical_and conds.

Section Balanced.

(** The state of numpy's random generator, and [np.random.permutation(n)],
    which returns a rearrangement of [range(n)] and the next state. *)
Variable rng : Type.
Variable np_permutation : rng -> nat -> list nat * rng.

(** A Python 2 [map] whose function draws from the generator. *)
Fixpoint map_rng {A B : Type} (f : A -> rng -> B * rng) (l : list A)
    (g : rng) : list B * rng :=
  match l with
  | [] => ([], g)
  | a :: l' =>
      let '(b, g1) := f a g in
      let '(bs, g2) := map_rng f l' g1 in
      (b :: bs, g2)
  end.

(** [map(lambda idx: pool[idx], np.random.permutation(len(pool))[:k])]:
    the entries of [pool] at the first [k] positions of a random
    permutation (positions drawn by [np.random.permutation] are in
    range). *)
Definition random_subset {A : Type} (dflt : A) (pool : list A) (k : Z)
    (g : rng) : list A * rng :=
  let '(perm, g') := np_permutation g (length pool) in
  (map (fun idx => nth idx pool dflt) (py_take k perm), g').

(** [get_balanced_slices].  The number of background centres is
    [int(neg_ratio * len(lvox))] with a float [neg_ratio]; for an integer,
    as the default 1, the product of the floats is the same number while
    the count is below [2^53]. *)
Definition get_balanced_slices (masks : list (ndarray Z))
    (patch_size : list Z) (rois : option (list (ndarray Z)))
    (min_size : Z) (neg_ratio : Q) (g : rng)
  : result (list (list (list slice)) * rng) :=
  let patch_half := patch_half_of patch_size in
  '(min_bb, max_bb, bck_masks) ←
    match rois with
    | None =>
        min_bb ← map_result (fun mask => np_min_last (np_where (gt0 mask))) masks;
        max_bb ← map_result (fun mask => np_max_last (np_where (gt0 mask))) masks;
        Ok (min_bb, max_bb, map logical_not masks)
    | Some rois =>
        min_bb ← map_result (fun mask => np_min_last (np_where (gt0 mask))) rois;
        max_bb ← map_result (fun mask => np_max_last (np_where (gt0 mask))) rois;
        bck_masks ←
          map_result (fun mr => logical_and (fst mr) (astype_bool (snd mr)))
                     (combine (map logical_not masks) rois);
        Ok (min_bb, max_bb, bck_masks)
    end;
  max_shape ← match masks with
              | [] => Raise IndexError
              | m :: _ => Ok (shape m)
              end;
  mesh ← get_mesh max_shape;
  legal_masks ←
    map_result (fun mm => legal_mask mesh patch_half max_shape (fst mm) (snd mm))
               (combine min_bb max_bb);
  fmasks ←
    map_result (fun ml => logical_and (astype_bool (fst ml)) (snd ml))
               (combine masks legal_masks);
  fbck_masks ←
    map_result (fun ml => logical_and (fst ml) (snd ml))
               (combine bck_masks legal_masks);
  let lesion_voxels := map get_mask_voxels fmasks in
  let bck_voxels := map get_mask_voxels fbck_masks in
  let lesion_slices :=
    map (fun vox => centers_to_slice vox patch_half) lesion_voxels in
  if 0 <? min_size then
    let bck_slices :=
      map (fun vox => centers_to_slice vox patch_half) bck_voxels in
    fbck_slices ←
      map_result (fun sm => filter_size (fst sm) (snd sm) min_size)
                 (combine bck_slices masks);
    Ok (map_rng
          (fun pn g =>
             let '(neg, g') :=
               random_subset [] (snd pn)
                 (py_int (float_mul neg_ratio (inject_Z (Z.of_nat (length (fst pn)))))) g in
             (fst pn ++ neg, g'))
          (combine lesion_slices fbck_slices) g)
  else
    let '(fbck_slices, g') :=
      map_rng
        (fun lb g =>
           let '(vox, g') :=
             random_subset [] (snd lb)
               (py_int (float_mul neg_ratio (inject_Z (Z.of_nat (length (fst lb)))))) g in
           (centers_to_slice vox patch_half, g'))
        (combine lesion_voxels bck_voxels) g in
    Ok (map (fun pn => fst pn ++ snd pn) (combine lesion_slices fbck_slices), g').

End Balanced.

(** A deterministic generator used to run the code on concrete inputs: the
    state is unused and the permutation drawn is the identity. *)
Definition id_permutation (g : unit) (n : nat) : list nat * unit := (seq 0 n, g).

(** ** The dataset adapter *)

(** [l[i]] on a Python list (or a one-dimensional array): a negative index
    counts from the end, and an index out of range raises [IndexError]. *)
Definition py_index {A : Type} (l : list A) (i : Z) : result A :=
  let i' := if i <? 0 then i + Z.of_nat (length l) else i in
  if i' <? 0 then Raise IndexError
  else match l !! Z.to_nat i' with
       | Some x => Ok x
       | None => Raise IndexError
       end.

(** [np.cumsum] of a list of integers. *)
Fixpoint cumsum_from (acc : Z) (l : list Z) : list Z :=
  match l with
  | [] => []
  | x :: l' => (acc + x) :: cumsum_from (acc + x) l'
  end.

Definition np_cumsum (l : list Z) : list Z := cumsum_from 0 l.

(** [np.min(rows)] without an axis: the minimum of all the entries. *)
Definition np_min_all (rows : list (list Z)) : result Z :=
  match concat rows with
  | [] => Raise ValueError
  | x :: xs => Ok (list_min (x :: xs))
  end.

(** [len(d)] on an array: the length of its first axis. *)
Definition array_len {A : Type} (d : ndarray A) : result Z :=
  match shape d with
  | [] => Raise TypeError
  | n :: _ => Ok n
  end.

(** [d[0]]: the first entry along the first axis. *)
Definition array_first {A : Type} (d : ndarray A) : result (ndarray A) :=
  match shape d with
  | [] => Raise IndexError
  | n :: sh =>
      if n <=? 0 then Raise IndexError
      else Ok (mkarray sh (firstn (length (ndindex sh)) (data d)))
  end.

Definition ones_like {A : Type} (d : ndarray A) : ndarray Z :=
  array_map (fun _ => 1) d.

(** [np.expand_dims(a, 0)]. *)
Definition expand_dims0 {A : Type} (a : ndarray A) : ndarray A :=
  mkarray (1 :: shape a) (data a).

(** [slice(None, None)] on the first axis of [a]. *)
Definition none_slice {A : Type} (a : ndarray A) : slice :=
  mkslice 0 (hd 0 (shape a)).

Module GenericSegmentationCroppingDataset.

(** The argument [patch_size] is an integer or a tuple. *)
Inductive patch_size_arg : Type :=
| PatchInt (p : Z)
| PatchTuple (ps : list Z).

Record t : Type := mk {
  neg_ratio : Q;
  sampler : bool;
  cases : list (ndarray Z);
  labels : option (list (ndarray Z));
  masks : option (list (ndarray Z));
  patch_size : list Z;
  patch_slices : list (list (list slice));
  max_slice : list Z
}.

(** The value returned by [__getitem__]. *)
Inductive item : Type :=
| WithIndex (inputs target : ndarray Z) (index : Z)
| WithTarget (inputs target : ndarray Z)
| WithoutTarget (inputs : ndarray Z) (case_idx : Z) (slice_i : list slice).

(** The result of [get_slices_bb] called on a list. *)
Definition per_case (r : result slices_out)
  : result (list (list (list slice))) :=
  match r with
  | Ok (PerCase p) => Ok p
  | Ok (Flat _) => Raise TypeError
  | Raise e => Raise e
  end.

Section Init.

Variable rng : Type.
Variable np_permutation : rng -> nat -> list nat * rng.

(** [__init__].  The intensities of the cases are kept as integers. *)
Definition __init__ (cases : list (ndarray Z))
    (labels masks : option (list (ndarray Z))) (balanced : bool)
    (overlap min_size : Z) (patch_size : patch_size_arg) (neg_ratio : Q)
    (sampler : bool) (g : rng) : result (t * rng) :=
  data_shape ← match cases with
               | [] => Raise IndexError
               | c :: _ => Ok (shape c)
               end;
  let patch_size :=
    match patch_size with
    | PatchTuple ps => ps
    | PatchInt p => repeat p (length data_shape)
    end in
  '(patch_slices, g') ←
    (if balanced then
       match masks, labels with
       | Some masks, Some labels =>
           get_balanced_slices rng np_permutation labels patch_size
                               (Some masks) 0 neg_ratio g
       | Some masks, None =>
           (* the bounding boxes of the rois are computed first, then
              [map(np.logical_not, None)] raises *)
           _ ← map_result (fun mask => np_min_last (np_where (gt0 mask))) masks;
           _ ← map_result (fun mask => np_max_last (np_where (gt0 mask))) masks;
           Raise TypeError
       | None, Some labels =>
           get_balanced_slices rng np_permutation labels patch_size
                               (Some labels) 0 neg_ratio g
       | None, None =>
           data_single ←
             map_result
               (fun d =>
                  n ← array_len d;
                  if 1 <? n then d0 ← array_first d; Ok (ones_like d0)
                  else Ok (ones_like d))
               cases;
           p ← per_case (get_slices_bb (MaskList data_single) patch_size 0 false 0);
           Ok (p, g)
       end
     else
       match masks, labels with
       | Some masks, _ =>
           p ← per_case (get_slices_bb (MaskList masks) patch_size overlap true min_size);
           Ok (p, g)
       | None, Some labels =>
           p ← per_case (get_slices_bb (MaskList labels) patch_size overlap true min_size);
           Ok (p, g)
       | None, None =>
           data_single ←
             map_result
               (fun d =>
                  n ← array_len d;
                  if 1 <? n then
                    d0 ← array_first d;
                    (* [np.min(d[0])] raises on an empty array *)
                    if decide (data d0 = []) then Raise ValueError
                    else Ok (ones_like d0)
                  else Ok (ones_like d))
               cases;
           p ← per_case (get_slices_bb (MaskList data_single) patch_size overlap true min_size);
           Ok (p, g)
       end);
  Ok (mk neg_ratio sampler cases labels masks patch_size patch_slices
         (np_cumsum (map (fun s => Z.of_nat (length s)) patch_slices)),
      g').

End Init.

(** [__getitem__]. *)
Definition __getitem__ (self : t) (index : Z) : result item :=
  case_idx ←
    np_min_all
      (np_where (mkarray [Z.of_nat (length (max_slice self))]
                         (map (fun m => index <? m) (max_slice self))));
  case ← py_index (cases self) case_idx;
  let slices := 0 :: max_slice self in
  first ← py_index slices case_idx;
  let patch_idx := index - first in
  case_slices ← py_index (patch_slices self) case_idx;
  slice_i ← py_index case_slices patch_idx;
  inputs ← getitem case (none_slice case :: slice_i);
  match labels self with
  | Some labels =>
      labels ← py_index labels case_idx;
      let labels := array_map (fun x => x mod 256) labels in
      sub ← getitem labels slice_i;
      let target := expand_dims0 sub in
      if sampler self then Ok (WithIndex inputs target index)
      else Ok (WithTarget inputs target)
  | None => Ok (WithoutTarget inputs case_idx slice_i)
  end.

(** [__len__]. *)
Definition __len__ (self : t) : result Z := py_index (max_slice self) (-1).

End GenericSegmentationCroppingDataset.

(** ** The curriculum sampler *)

(** The outcome of a computation that can raise and whose loops are run
    with a bounded number of iterations: [OutOfFuel] means that the bound was
    reached before the loop ended. *)
Inductive outcome (A : Type) : Type :=
| Done (a : A)
| Exc (e : exn)
| OutOfFuel.
Arguments Done {A} a.
Arguments Exc {A} e.
Arguments OutOfFuel {A}.

(** Computations over a mutable state [S]: the state reached is kept also
    when an exception is raised. *)
Definition M (S A : Type) : Type := S -> outcome A * S.

#[global] Instance M_ret (S : Type) : MRet (M S) := fun _ a s => (Done a, s).
#[global] Instance M_bind (S : Type) : MBind (M S) := fun _ _ f m s =>
  match m s with
  | (Done a, s') => f a s'
  | (Exc e, s') => (Exc e, s')
  | (OutOfFuel, s') => (OutOfFuel, s')
  end.

Definition raise {S A : Type} (e : exn) : M S A := fun s => (Exc e, s).

(** [l[a:b]] on a Python list or a tensor. *)
Definition py_slice {A : Type} (l : list A) (a b : Z) : list A :=
  let '(a', b') := slice_indices (Z.of_nat (length l)) (mkslice a b) in
  firstn (Z.to_nat (b' - a')) (skipn (Z.to_nat a') l).

(** [t[idx] = v] for an index tensor [idx] and a scalar [v]: [IndexError]
    when an index is out of range. *)
Definition index_fill (t : list Q) (idx : list nat) (v : Q) : result (list Q) :=
  if forallb (fun i => (i <? length t)%nat) idx
  then Ok (foldr (fun i acc => <[i := v]> acc) t idx)
  else Raise IndexError.

(** [t[idx] = vs] for an index tensor [idx] and a tensor [vs] of the same
    length. *)
Definition index_put (t : list Q) (idx : list nat) (vs : list Q) : result (list Q) :=
  if negb (length idx =? length vs)%nat then Raise (RuntimeError ShapeMismatch)
  else if forallb (fun i => (i <? length t)%nat) idx
  then Ok (fold_left (fun acc iv => <[fst iv := snd iv]> acc) (combine idx vs) t)
  else Raise IndexError.

Definition Qsum (l : list Q) : Q := foldr Qplus 0%Q l.

(** [torch.max(t)]: [RuntimeError] on an empty tensor. *)
Definition torch_max (t : list Q) : result Q :=
  match t with
  | [] => Raise (RuntimeError EmptyTensor)
  | x :: xs => Ok (fold_left (fun m y => if Qle_bool m y then y else m) xs x)
  end.

(** [torch.clamp(t, lo, hi)]. *)
Definition torch_clamp (t : list Q) (lo hi : Q) : list Q :=
  map (fun x =>
         let y := if Qle_bool lo x then x else lo in
         if Qle_bool y hi then y else hi)
      t.

(** [a.unique()]: the distinct entries of [a].  The order in which torch
    returns them is not modelled. *)
Definition unique (a : list nat) : list nat := remove_dups a.

Module WeightedSubsetRandomSampler.

(** The fields of the sampler.  [weights] is a reference to a tensor of
    the store; the index tensors [initial] and [indices] are never written
    in place and are kept as values. *)
Record t : Type := mk {
  step : Z;
  step_inc : Z;
  rate : Q;
  rate_increase : Q;
  total_samples : Z;
  num_samples : Z;
  weights : nat;
  initial : list nat;
  indices : list nat
}.

Section Sampler.

(** The state of torch's random generator, [torch.randperm(n)], and the
    indices drawn by [torch.multinomial(w, n, replacement=True)] on a
    valid distribution. *)
Variable rng : Type.
Variable torch_randperm : rng -> nat -> list nat * rng.
Variable multinomial_draw : rng -> list Q -> nat -> list nat * rng.

(** The sampler, the store of the tensors of weights, and the
    generator. *)
Record state : Type := mkstate {
  self : t;
  heap : list (list Q);
  gen : rng
}.

Definition set_self (f : t -> t) : M state unit :=
  fun s => (Done tt, mkstate (f (self s)) (heap s) (gen s)).

Definition get_self : M state t := fun s => (Done (self s), s).

(** A new tensor of the store. *)
Definition alloc (w : list Q) : M state nat :=
  fun s => (Done (length (heap s)), mkstate (self s) (heap s ++ [w]) (gen s)).

Definition read (r : nat) : M state (list Q) :=
  fun s => match heap s !! r with
           | Some w => (Done w, s)
           | None => (Exc (RuntimeError UnknownTensor), s)
           end.

Definition write (r : nat) (w : list Q) : M state unit :=
  fun s => (Done tt, mkstate (self s) (<[r := w]> (heap s)) (gen s)).

Definition lift {A : Type} (r : result A) : M state A :=
  fun s => match r with
           | Ok a => (Done a, s)
           | Raise e => (Exc e, s)
           end.

Definition randperm (n : nat) : M state (list nat) :=
  fun s => let '(p, g) := torch_randperm (gen s) n in
           (Done p, mkstate (self s) (heap s) g).

(** [torch.multinomial(w, n, replacement=True)]: [RuntimeError] when no
    sample is requested, when a weight is negative, and when the weights
    sum to zero.  The two last ones are torch's complaints about an
    invalid multinomial distribution. *)
Definition multinomial (w : list Q) (n : Z) : M state (list nat) :=
  fun s =>
    if n <=? 0 then (Exc (RuntimeError NoSamples), s)
    else if existsb (fun x => negb (Qle_bool 0 x)) w
    then (Exc (RuntimeError NegativeProbability), s)
    else if Qle_bool (Qsum w) 0 then (Exc (RuntimeError ZeroProbabilities), s)
    else let '(a, g) := multinomial_draw (gen s) w (Z.to_nat n) in
         (Done a, mkstate (self s) (heap s) g).

(** The loop of [sample]; [samples] holds the [have] entries written so
    far.  The assignment [samples[have:have + len(b)] = b] raises when
    [b] does not fit in the remaining part of the tensor. *)
Fixpoint sample_loop (fuel : nat) (weights : nat) (want have : Z)
    (samples : list nat) : M state (list nat) :=
  match fuel with
  | O => fun s => (OutOfFuel, s)
  | S fuel' =>
      if have <? want then
        w ← read weights;
        a ← multinomial w (want - have);
        let b := unique a in
        if want <? have + Z.of_nat (length b)
        then raise (RuntimeError ShapeMismatch)
        else
          w' ← lift (index_fill w b 0%Q);
          _ ← write weights w';
          sample_loop fuel' weights want (have + Z.of_nat (length b))
                      (samples ++ b)
      else mret samples
  end.

(** [sample(weights, want)]; [torch.empty] raises on a negative size. *)
Definition sample (fuel : nat) (weights : nat) (want : Z)
  : M state (list nat) :=
  if want <? 0 then raise (RuntimeError NegativeSize)
  else sample_loop fuel weights want 0 [].

(** [int(np.ceil(num_samples / sample_div))]. *)
Definition ceil_div (n d : Z) : Z := - ((- n) / d).

(** [__init__].  The two rates are floats: the sampler holds the doubles
    that the numbers given for them denote. *)
Definition __init__ (num_samples sample_div : Z)
    (initial_rate rate_increase : Q) (h : list (list Q)) (g : rng)
  : result state :=
  if sample_div =? 0 then Raise ZeroDivisionError
  else if num_samples <? 0 then Raise (RuntimeError NegativeSize)
  else
    let n := ceil_div num_samples sample_div in
    let w := repeat (inject_Z 32767) (Z.to_nat num_samples) in
    let '(initial, g') := torch_randperm g (Z.to_nat num_samples) in
    Ok (mkstate
          (mk 0 sample_div (fl initial_rate) (fl rate_increase) num_samples n
              (length h) initial (py_slice initial 0 n))
          (h ++ [w]) g').

(** [update_weights]. *)
Definition update_weights (new_weights : list Q) (idx : list nat)
  : M state unit :=
  me ← get_self;
  w ← read (weights me);
  w' ← lift (index_put w idx new_weights);
  write (weights me) w'.

(** [int(self.num_samples * self.rate)], the product of the float of
    [num_samples] and the rate. *)
Definition n_hard (me : t) : Z :=
  py_int (float_mul (inject_Z (num_samples me)) (rate me)).

Definition n_easy (me : t) : Z := num_samples me - n_hard me.

(** The two draws of the curriculum branch of [update]: the hard and the
    easy indices. *)
Definition draw_hard_easy (fuel : nat) (me : t)
  : M state (list nat * list nat) :=
  w ← read (weights me);
  max_w ← lift (torch_max w);
  easy_w ← alloc (torch_clamp (map (fun x => fl (max_w - x)) w) 0%Q max_w);
  easy_idx ← sample fuel easy_w (n_easy me);
  w ← read (weights me);
  hard_w ← alloc w;
  w ← read hard_w;
  w' ← lift (index_fill w easy_idx 0%Q);
  _ ← write hard_w w';
  hard_idx ← sample fuel hard_w (n_hard me);
  mret (hard_idx, easy_idx).

Definition set_step (v : Z) (me : t) : t :=
  mk v (step_inc me) (rate me) (rate_increase me) (total_samples me)
     (num_samples me) (weights me) (initial me) (indices me).

Definition set_indices (v : list nat) (me : t) : t :=
  mk (step me) (step_inc me) (rate me) (rate_increase me)
     (total_samples me) (num_samples me) (weights me) (initial me) v.

Definition set_rate (v : Q) (me : t) : t :=
  mk (step me) (step_inc me) v (rate_increase me) (total_samples me)
     (num_samples me) (weights me) (initial me) (indices me).

(** [update]. *)
Definition update (fuel : nat) : M state unit :=
  me ← get_self;
  _ ← set_self (set_step (step me + 1));
  me ← get_self;
  _ ← (if step me <? step_inc me then
         let idx_ini := step me * num_samples me in
         let idx_end := (step me + 1) * num_samples me in
         set_self (set_indices (py_slice (initial me) idx_ini idx_end))
       else
         '(hard_idx, easy_idx) ← draw_hard_easy fuel me;
         let mixed_indices := hard_idx ++ easy_idx in
         p ← randperm (length mixed_indices);
         set_self (set_indices (map (fun i => nth i mixed_indices O) p)));
  me ← get_self;
  if (step_inc me <? step me) && (step me mod step_inc me =? 0) then
    set_self (set_rate (let r := float_add (rate me) (rate_increase me) in
                        if Qle_bool r 1 then r else 1%Q))
  else mret tt.

End Sampler.

End WeightedSubsetRandomSampler.

(** Deterministic generators used to run the sampler on concrete inputs:
    the permutation is the identity and a multinomial draw repeats the first
    index of positive weight. *)
Definition id_randperm (g : unit) (n : nat) : list nat * unit := (seq 0 n, g).

Fixpoint first_positive (i : nat) (w : list Q) : nat :=
  match w with
  | [] => i
  | x :: w' => if Qle_bool x 0 then first_positive (S i) w' else i
  end.

Definition first_draw (g : unit) (w : list Q) (n : nat) : list nat * unit :=
  (repeat (first_positive 0 w) n, g).

(** ** The boundary sampler *)

(** [m.max()]: [ValueError] on an array without entries. *)
Definition array_max (m : ndarray Z) : result Z :=
  match data m with
  | [] => Raise ValueError
  | x :: xs => Ok (list_max (x :: xs))
  end.

(** [range(a, b)]. *)
Definition range_from (a b : Z) : list Z :=
  map (fun k => a + Z.of_nat k) (seq 0 (Z.to_nat (b - a))).

(** [m == l] for an integer [l]. *)
Definition eq_label (m : ndarray Z) (l : Z) : ndarray bool :=
  array_map (fun x => x =? l) m.

(** [log_not] on a boolean array; [log_and] is [logical_and]. *)
Definition log_not (a : ndarray bool) : ndarray bool := array_map negb a.

(** Python 2 [zip] applied to the rows of a tuple: the [k]-th result
    collects the [k]-th entries of the rows, up to the shortest row. *)
Fixpoint zip_star (rows : list (list Z)) : list (list Z) :=
  match rows with
  | [] => []
  | [r] => map (fun x => [x]) r
  | r :: rest => zip_with cons r (zip_star rest)
  end.

(** [arr.size] of an array of coordinate rows. *)
Definition rows_size (arr : list (list Z)) : Z := Z.of_nat (length (concat arr)).

(** [np.concatenate(arrs, axis=0)]: [ValueError] when there is no array. *)
Definition np_concatenate (arrs : list (list (list Z))) : result (list (list Z)) :=
  match arrs with
  | [] => Raise ValueError
  | _ :: _ => Ok (concat arrs)
  end.

(** The mask of the positions that are at least half a patch away from the
    borders. *)
Definition border_mask (mesh : list (ndarray Z)) (patch_half max_shape : list Z)
  : result (ndarray bool) :=
  conds ←
    map_result
      (fun t =>
         let '(m_j, p_ij, max_j) := t in
         logical_and
           (array_map (fun x => p_ij <=? x) m_j)
           (array_map (fun x => x <=? max_j - p_ij) m_j))
      (combine (combine mesh patch_half) max_shape);
  reduce_logical_and conds.

Section Boundary.

Variable rng : Type.
Variable np_permutation : rng -> nat -> list nat * rng.

(** [scipy.ndimage.binary_erosion] with its default arguments, a library
    function from boolean arrays to boolean arrays ([binary_erosion] below
    computes it). *)
Variable imerode : ndarray bool -> ndarray bool.

(** A Python 2 [map] whose function draws from the generator and may
    raise. *)
Fixpoint map_rng_result {A B : Type} (f : A -> rng -> result B * rng)
    (l : list A) (g : rng) : result (list B * rng) :=
  match l with
  | [] => Ok ([], g)
  | a :: l' =>
      match f a g with
      | (Raise e, _) => Raise e
      | (Ok b, g1) =>
          match map_rng_result f l' g1 with
          | Raise e => Raise e
          | Ok (bs, g2) => Ok (b :: bs, g2)
          end
      end
  end.

(** The boundaries of the labels [1 .. m.max()] of one mask: the voxels of
    a label that its erosion removes. *)
Definition label_boundaries (m : ndarray Z) : result (list (ndarray bool)) :=
  top ← array_max m;
  map_result
    (fun l => logical_and (eq_label m l) (log_not (imerode (eq_label m l))))
    (range_from 1 (top + 1)).

(** The centres drawn for one case: for every label the first
    [int(np.sum(b_i) * rate)] rows of a random permutation of its boundary
    voxels; the draws without rows are dropped and the others are
    concatenated. *)
Definition boundary_centers (rate : Q) (b : list (ndarray bool)) (g : rng)
  : result (list (list Z)) * rng :=
  let '(arrs, g') :=
    map_rng rng
      (fun b_i g =>
         random_subset rng np_permutation [] (zip_star (np_where b_i))
           (py_int (float_mul (inject_Z (np_sum b_i)) rate)) g)
      b g in
  (np_concatenate (List.filter (fun arr => 0 <? rows_size arr) arrs), g').

(** [get_slices_boundary]; the argument [rois] is not used by the code. *)
Definition get_slices_boundary (masks : list (ndarray Z)) (patch_size : list Z)
    (rois : option (list (ndarray Z))) (rate : Q) (g : rng)
  : result (list (list (list slice)) * rng) :=
  let patch_half := patch_half_of patch_size in
  boundaries ← map_result label_boundaries masks;
  max_shape ← match masks with
              | [] => Raise IndexError
              | m :: _ => Ok (shape m)
              end;
  mesh ← get_mesh max_shape;
  legal_mask ← border_mask mesh patch_half max_shape;
  boundaries ←
    map_result (fun b => map_result (fun b_i => logical_and b_i legal_mask) b)
               boundaries;
  '(centers, g') ← map_rng_result (boundary_centers rate) boundaries g;
  Ok (map (fun c => centers_to_slice c patch_half) centers, g').

End Boundary.

(** The neighbours of a coordinate along the axes. *)
Fixpoint neighbours (c : list Z) : list (list Z) :=
  match c with
  | [] => []
  | x :: c' => (x - 1 :: c') :: (x + 1 :: c') :: map (cons x) (neighbours c')
  end.

(** Is the entry of a boolean array at the coordinate [c] true?  A
    coordinate outside the array counts as false. *)
Definition true_at (a : ndarray bool) (c : list Z) : bool :=
  existsb (fun v => if decide (v = c) then true else false) (true_voxels a).

(** [scipy.ndimage.binary_erosion(a)] with the default arguments: one pass
    with the structuring element made of a voxel and its neighbours along
    the axes, the outside of the array counting as background
    ([border_value=0]).  A voxel is kept when it and all these neighbours
    are true. *)
Definition binary_erosion (a : ndarray bool) : ndarray bool :=
  mkarray (shape a)
    (map (fun c => forallb (true_at a) (c :: neighbours c)) (ndindex (shape a))).

Module BoundarySegmentationCroppingDataset.

Record t : Type := mk {
  cases : list (ndarray Z);
  labels : option (list (ndarray Z));
  masks : option (list (ndarray Z));
  patch_size : list Z;
  patch_slices : list (list (list slice));
  max_slice : list Z
}.

(** The value returned by [__getitem__]. *)
Inductive item : Type :=
| WithTarget (inputs target : ndarray Z)
| WithoutTarget (inputs : ndarray Z) (case_idx : Z) (slice_i : list slice).

Section Init.

Variable rng : Type.
Variable np_permutation : rng -> nat -> list nat * rng.
Variable imerode : ndarray bool -> ndarray bool.

(** [__init__]; the rate of [get_slices_boundary] keeps its default 0.1. *)
Definition __init__ (cases : list (ndarray Z))
    (labels masks : option (list (ndarray Z)))
    (patch_size : GenericSegmentationCroppingDataset.patch_size_arg) (g : rng)
  : result (t * rng) :=
  data_shape ← match cases with
               | [] => Raise IndexError
               | c :: _ => Ok (shape c)
               end;
  let patch_size :=
    match patch_size with
    | GenericSegmentationCroppingDataset.PatchTuple ps => ps
    | GenericSegmentationCroppingDataset.PatchInt p => repeat p (length data_shape)
    end in
  '(patch_slices, g') ←
    match masks, labels with
    | Some masks, Some labels =>
        get_slices_boundary rng np_permutation imerode labels patch_size
                            (Some masks) (1 # 10) g
    | Some masks, None =>
        (* [map] over [None] raises *)
        Raise TypeError
    | None, Some labels =>
        get_slices_boundary rng np_permutation imerode labels patch_size
                            (Some labels) (1 # 10) g
    | None, None =>
        data_single ←
          map_result
            (fun d =>
               n ← array_len d;
               if 1 <? n then d0 ← array_first d; Ok (ones_like d0)
               else Ok (ones_like d))
            cases;
        get_slices_boundary rng np_permutation imerode data_single patch_size
                            None (1 # 10) g
    end;
  Ok (mk cases labels masks patch_size patch_slices
         (np_cumsum (map (fun s => Z.of_nat (length s)) patch_slices)),
      g').

End Init.

(** [__getitem__]. *)
Definition __getitem__ (self : t) (index : Z) : result item :=
  case_idx ←
    np_min_all
      (np_where (mkarray [Z.of_nat (length (max_slice self))]
                         (map (fun m => index <? m) (max_slice self))));
  case ← py_index (cases self) case_idx;
  let slices := 0 :: max_slice self in
  first ← py_index slices case_idx;
  let patch_idx := index - first in
  case_slices ← py_index (patch_slices self) case_idx;
  slice_i ← py_index case_slices patch_idx;
  inputs ← getitem case (none_slice case :: slice_i);
  match labels self with
  | Some labels =>
      labels ← py_index labels case_idx;
      let labels := array_map (fun x => x mod 256) labels in
      sub ← getitem labels slice_i;
      let target := expand_dims0 sub in
      Ok (WithTarget inputs target)
  | None => Ok (WithoutTarget inputs case_idx slice_i)
  end.

(** [__len__]. *)
Definition __len__ (self : t) : result Z := py_index (max_slice self) (-1).

End BoundarySegmentationCroppingDataset.

(** ** The bounding-box datasets *)

(** The argument [mode] of the bounding-box datasets: [None], ['min'] or
    ['max'] (with any other value the constructors leave the attribute [bb]
    unset). *)
Inductive mode_arg : Type :=
| ModeNone
| ModeMin
| ModeMax.

(** The attribute [bb].  Without a mode it is a list with one box per mask.
    With a mode the assignment ends with a comma, so that [bb] is a tuple
    whose only entry is the box shared by all the cases. *)
Inductive bb_attr : Type :=
| BoxPerMask (bb : list (list slice))
| BoxTuple (bb : list slice).

(** [np.min(rows, axis=0)] and [np.max(rows, axis=0)] on a list of equally
    long rows: the reduction down the rows, entry by entry.  numpy raises
    [ValueError] when there is no row; rows of different lengths do not make
    a two-dimensional array and are rejected here with the same
    exception. *)
Definition np_reduce_first (f : list Z -> Z) (rows : list (list Z))
  : result (list Z) :=
  match rows with
  | [] => Raise ValueError
  | r :: rest =>
      if forallb (fun r' => (length r' =? length r)%nat) rest
      then Ok (map (fun j => f (map (fun row => nth j row 0) rows))
                   (seq 0 (length r)))
      else Raise ValueError
  end.

(** [map(lambda (min_i, max_i): slice(min_i, max_i), zip(min_bb, max_bb))]. *)
Definition box_of (min_bb max_bb : list Z) : list slice :=
  map (fun mm => mkslice (fst mm) (snd mm)) (combine min_bb max_bb).

(** The computation of [bb] shared by the constructors of [BBImageDataset],
    [BBImageValueDataset] and [BBImageTupleDataset]. *)
Definition bounding_boxes (mode : mode_arg) (masks : list (ndarray Z))
  : result bb_attr :=
  let indices := map (fun mask => np_where (gt0 mask)) masks in
  match mode with
  | ModeNone =>
      bb ← map_result
             (fun idx =>
                mn ← np_min_last idx;
                mx ← np_max_last idx;
                Ok (box_of mn mx))
             indices;
      Ok (BoxPerMask bb)
  | ModeMin =>
      mins ← map_result np_min_last indices;
      min_bb ← np_reduce_first list_max mins;
      mins ← map_result np_min_last indices;
      max_bb ← np_reduce_first list_min mins;
      Ok (BoxTuple (box_of min_bb max_bb))
  | ModeMax =>
      mins ← map_result np_min_last indices;
      min_bb ← np_reduce_first list_min mins;
      mins ← map_result np_min_last indices;
      max_bb ← np_reduce_first list_max mins;
      Ok (BoxTuple (box_of min_bb max_bb))
  end.

(** [len(self.bb)]. *)
Definition bb_len (bb : bb_attr) : nat :=
  match bb with
  | BoxPerMask l => length l
  | BoxTuple _ => 1%nat
  end.

(** The local variable [bb] of [__getitem__]: one box, or the whole
    attribute when its length differs from the number of cases. *)
Inductive bb_value : Type :=
| OneBox (b : list slice)
| AllBoxes (l : list (list slice))
| WholeTuple (b : list slice).

Definition select_bb (bb : bb_attr) (ncases : nat) (index : Z) : result bb_value :=
  if (bb_len bb =? ncases)%nat then
    match bb with
    | BoxPerMask l => b ← py_index l index; Ok (OneBox b)
    | BoxTuple b => b' ← py_index [b] index; Ok (OneBox b')
    end
  else
    match bb with
    | BoxPerMask l => Ok (AllBoxes l)
    | BoxTuple b => Ok (WholeTuple b)
    end.

(** [a[tuple(lists)]] where every entry of the tuple is a list of slices
    (after [lead] leading slices): a non-empty list of slices is not a valid
    index ([IndexError]), and an empty list selects nothing. *)
Definition getitem_lists {A : Type} (a : ndarray A) (lead : list slice)
    (lists : list (list slice)) : result (ndarray A) :=
  match lists with
  | [] => getitem a lead
  | _ :: _ =>
      if existsb (fun l => negb (length l =? 0)%nat) lists then Raise IndexError
      else if (length (shape a) <? length lead + length lists)%nat
      then Raise IndexError
      else Ok (mkarray
                 (firstn (length lead) (sliced_shape (shape a) lead)
                  ++ 0 :: skipn (length lead + length lists) (shape a))
                 [])
  end.

(** [case[tuple([slice(None)] + bb)]]: appending a tuple to a list raises
    [TypeError]. *)
Definition crop_case {A : Type} (case : ndarray A) (bb : bb_value)
  : result (ndarray A) :=
  match bb with
  | OneBox b => getitem case (none_slice case :: b)
  | AllBoxes l => getitem_lists case [none_slice case] l
  | WholeTuple _ => Raise TypeError
  end.

(** [labels[tuple(bb)]]. *)
Definition crop_labels {A : Type} (labels : ndarray A) (bb : bb_value)
  : result (ndarray A) :=
  match bb with
  | OneBox b => getitem labels b
  | AllBoxes l => getitem_lists labels [] l
  | WholeTuple b => getitem_lists labels [] [b]
  end.

(** The list cut into [count] consecutive blocks of [size] entries. *)
Fixpoint chunks {A : Type} (size count : nat) (l : list A) : list (list A) :=
  match count with
  | O => []
  | S count' => firstn size l :: chunks size count' (skipn size l)
  end.

(** [np.flipud]: the entries along the first axis in reverse order;
    [ValueError] on an array without axes. *)
Definition flipud {A : Type} (a : ndarray A) : result (ndarray A) :=
  match shape a with
  | [] => Raise ValueError
  | n :: sh =>
      Ok (mkarray (shape a)
            (concat (rev (chunks (length (ndindex sh)) (Z.to_nat n) (data a)))))
  end.

(** [np.fliplr]: the entries along the second axis in reverse order;
    [ValueError] on an array with fewer than two axes. *)
Definition fliplr {A : Type} (a : ndarray A) : result (ndarray A) :=
  match shape a with
  | n0 :: n1 :: sh =>
      Ok (mkarray (shape a)
            (concat
               (map (fun block =>
                       concat (rev (chunks (length (ndindex sh)) (Z.to_nat n1) block)))
                    (chunks (length (ndindex (n1 :: sh))) (Z.to_nat n0) (data a)))))
  | _ => Raise ValueError
  end.

Module BBImageDataset.

Record t : Type := mk {
  sampler : bool;
  cases : list (ndarray Z);
  labels : option (list (ndarray Z));
  flip : bool;
  masks : list (ndarray Z);
  bb : bb_attr
}.

(** The value returned by [__getitem__]. *)
Inductive item : Type :=
| WithIndex (inputs targets : ndarray Z) (index : Z)
| WithTargets (inputs targets : ndarray Z)
| Inputs (inputs : ndarray Z).

(** [__init__]. *)
Definition __init__ (cases : list (ndarray Z)) (labels : option (list (ndarray Z)))
    (masks : list (ndarray Z)) (sampler : bool) (mode : mode_arg) (flip : bool)
  : result t :=
  bb ← bounding_boxes mode masks;
  Ok (mk sampler cases labels flip masks bb).

(** [__getitem__]; the result of [np.expand_dims(targets, axis=0)] is
    dropped by the code. *)
Definition __getitem__ (self : t) (index : Z) : result item :=
  bb ← select_bb (bb self) (length (cases self)) index;
  inputs ←
    (if flip self then
       case ← py_index (cases self) (index / 2);
       inputs ← crop_case case bb;
       if index mod 2 =? 1 then fliplr inputs else Ok inputs
     else
       case ← py_index (cases self) index;
       crop_case case bb);
  match labels self with
  | Some labels =>
      targets ←
        (if flip self then
           l ← py_index labels (index / 2);
           targets ← crop_labels l bb;
           if index mod 2 =? 1 then flipud targets else Ok targets
         else
           l ← py_index labels index;
           crop_labels l bb);
      if sampler self then Ok (WithIndex inputs targets index)
      else Ok (WithTargets inputs targets)
  | None => Ok (Inputs inputs)
  end.

(** [__len__]. *)
Definition __len__ (self : t) : Z :=
  if flip self then Z.of_nat (length (cases self)) * 2
  else Z.of_nat (length (cases self)).

End BBImageDataset.

Module BBImageValueDataset.

Record t : Type := mk {
  sampler : bool;
  cases : list (ndarray Z);
  values : option (list (ndarray Z));
  masks : list (ndarray Z);
  bb : bb_attr
}.

Inductive item : Type :=
| WithIndex (inputs targets : ndarray Z) (index : Z)
| WithTargets (inputs targets : ndarray Z)
| Inputs (inputs : ndarray Z).

(** [__init__]; the default of [mode] is ['max']. *)
Definition __init__ (cases : list (ndarray Z)) (values : option (list (ndarray Z)))
    (masks : list (ndarray Z)) (sampler : bool) (mode : mode_arg) : result t :=
  bb ← bounding_boxes mode masks;
  Ok (mk sampler cases values masks bb).

(** [__getitem__]. *)
Definition __getitem__ (self : t) (index : Z) : result item :=
  bb ← select_bb (bb self) (length (cases self)) index;
  case ← py_index (cases self) index;
  inputs ← crop_case case bb;
  match values self with
  | Some values =>
      v ← py_index values index;
      let targets := expand_dims0 v in
      if sampler self then Ok (WithIndex inputs targets index)
      else Ok (WithTargets inputs targets)
  | None => Ok (Inputs inputs)
  end.

(** [__len__]. *)
Definition __len__ (self : t) : Z := Z.of_nat (length (cases self)).

End BBImageValueDataset.

(** [(l > 0).astype(int) + (r > 0).astype(int)] on two arrays of the same
    shape (as for [logical_and], shapes that differ are rejected with
    [ValueError]). *)
Definition positive_count (l r : ndarray Z) : result (ndarray Z) :=
  if decide (shape l = shape r)
  then Ok (mkarray (shape l)
             (zip_with (fun x y => Z.b2z (0 <? x) + Z.b2z (0 <? y)) (data l) (data r)))
  else Raise ValueError.

Module BBImageTupleDataset.

Record t : Type := mk {
  cases : list (ndarray Z);
  labels : list (ndarray Z);
  masks : list (ndarray Z);
  labels_mix : list (ndarray Z);
  bb : bb_attr
}.

(** [__init__]. *)
Definition __init__ (cases labels masks : list (ndarray Z)) (mode : mode_arg)
  : result t :=
  labels_mix ←
    map_result (fun lr => positive_count (fst lr) (snd lr)) (combine labels masks);
  bb ← bounding_boxes mode masks;
  Ok (mk cases labels masks labels_mix bb).

(** [__getitem__]: the inputs and the pair of targets. *)
Definition __getitem__ (self : t) (index : Z)
  : result (ndarray Z * (ndarray Z * ndarray Z)) :=
  bb ← select_bb (bb self) (length (cases self)) index;
  case ← py_index (cases self) index;
  inputs ← crop_case case bb;
  l ← py_index (labels self) index;
  t1 ← crop_labels l bb;
  m ← py_index (labels_mix self) index;
  t2 ← crop_labels m bb;
  Ok (inputs, (expand_dims0 t1, expand_dims0 t2)).

(** [__len__]. *)
Definition __len__ (self : t) : Z := Z.of_nat (length (cases self)).

End BBImageTupleDataset.

(** ** The split sampler *)

(** A tensor of indices with one axis, or the tensor without axes that
    indexing with an integer returns. *)
Inductive index_tensor : Type :=
| Tensor1 (l : list nat)
| Tensor0 (x : nat).

(** [t[i]] for an integer [i]: [IndexError] when [i] is out of range or
    when [t] has no axis. *)
Definition tensor_at (t : index_tensor) (i : Z) : result index_tensor :=
  match t with
  | Tensor1 l => x ← py_index l i; Ok (Tensor0 x)
  | Tensor0 _ => Raise IndexError
  end.

(** [t[idx]] for a tensor of indices [idx]: [IndexError] when an index is
    out of range or when [t] has no axis. *)
Definition tensor_take (t : index_tensor) (idx : list nat) : result index_tensor :=
  match t with
  | Tensor1 l =>
      if forallb (fun i => (i <? length l)%nat) idx
      then Ok (Tensor1 (map (fun i => nth i l O) idx))
      else Raise IndexError
  | Tensor0 _ => Raise IndexError
  end.

(** [torch.cat((a, b))]: [RuntimeError] on a tensor without axes. *)
Definition torch_cat (a b : index_tensor) : result index_tensor :=
  match a, b with
  | Tensor1 la, Tensor1 lb => Ok (Tensor1 (la ++ lb))
  | _, _ => Raise (RuntimeError ZeroDimensional)
  end.

Module WeightedSplitRandomSampler.

(** The fields of the sampler. *)
Record t : Type := mk {
  step : Z;
  divs : Z;
  splits : Z;
  total_samples : Z;
  num_samples : Z;
  weights : list Q;
  initial : list nat;
  indices : list nat
}.

(** What a method raises: a built-in exception, or the [AttributeError]
    of reading a field that the constructor never sets. *)
Inductive error : Type :=
| Builtin (e : exn)
| AttributeError.

Section Sampler.

(** The state of torch's random generator, [torch.randperm(n)], and
    [torch.argsort]. *)
Variable rng : Type.
Variable torch_randperm : rng -> nat -> list nat * rng.
Variable torch_argsort : list Q -> list nat.

(** [__init__]. *)
Definition __init__ (num_samples sample_div splits : Z) (g : rng)
  : result (t * rng) :=
  if sample_div =? 0 then Raise ZeroDivisionError
  else if num_samples <? 0 then Raise (RuntimeError NegativeSize)
  else
    let n := num_samples / sample_div in
    let w := repeat (inject_Z 32767) (Z.to_nat num_samples) in
    let '(initial, g') := torch_randperm g (Z.to_nat num_samples) in
    Ok (mk 0 sample_div splits num_samples n w initial (py_slice initial 0 n), g').

(** [__iter__]: the indices that the sampler yields. *)
Definition __iter__ (self : t) : list nat := indices self.

(** [__len__]. *)
Definition __len__ (self : t) : Z := num_samples self.

(** [update_weights]. *)
Definition update_weights (self : t) (new_weights : list Q) (idx : list nat)
  : result t :=
  w' ← index_put (weights self) idx new_weights;
  Ok (mk (step self) (divs self) (splits self) (total_samples self)
         (num_samples self) w' (initial self) (indices self)).

(** The branch of [update] that follows the warm-up: the value assigned to
    [indices].  The last statement reads the field [samples], which the
    sampler does not have. *)
Definition split_indices (self : t) (g : rng) : (error + list nat) * rng :=
  let ordered_idx := torch_argsort (weights self) in
  let half := Z.of_nat (length ordered_idx) / 2 in
  let good_idx := Tensor1 (py_slice ordered_idx 0 half) in
  let '(p1, g1) := torch_randperm g (length (py_slice ordered_idx 0 half)) in
  match tensor_take good_idx p1 with
  | Raise e => (inl (Builtin e), g1)
  | Ok good_idx =>
      match tensor_at good_idx (num_samples self / 2) with
      | Raise e => (inl (Builtin e), g1)
      | Ok good_idx =>
          let bad_idx := py_slice ordered_idx half (Z.of_nat (length ordered_idx)) in
          let '(p2, g2) := torch_randperm g1 (length bad_idx) in
          match tensor_take good_idx p2 with
          | Raise e => (inl (Builtin e), g2)
          | Ok good_idx =>
              match tensor_at good_idx (num_samples self - num_samples self / 2) with
              | Raise e => (inl (Builtin e), g2)
              | Ok good_idx =>
                  match torch_cat good_idx (Tensor1 bad_idx) with
                  | Raise e => (inl (Builtin e), g2)
                  | Ok _ => (inl AttributeError, g2)
                  end
              end
          end
      end
  end.

Definition set_indices (v : list nat) (self : t) : t :=
  mk (step self) (divs self) (splits self) (total_samples self)
     (num_samples self) (weights self) (initial self) v.

Definition set_step (v : Z) (self : t) : t :=
  mk v (divs self) (splits self) (total_samples self)
     (num_samples self) (weights self) (initial self) (indices self).

(** [update]: the exception raised, if any, with the sampler and the
    generator as the call leaves them. *)
Definition update (self : t) (g : rng) : option error * t * rng :=
  if step self <? divs self then
    let idx_ini := (step self + 1) * num_samples self in
    let idx_end := (step self + 2) * num_samples self in
    let self := set_indices (py_slice (initial self) idx_ini idx_end) self in
    (None, set_step (step self + 1) self, g)
  else
    match split_indices self g with
    | (inl e, g') => (Some e, self, g')
    | (inr v, g') =>
        let self := set_indices v self in
        (None, set_step (step self + 1) self, g')
    end.

End Sampler.

End WeightedSplitRandomSampler.

(** The methods [__iter__] and [__len__] of [WeightedSubsetRandomSampler]. *)
Module WeightedSubsetRandomSamplerIter.

Definition __iter__ (self : WeightedSubsetRandomSampler.t) : list nat :=
  WeightedSubsetRandomSampler.indices self.

Definition __len__ (self : WeightedSubsetRandomSampler.t) : Z :=
  WeightedSubsetRandomSampler.num_samples self.

End WeightedSubsetRandomSamplerIter.

(** * Vocabulary of the statements *)

Module GSCD := GenericSegmentationCroppingDataset.
Module WSRS := WeightedSubsetRandomSampler.

Definition on_grid (lo hi step x : Z) : Prop :=
  x = hi \/ exists k, 0 <= k /\ x = lo + k * step /\ x < hi.

Definition has_foreground (mask : ndarray Z) : Prop :=
  shape mask <> [] /\ true_voxels (gt0 mask) <> [].

(** Is [c] a legal centre for the bounding box [min_i], [max_i]?  This is the
    entry of the legal mask at [c], written without the mesh. *)
Definition is_legal (patch_half max_shape min_i max_i : list Z) (c : list Z) : bool :=
  forallb
    (fun t =>
       let '(j, min_ij, max_ij, p_ij, max_j) := t in
       (Z.max min_ij p_ij <=? nth j c 0) && (nth j c 0 <=? Z.min max_ij (max_j - p_ij)))
    (zip5 (seq 0 (length max_shape)) min_i max_i patch_half max_shape).

(** The entries of a boolean array that are true and satisfy [legal]. *)
Definition legal_true_voxels (a : ndarray bool) (legal : list Z -> bool)
  : list (list Z) :=
  map fst (List.filter (fun cb => snd cb && legal (fst cb))
                       (combine (ndindex (shape a)) (data a))).

(** The array whose bounding box restricts the centres of the [i]-th case:
    the roi when rois are given, the mask itself otherwise. *)
Definition box_source (masks : list (ndarray Z)) (rois : option (list (ndarray Z)))
    (i : nat) : option (ndarray Z) :=
  match rois with
  | None => masks !! i
  | Some rois => rois !! i
  end.

(** The background mask of the [i]-th case. *)
Definition bck_mask_of (rois : option (list (ndarray Z))) (mask src : ndarray Z)
  : result (ndarray bool) :=
  match rois with
  | None => Ok (logical_not mask)
  | Some _ => logical_and (logical_not mask) (astype_bool src)
  end.

(** The candidate centres of one case: its legal foreground voxels [lv] and
    its legal background voxels [bv]. *)
Definition case_voxels (patch_size : list Z) (rois : option (list (ndarray Z)))
    (max_shape : list Z) (mask src : ndarray Z) (lv bv : list (list Z)) : Prop :=
  exists mn mx bm,
    np_min_last (np_where (gt0 src)) = Ok mn /\
    np_max_last (np_where (gt0 src)) = Ok mx /\
    bck_mask_of rois mask src = Ok bm /\
    shape mask = max_shape /\
    let legal := is_legal (patch_half_of patch_size) max_shape mn mx in
    lv = legal_true_voxels (astype_bool mask) legal /\
    bv = legal_true_voxels bm legal.

Section BalancedTail.

Variable rng : Type.
Variable np_permutation : rng -> nat -> list nat * rng.

(** The part of [get_balanced_slices] that draws the background centres
    and assembles the result, as a function of the candidate centres. *)
Definition balanced_tail (masks : list (ndarray Z)) (patch_size : list Z)
    (min_size : Z) (neg_ratio : Q) (lesion_voxels bck_voxels : list (list (list Z)))
    (g : rng) : result (list (list (list slice)) * rng) :=
  let patch_half := patch_half_of patch_size in
  let lesion_slices :=
    map (fun vox => centers_to_slice vox patch_half) lesion_voxels in
  if 0 <? min_size then
    let bck_slices :=
      map (fun vox => centers_to_slice vox patch_half) bck_voxels in
    fbck_slices ←
      map_result (fun sm => filter_size (fst sm) (snd sm) min_size)
                 (combine bck_slices masks);
    Ok (map_rng rng
          (fun pn g =>
             let '(neg, g') :=
               random_subset rng np_permutation [] (snd pn)
                 (py_int (float_mul neg_ratio (inject_Z (Z.of_nat (length (fst pn)))))) g in
             (fst pn ++ neg, g'))
          (combine lesion_slices fbck_slices) g)
  else
    let '(fbck_slices, g') :=
      map_rng rng
        (fun lb g =>
           let '(vox, g') :=
             random_subset rng np_permutation [] (snd lb)
               (py_int (float_mul neg_ratio (inject_Z (Z.of_nat (length (fst lb)))))) g in
           (centers_to_slice vox patch_half, g'))
        (combine lesion_voxels bck_voxels) g in
    Ok (map (fun pn => fst pn ++ snd pn) (combine lesion_slices fbck_slices), g').

End BalancedTail.

(** A slice of an axis of length [n] that lies within the axis and has
    length [len]. *)
Definition fits_patch (n len : Z) (s : slice) : Prop :=
  0 <= start s /\ stop s <= n /\ stop s - start s = len.

(** The integer nearest to a rational (halves are rounded up). *)
Definition nearest_int (q : Q) : Z := Qfloor (q + (1 # 2)).

(** The sum of the first [k] entries. *)
Definition prefix_sum (l : list Z) (k : nat) : Z := fold_right Z.add 0 (firstn k l).

(** The number of patches of each case. *)
Definition patch_counts (d : GSCD.t) : list Z :=
  map (fun s => Z.of_nat (length s)) (GSCD.patch_slices d).

(** The dataset has a case, and a label array when labels are present, for
    every table of slices; a tuple of slices has fewer entries than its case
    has axes, and no more entries than its label array has axes. *)
Definition dims_ok (d : GSCD.t) : Prop :=
  (forall k case_slices, GSCD.patch_slices d !! k = Some case_slices ->
     exists case, GSCD.cases d !! k = Some case /\
       forall s, In s case_slices -> (length s < length (shape case))%nat) /\
  (forall labels k case_slices,
     GSCD.labels d = Some labels ->
     GSCD.patch_slices d !! k = Some case_slices ->
     exists l, labels !! k = Some l /\
       forall s, In s case_slices -> (length s <= length (shape l))%nat).

(** The target returned with an item, when there is one. *)
Definition item_target (it : GSCD.item) : option (ndarray Z) :=
  match it with
  | GSCD.WithIndex _ target _ => Some target
  | GSCD.WithTarget _ target => Some target
  | GSCD.WithoutTarget _ _ _ => None
  end.

(** A dataset with one two-channel case of 4 x 4 pixels and its label
    array, and the dataset of one single-channel case without labels. *)
Definition example_cases : list (ndarray Z) := [mkarray [2; 4; 4] (repeat 7 32)].
Definition example_labels : list (ndarray Z) := [mask_of [4; 4] [[1; 1]; [2; 2]]].
Definition example_dataset : GSCD.t :=
  GSCD.mk 1%Q false example_cases (Some example_labels) None [2; 2; 2]
    [[[mkslice 0 2; mkslice 0 2]; [mkslice 1 3; mkslice 1 3]]] [2].
Definition single_channel_cases : list (ndarray Z) := [mkarray [1; 4; 4] (repeat 7 16)].

(** The indices of positive weight, and the indices of nonzero weight. *)
Definition positive_indices (w : list Q) : list nat :=
  List.filter (fun i => negb (Qle_bool (nth i w 0%Q) 0)) (seq 0 (length w)).

Definition nonzero_indices (w : list Q) : list nat :=
  List.filter (fun i => negb (Qeq_bool (nth i w 0%Q) 0)) (seq 0 (length w)).

Section SamplerSpec.

Variable rng : Type.
Variable torch_randperm : rng -> nat -> list nat * rng.
Variable multinomial_draw : rng -> list Q -> nat -> list nat * rng.

(** [frames n0 m Q]: the computation [m] keeps the first [n0] tensors of
    the store and the reference [weights] of the sampler, whatever its
    outcome, and the value it returns satisfies [Q]. *)
Definition frames {A : Type} (n0 : nat) (m : M (WSRS.state rng) A)
    (Q : A -> Prop) : Prop :=
  forall s, (n0 <= length (WSRS.heap rng s))%nat ->
    (n0 <= length (WSRS.heap rng (snd (m s))))%nat /\
    (forall r, (r < n0)%nat ->
       WSRS.heap rng (snd (m s)) !! r = WSRS.heap rng s !! r) /\
    WSRS.weights (WSRS.self rng (snd (m s))) = WSRS.weights (WSRS.self rng s) /\
    forall a, fst (m s) = Done a -> Q a.

(** A computation that does not touch the fields of the sampler. *)
Definition keeps_self {A : Type} (m : M (WSRS.state rng) A) : Prop :=
  forall s, WSRS.self rng (snd (m s)) = WSRS.self rng s.

(** The rate after an update that changes it. *)
Definition next_rate (me : WSRS.t) : Q :=
  let r := float_add (WSRS.rate me) (WSRS.rate_increase me) in
  if Qle_bool r 1 then r else 1%Q.

(** The two parts of [update] that follow the increment of the step: the
    choice of the indices and the change of the rate. *)
Definition update_body (fuel : nat) (me : WSRS.t) : M (WSRS.state rng) unit :=
  if WSRS.step me <? WSRS.step_inc me then
    let idx_ini := WSRS.step me * WSRS.num_samples me in
    let idx_end := (WSRS.step me + 1) * WSRS.num_samples me in
    WSRS.set_self rng
      (WSRS.set_indices (py_slice (WSRS.initial me) idx_ini idx_end))
  else
    '(hard_idx, easy_idx) ← WSRS.draw_hard_easy rng multinomial_draw fuel me;
    let mixed_indices := hard_idx ++ easy_idx in
    p ← WSRS.randperm rng torch_randperm (length mixed_indices);
    WSRS.set_self rng
      (WSRS.set_indices (map (fun i => nth i mixed_indices O) p)).

Definition update_rate (s : WSRS.state rng) : WSRS.state rng :=
  let me := WSRS.self rng s in
  if (WSRS.step_inc me <? WSRS.step me) && (WSRS.step me mod WSRS.step_inc me =? 0)
  then WSRS.mkstate rng (WSRS.set_rate (next_rate me) me) (WSRS.heap rng s)
                    (WSRS.gen rng s)
  else s.

End SamplerSpec.

(** The states that a sampler reaches from the state [s0] by calls to
    [update] and [update_weights], with the number of calls to [update]. *)
Inductive reached (rng : Type) (torch_randperm : rng -> nat -> list nat * rng)
    (multinomial_draw : rng -> list Q -> nat -> list nat * rng)
    (s0 : WSRS.state rng) : nat -> WSRS.state rng -> Prop :=
| reached_init : reached rng torch_randperm multinomial_draw s0 0 s0
| reached_update (n fuel : nat) (s s' : WSRS.state rng) (o : outcome unit) :
    reached rng torch_randperm multinomial_draw s0 n s ->
    WSRS.update rng torch_randperm multinomial_draw fuel s = (o, s') ->
    o <> OutOfFuel ->
    reached rng torch_randperm multinomial_draw s0 (S n) s'
| reached_update_weights (n : nat) (s s' : WSRS.state rng) (o : outcome unit)
    (new_weights : list Q) (idx : list nat) :
    reached rng torch_randperm multinomial_draw s0 n s ->
    WSRS.update_weights rng new_weights idx s = (o, s') ->
    reached rng torch_randperm multinomial_draw s0 n s'.

(** A sampler over four samples, two per epoch, with initial rate 0.25,
    after the weights 1, 2, 3, 4 have been recorded and after the warm-up
    call to [update]. *)
Definition fresh_example : WSRS.state unit :=
  WSRS.mkstate unit (WSRS.mk 0 2 (1 # 4) (1 # 16) 4 2 0 [0; 1; 2; 3]%nat [0; 1]%nat)
    [repeat (inject_Z 32767) 4] tt.

Definition trained_example : WSRS.state unit :=
  WSRS.mkstate unit (WSRS.mk 0 2 (1 # 4) (1 # 16) 4 2 0 [0; 1; 2; 3]%nat [0; 1]%nat)
    [[1; 2; 3; 4]%Q] tt.

Definition curriculum_example : WSRS.state unit :=
  WSRS.mkstate unit (WSRS.mk 1 2 (1 # 4) (1 # 16) 4 2 0 [0; 1; 2; 3]%nat [2; 3]%nat)
    [[1; 2; 3; 4]%Q] tt.

(** The state reached from [curriculum_example] by a call to [update]. *)
Definition after_curriculum_example : WSRS.state unit :=
  WSRS.mkstate unit (WSRS.mk 2 2 (1 # 4) (1 # 16) 4 2 0 [0; 1; 2; 3]%nat [0; 1]%nat)
    [[1; 2; 3; 4]%Q; [0; 0; 1; 0]%Q; [0; 0; 3; 4]%Q] tt.

(** A sampler over twenty samples, ten per epoch, with the rate 0.7, after
    the weights 1, ..., 20 have been recorded and after the warm-up call to
    [update]; and the state reached from it by a call to [update]. *)
Definition rounding_example : WSRS.state unit :=
  WSRS.mkstate unit
    (WSRS.mk 1 2 (fl (7 # 10)) (fl (1 # 20)) 20 10 0 (seq 0 20) (seq 10 10))
    [map (fun k => inject_Z (Z.of_nat k)) (seq 1 20)] tt.

Definition after_rounding_example : WSRS.state unit :=
  Eval vm_compute in
    snd (WSRS.update unit id_randperm first_draw 12 rounding_example).

(** ** Vocabulary of the further properties *)

(** The midpoint of a slice. *)
Definition slice_centre (s : slice) : Z := (start s + stop s) / 2.

(** The number of positive entries of [mask] at the coordinates that the
    slices [s] keep. *)
Definition positives_in (mask : ndarray Z) (s : list slice) : Z :=
  Z.of_nat
    (length
       (List.filter (fun cv => in_slices (shape mask) s (fst cv) && (0 <? snd cv))
                    (combine (ndindex (shape mask)) (data mask)))).

(** A coordinate of the grid that starts at [lo], advances by [step] and
    stays below [hi]. *)
Definition on_open_grid (lo hi step x : Z) : Prop :=
  exists k, 0 <= k /\ x = lo + k * step /\ x < hi.

(** Is [c] at least half a patch away from the borders of an array of shape
    [max_shape]?  This is the entry of the border mask at [c], written
    without the mesh. *)
Definition away_from_border (patch_half max_shape : list Z) (c : list Z) : bool :=
  forallb
    (fun t =>
       let '(j, p_ij, max_j) := t in
       (p_ij <=? nth j c 0) && (nth j c 0 <=? max_j - p_ij))
    (combine (combine (seq 0 (length max_shape)) patch_half) max_shape).

(** The inputs of an item of [BBImageDataset] and of [BBImageValueDataset]. *)
Definition image_inputs (it : BBImageDataset.item) : ndarray Z :=
  match it with
  | BBImageDataset.WithIndex inputs _ _ => inputs
  | BBImageDataset.WithTargets inputs _ => inputs
  | BBImageDataset.Inputs inputs => inputs
  end.

Definition value_inputs (it : BBImageValueDataset.item) : ndarray Z :=
  match it with
  | BBImageValueDataset.WithIndex inputs _ _ => inputs
  | BBImageValueDataset.WithTargets inputs _ => inputs
  | BBImageValueDataset.Inputs inputs => inputs
  end.

(** A slice that keeps no entry of an axis: its bounds are not negative and
    it stops where it starts, or before. *)
Definition empty_slice (s : slice) : Prop := 0 <= stop s <= start s.

Module WSRSI := WeightedSubsetRandomSamplerIter.
Module WSplit := WeightedSplitRandomSampler.

(** The [k]-th block of [m] consecutive entries of a list. *)
Definition chunk {A : Type} (l : list A) (m : Z) (k : nat) : list A :=
  py_slice l (Z.of_nat k * m) ((Z.of_nat k + 1) * m).

Section SplitRuns.

Variable rng : Type.
Variable torch_randperm : rng -> nat -> list nat * rng.
Variable torch_argsort : list Q -> list nat.

(** The sampler and the generator after [k] calls to [update] of
    [WeightedSplitRandomSampler], whether they raise or not. *)
Fixpoint split_updates (k : nat) (me : WSplit.t) (g : rng) : WSplit.t * rng :=
  match k with
  | O => (me, g)
  | S k' =>
      let '(me', g') := split_updates k' me g in
      let '(_, me'', g'') := WSplit.update rng torch_randperm torch_argsort me' g' in
      (me'', g'')
  end.

End SplitRuns.

(** An image of one channel and three by three voxels. *)
Definition small_image : ndarray Z := mkarray [1; 3; 3] (repeat 7 9%nat).

(** The dataset of [small_image] with a mask of two foreground voxels in
    opposite corners, without a mode. *)
Definition corners_dataset (flip : bool) : BBImageDataset.t :=
  BBImageDataset.mk false [small_image] None flip
    [mask_of [3; 3] [[0; 0]; [2; 2]]]
    (BoxPerMask [[mkslice 0 2; mkslice 0 2]]).

Module BSCD := BoundarySegmentationCroppingDataset.

(** An image of two channels and twelve by twelve voxels, and the
    boundary dataset built from it without labels and masks, with the
    identity as permutation.  The erosion of the mask of ones removes its
    outer ring, 21 voxels of the ring are at least half a patch away from
    the borders, and [int(21 * 0.1) = 2] of them are drawn. *)
Definition wide_image : ndarray Z := mkarray [2; 12; 12] (repeat 7 288%nat).

Definition ones_dataset : BSCD.t :=
  BSCD.mk [wide_image] None None [2; 2; 2]
    [[[mkslice 0 2; mkslice 10 12]; [mkslice 1 3; mkslice 10 12]]] [2].

(** The entry of [mask] at the coordinate [v] is positive. *)
Definition foreground (mask : ndarray Z) (v : list Z) : Prop :=
  exists x, In (v, x) (combine (ndindex (shape mask)) (data mask)) /\ 0 < x.

(** [lo] and [hi] are the smallest and the largest coordinate of the
    foreground voxels of [mask] along the axis [j]. *)
Definition extent (mask : ndarray Z) (j : nat) (lo hi : Z) : Prop :=
  (exists v, foreground mask v /\ v !! j = Some lo) /\
  (exists v, foreground mask v /\ v !! j = Some hi) /\
  forall v x, foreground mask v -> v !! j = Some x -> lo <= x <= hi.

(** The slices of the patch centred at [c]: from [c_j - p_j // 2] to
    [c_j + p_j // 2] in the dimensions that have a patch length. *)
Definition patch_at (patch_size : list Z) (c : list Z) : list slice :=
  zip_with (fun x p => mkslice (x - p / 2) (x + p / 2)) c patch_size.

(** The far corner of the bounding box [mx], half a patch inwards. *)
Definition far_corner (patch_size mx : list Z) : list Z :=
  zip_with (fun hi p => hi - p / 2) mx patch_size.

(** The slices returned for a mask whose centres are [cs]. *)
Definition patches_of (patch_size : list Z) (filtered : bool) (min_size : Z)
    (mask : ndarray Z) (cs : list (list Z)) : list (list slice) :=
  let slices := map (patch_at patch_size) cs in
  if filtered
  then List.filter (fun s => min_size <? positives_in mask s) slices
  else slices.

(** The item with the index [index], for the items that carry one. *)
Definition with_index (index : Z) (it : GSCD.item) : GSCD.item :=
  match it with
  | GSCD.WithIndex inputs target _ => GSCD.WithIndex inputs target index
  | _ => it
  end.

(** [example_dataset] built for a sampler: the items carry their index. *)
Definition indexed_dataset : GSCD.t :=
  GSCD.mk 1%Q true example_cases (Some example_labels) None [2; 2; 2]
    [[[mkslice 0 2; mkslice 0 2]; [mkslice 1 3; mkslice 1 3]]] [2].

(** * Properties *)

(** * Rounding to a double *)

Lemma pow2_pos (e : Z) : (0 < pow2 e)%Q.
Proof. apply Qpower_0_lt. reflexivity. Qed.

Lemma pow2_add (a b : Z) : (pow2 (a + b) == pow2 a * pow2 b)%Q.
Proof. apply Qpower_plus. discriminate. Qed.

Lemma pow2_lt (a b : Z) : a < b -> (pow2 a < pow2 b)%Q.
Proof. intros H. apply Qpower_lt_compat_l; [exact H|reflexivity]. Qed.

Lemma pow2_le (a b : Z) : a <= b -> (pow2 a <= pow2 b)%Q.
Proof. intros H. apply Qpower_le_compat_l; [exact H|discriminate]. Qed.

Lemma pow2_Z (a : Z) : 0 <= a -> (pow2 a == inject_Z (2 ^ a))%Q.
Proof. intros H. unfold pow2. rewrite Zpower_Qpower by exact H. reflexivity. Qed.

Lemma pow2_S (a : Z) : (pow2 (a + 1) == 2 * pow2 a)%Q.
Proof. rewrite pow2_add. unfold pow2 at 2. simpl. ring. Qed.

(** *** The exponent *)

Lemma log2_bounds (n : Z) :
  0 < n -> (pow2 (Z.log2 n) <= inject_Z n /\ inject_Z n < pow2 (Z.log2 n + 1))%Q.
Proof.
  intros Hn. destruct (Z.log2_spec n Hn) as [H1 H2].
  pose proof (Z.log2_nonneg n) as H0.
  rewrite !pow2_Z by lia. rewrite <- Zle_Qle, <- Zlt_Qlt.
  unfold Z.succ in H2. split; assumption.
Qed.

Lemma ulp_exp_spec (x : Q) :
  (0 < x)%Q ->
  (pow2 (ulp_exp x + 52) <= x /\ x < pow2 (ulp_exp x + 53))%Q.
Proof.
  intros Hx. destruct x as [n d]. unfold ulp_exp. cbn [Qnum Qden].
  assert (Hn : 0 < n) by (unfold Qlt in Hx; simpl in Hx; lia).
  destruct (log2_bounds n Hn) as [N1 N2].
  destruct (log2_bounds (Zpos d) ltac:(lia)) as [D1 D2].
  set (a := Z.log2 n) in *. set (b := Z.log2 (Zpos d)) in *.
  assert (Hd : (0 < inject_Z (Zpos d))%Q) by (rewrite <- (Zlt_Qlt 0); lia).
  assert (Ex : (n # d == inject_Z n / inject_Z (Zpos d))%Q) by apply Qmake_Qdiv.
  assert (Hlo : (pow2 (a - b - 1) <= n # d)%Q).
  { rewrite Ex. apply Qle_shift_div_l; [exact Hd|].
    apply Qle_trans with (pow2 (a - b - 1) * pow2 (b + 1))%Q.
    - apply Qmult_le_l; [apply pow2_pos|]. apply Qlt_le_weak. exact D2.
    - rewrite <- pow2_add. replace (a - b - 1 + (b + 1)) with a by lia. exact N1. }
  assert (Hhi : (n # d < pow2 (a - b + 1))%Q).
  { rewrite Ex. apply Qlt_shift_div_r; [exact Hd|].
    apply Qlt_le_trans with (pow2 (a - b + 1) * pow2 b)%Q.
    - rewrite <- pow2_add. replace (a - b + 1 + b) with (a + 1) by lia. exact N2.
    - apply Qmult_le_l; [apply pow2_pos|]. exact D1. }
  destruct (Qle_bool (pow2 (a - b)) (n # d)) eqn:E.
  - apply Qle_bool_iff in E.
    replace (a - b - 52 + 52) with (a - b) by lia.
    replace (a - b - 52 + 53) with (a - b + 1) by lia. split; assumption.
  - assert (E' : (n # d < pow2 (a - b))%Q).
    { apply Qnot_le_lt. intros H. apply Qle_bool_iff in H. congruence. }
    replace (a - b - 53 + 52) with (a - b - 1) by lia.
    replace (a - b - 53 + 53) with (a - b) by lia. split; assumption.
Qed.

Lemma ulp_exp_unique (x : Q) (e : Z) :
  (pow2 (e + 52) <= x)%Q -> (x < pow2 (e + 53))%Q -> ulp_exp x = e.
Proof.
  intros H1 H2.
  assert (Hx : (0 < x)%Q) by (eapply Qlt_le_trans; [apply pow2_pos|exact H1]).
  destruct (ulp_exp_spec x Hx) as [S1 S2].
  assert (A : ulp_exp x + 52 < e + 53).
  { apply Qpower_lt_compat_l_inv with (q := 2%Q); [|reflexivity].
    eapply Qle_lt_trans; [exact S1|exact H2]. }
  assert (B : e + 52 < ulp_exp x + 53).
  { apply Qpower_lt_compat_l_inv with (q := 2%Q); [|reflexivity].
    eapply Qle_lt_trans; [exact H1|exact S2]. }
  lia.
Qed.

Lemma ulp_exp_le (x y : Q) : (0 < x)%Q -> (x <= y)%Q -> ulp_exp x <= ulp_exp y.
Proof.
  intros Hx Hxy.
  assert (Hy : (0 < y)%Q) by (eapply Qlt_le_trans; eassumption).
  destruct (ulp_exp_spec x Hx) as [X1 _]. destruct (ulp_exp_spec y Hy) as [_ Y2].
  assert (A : ulp_exp x + 52 < ulp_exp y + 53).
  { apply Qpower_lt_compat_l_inv with (q := 2%Q); [|reflexivity].
    eapply Qle_lt_trans; [exact X1|]. eapply Qle_lt_trans; [exact Hxy|exact Y2]. }
  lia.
Qed.

(** *** Rounding to an integer *)

Lemma round_half_even_cases (q : Q) :
  round_half_even q = Qfloor q \/ round_half_even q = Qfloor q + 1.
Proof.
  unfold round_half_even. destruct (_ ?= _)%Q; auto. destruct (Z.even _); auto.
Qed.

Lemma round_half_even_near (q : Q) :
  (inject_Z (round_half_even q) - (1 # 2) <= q
   /\ q <= inject_Z (round_half_even q) + (1 # 2))%Q.
Proof.
  pose proof (Qfloor_le q) as F1. pose proof (Qlt_floor q) as F2.
  rewrite inject_Z_plus in F2. change (inject_Z 1) with 1%Q in F2.
  unfold round_half_even.
  destruct (Qcompare_spec (q - inject_Z (Qfloor q)) (1 # 2)) as [E|E|E].
  - destruct (Z.even (Qfloor q));
      [|rewrite inject_Z_plus; change (inject_Z 1) with 1%Q]; split; lra.
  - split; lra.
  - rewrite inject_Z_plus. change (inject_Z 1) with 1%Q. split; lra.
Qed.

Lemma round_half_even_Z (k : Z) : round_half_even (inject_Z k) = k.
Proof.
  unfold round_half_even. rewrite Qfloor_Z.
  destruct (Qcompare_spec (inject_Z k - inject_Z k) (1 # 2)) as [E|E|E].
  - exfalso. lra.
  - reflexivity.
  - exfalso. lra.
Qed.

Lemma round_half_even_le (q1 q2 : Q) :
  (q1 <= q2)%Q -> round_half_even q1 <= round_half_even q2.
Proof.
  intros H. pose proof (Qfloor_resp_le _ _ H) as Hf.
  destruct (Z.eq_dec (Qfloor q1) (Qfloor q2)) as [E|E].
  - unfold round_half_even. rewrite E.
    destruct (Qcompare_spec (q1 - inject_Z (Qfloor q2)) (1 # 2)) as [E1|E1|E1];
      destruct (Qcompare_spec (q2 - inject_Z (Qfloor q2)) (1 # 2)) as [E2|E2|E2];
      try destruct (Z.even (Qfloor q2)); try lia; exfalso; lra.
  - destruct (round_half_even_cases q1) as [-> | ->];
      destruct (round_half_even_cases q2) as [-> | ->]; lia.
Qed.

Lemma round_half_even_proper (q1 q2 : Q) :
  (q1 == q2)%Q -> round_half_even q1 = round_half_even q2.
Proof.
  intros H. apply Z.le_antisymm; apply round_half_even_le; rewrite H; apply Qle_refl.
Qed.

(** *** Rounding a positive number *)

Lemma Qred_twice (q : Q) : Qred (Qred q) = Qred q.
Proof. apply Qred_complete, Qred_correct. Qed.

Lemma fl_pos_eq (x : Q) :
  (fl_pos x == inject_Z (round_half_even (x / pow2 (ulp_exp x))) * pow2 (ulp_exp x))%Q.
Proof. unfold fl_pos. apply Qred_correct. Qed.

Lemma scaled_bounds (x : Q) :
  (0 < x)%Q ->
  (inject_Z (2 ^ 52) <= x / pow2 (ulp_exp x)
   /\ x / pow2 (ulp_exp x) < inject_Z (2 ^ 53))%Q.
Proof.
  intros Hx. destruct (ulp_exp_spec x Hx) as [S1 S2].
  rewrite pow2_add in S1, S2. rewrite <- !pow2_Z by lia.
  pose proof (pow2_pos (ulp_exp x)) as Hp.
  split.
  - apply Qle_shift_div_l; [exact Hp|]. rewrite Qmult_comm. exact S1.
  - apply Qlt_shift_div_r; [exact Hp|]. rewrite Qmult_comm. exact S2.
Qed.

Lemma mantissa_bounds (x : Q) :
  (0 < x)%Q ->
  2 ^ 52 <= round_half_even (x / pow2 (ulp_exp x)) <= 2 ^ 53.
Proof.
  intros Hx. destruct (scaled_bounds x Hx) as [S1 S2]. split.
  - rewrite <- (round_half_even_Z (2 ^ 52)). apply round_half_even_le. exact S1.
  - rewrite <- (round_half_even_Z (2 ^ 53)). apply round_half_even_le.
    apply Qlt_le_weak. exact S2.
Qed.

Lemma fl_pos_bounds (x : Q) :
  (0 < x)%Q ->
  (pow2 (ulp_exp x + 52) <= fl_pos x /\ fl_pos x <= pow2 (ulp_exp x + 53))%Q.
Proof.
  intros Hx. destruct (mantissa_bounds x Hx) as [M1 M2].
  rewrite fl_pos_eq, !pow2_add, !(pow2_Z 52), !(pow2_Z 53) by lia.
  pose proof (pow2_pos (ulp_exp x)) as Hp.
  rewrite !(Qmult_comm (pow2 (ulp_exp x))).
  split; (apply Qmult_le_compat_r; [rewrite <- Zle_Qle; assumption|]);
    apply Qlt_le_weak; exact Hp.
Qed.

Lemma fl_pos_positive (x : Q) : (0 < x)%Q -> (0 < fl_pos x)%Q.
Proof.
  intros Hx. eapply Qlt_le_trans; [apply pow2_pos|].
  apply (fl_pos_bounds x Hx).
Qed.

Lemma fl_pos_le (x y : Q) : (0 < x)%Q -> (x <= y)%Q -> (fl_pos x <= fl_pos y)%Q.
Proof.
  intros Hx Hxy.
  assert (Hy : (0 < y)%Q) by (eapply Qlt_le_trans; eassumption).
  pose proof (ulp_exp_le x y Hx Hxy) as He.
  destruct (Z.eq_dec (ulp_exp x) (ulp_exp y)) as [E|E].
  - rewrite !fl_pos_eq, E.
    apply Qmult_le_compat_r; [|apply Qlt_le_weak, pow2_pos].
    rewrite <- Zle_Qle. apply round_half_even_le.
    apply Qmult_le_compat_r; [exact Hxy|].
    apply Qlt_le_weak, Qinv_lt_0_compat, pow2_pos.
  - apply Qle_trans with (pow2 (ulp_exp x + 53)); [apply (fl_pos_bounds x Hx)|].
    apply Qle_trans with (pow2 (ulp_exp y + 52)); [|apply (fl_pos_bounds y Hy)].
    apply pow2_le. lia.
Qed.

Lemma fl_pos_proper (x y : Q) : (0 < x)%Q -> (x == y)%Q -> fl_pos x = fl_pos y.
Proof.
  intros Hx Hxy.
  assert (Hy : (0 < y)%Q) by (rewrite <- Hxy; exact Hx).
  assert (E : ulp_exp x = ulp_exp y).
  { destruct (ulp_exp_spec y Hy) as [S1 S2].
    apply ulp_exp_unique; rewrite Hxy; assumption. }
  unfold fl_pos. rewrite E. apply Qred_complete.
  rewrite (round_half_even_proper (x / pow2 (ulp_exp y)) (y / pow2 (ulp_exp y)))
    by (rewrite Hxy; reflexivity).
  reflexivity.
Qed.

Lemma pow2_scaled (e k : Z) :
  0 <= k -> (pow2 (e + k) == inject_Z (2 ^ k) * pow2 e)%Q.
Proof. intros Hk. rewrite pow2_add, (pow2_Z k) by exact Hk. ring. Qed.

Lemma scaled_le_pow2 (m e k : Z) :
  0 <= k -> 2 ^ k <= m -> (pow2 (e + k) <= inject_Z m * pow2 e)%Q.
Proof.
  intros Hk Hm. rewrite pow2_scaled by exact Hk.
  apply Qmult_le_r; [apply pow2_pos|]. rewrite <- Zle_Qle. exact Hm.
Qed.

Lemma scaled_lt_pow2 (m e k : Z) :
  0 <= k -> m < 2 ^ k -> (inject_Z m * pow2 e < pow2 (e + k))%Q.
Proof.
  intros Hk Hm. rewrite pow2_scaled by exact Hk.
  apply Qmult_lt_r; [apply pow2_pos|]. rewrite <- Zlt_Qlt. exact Hm.
Qed.

Lemma pow2_nonzero (e : Z) : ~ (pow2 e == 0)%Q.
Proof. intros H. pose proof (pow2_pos e) as Hp. rewrite H in Hp. discriminate Hp. Qed.

(** A number [m * 2^e] with [2^52 <= m < 2^53] is rounded to itself. *)
Lemma fl_pos_exact (m e : Z) (y : Q) :
  2 ^ 52 <= m < 2 ^ 53 -> (y == inject_Z m * pow2 e)%Q -> (fl_pos y == y)%Q.
Proof.
  intros Hm Ey.
  assert (Ee : ulp_exp y = e).
  { apply ulp_exp_unique; rewrite Ey.
    - apply scaled_le_pow2; lia.
    - apply scaled_lt_pow2; lia. }
  rewrite fl_pos_eq, Ee.
  assert (Es : (y / pow2 e == inject_Z m)%Q).
  { rewrite Ey. field. apply pow2_nonzero. }
  rewrite (round_half_even_proper _ _ Es), round_half_even_Z, Ey. reflexivity.
Qed.

Lemma fl_pos_idem (x : Q) : (0 < x)%Q -> fl_pos (fl_pos x) = fl_pos x.
Proof.
  intros Hx. destruct (mantissa_bounds x Hx) as [M1 M2].
  pose proof (fl_pos_eq x) as Ey.
  set (m := round_half_even (x / pow2 (ulp_exp x))) in *.
  set (e := ulp_exp x) in *.
  assert (Hpos : (0 < fl_pos x)%Q) by (apply fl_pos_positive; exact Hx).
  assert (E : (fl_pos (fl_pos x) == fl_pos x)%Q).
  { destruct (Z.eq_dec m (2 ^ 53)) as [Em|Em].
    - apply (fl_pos_exact (2 ^ 52) (e + 1)); [lia|].
      rewrite Ey, Em, pow2_S.
      change (inject_Z (2 ^ 53)) with (2 * inject_Z (2 ^ 52))%Q. ring.
    - apply (fl_pos_exact m e); [lia|exact Ey]. }
  apply Qred_complete in E. revert E. unfold fl_pos at 1 3.
  rewrite !Qred_twice. intros E. exact E.
Qed.

(** *** Rounding *)

Lemma fl_cases (x : Q) :
  ((x == 0 /\ fl x = 0) \/ (0 < x /\ fl x = fl_pos x)
   \/ (x < 0 /\ fl x = Qred (- fl_pos (- x))))%Q.
Proof.
  unfold fl. destruct (Qcompare_spec x 0) as [E|E|E]; auto.
Qed.

Lemma fl_sign (x : Q) :
  ((x == 0 /\ fl x == 0) \/ (0 < x /\ 0 < fl x) \/ (x < 0 /\ fl x < 0))%Q.
Proof.
  destruct (fl_cases x) as [[H ->]|[[H ->]|[H ->]]].
  - left. split; [exact H|reflexivity].
  - right. left. split; [exact H|apply fl_pos_positive; exact H].
  - right. right. split; [exact H|]. rewrite Qred_correct.
    assert (Hn : (0 < - x)%Q) by lra.
    pose proof (fl_pos_positive _ Hn). lra.
Qed.

(** Rounding keeps the order. *)
Lemma fl_le (x y : Q) : (x <= y)%Q -> (fl x <= fl y)%Q.
Proof.
  intros Hxy.
  destruct (fl_cases x) as [[Hx Ex]|[[Hx Ex]|[Hx Ex]]];
    destruct (fl_cases y) as [[Hy Ey]|[[Hy Ey]|[Hy Ey]]]; rewrite Ex, Ey;
    try (exfalso; lra).
  - apply Qle_refl.
  - apply Qlt_le_weak, fl_pos_positive. exact Hy.
  - apply fl_pos_le; assumption.
  - rewrite Qred_correct. assert (Hn : (0 < - x)%Q) by lra.
    pose proof (fl_pos_positive _ Hn). lra.
  - rewrite Qred_correct. assert (Hn : (0 < - x)%Q) by lra.
    pose proof (fl_pos_positive _ Hn). pose proof (fl_pos_positive _ Hy). lra.
  - rewrite !Qred_correct. assert (Hn : (0 < - y)%Q) by lra.
    assert (Hle : (- y <= - x)%Q) by lra.
    pose proof (fl_pos_le _ _ Hn Hle). lra.
Qed.

Lemma fl_proper (x y : Q) : (x == y)%Q -> fl x = fl y.
Proof.
  intros Hxy.
  destruct (fl_cases x) as [[Hx Ex]|[[Hx Ex]|[Hx Ex]]];
    destruct (fl_cases y) as [[Hy Ey]|[[Hy Ey]|[Hy Ey]]]; rewrite Ex, Ey;
    try (exfalso; lra).
  - reflexivity.
  - apply fl_pos_proper; assumption.
  - f_equal. f_equal. apply fl_pos_proper; [lra|]. rewrite Hxy. reflexivity.
Qed.

(** A double is rounded to itself. *)
Lemma fl_idem (x : Q) : fl (fl x) = fl x.
Proof.
  destruct (fl_cases x) as [[Hx Ex]|[[Hx Ex]|[Hx Ex]]]; rewrite Ex.
  - reflexivity.
  - pose proof (fl_pos_positive x Hx) as Hp.
    destruct (fl_cases (fl_pos x)) as [[H _]|[[_ ->]|[H _]]]; try (exfalso; lra).
    apply fl_pos_idem. exact Hx.
  - assert (Hn : (0 < - x)%Q) by lra.
    pose proof (fl_pos_positive _ Hn) as Hp.
    pose proof (Qred_correct (- fl_pos (- x))) as Er.
    destruct (fl_cases (Qred (- fl_pos (- x)))) as [[H _]|[[H _]|[_ ->]]];
      try (exfalso; lra).
    apply Qred_complete.
    assert (E : (- Qred (- fl_pos (- x)) == fl_pos (- x))%Q) by (rewrite Er; ring).
    assert (Hq : (0 < - Qred (- fl_pos (- x)))%Q) by lra.
    rewrite (fl_pos_proper _ _ Hq E), (fl_pos_idem _ Hn). reflexivity.
Qed.

Lemma float_mul_nonneg (x y : Q) : (0 <= x)%Q -> (0 <= y)%Q -> (0 <= float_mul x y)%Q.
Proof.
  intros Hx Hy. unfold float_mul.
  assert (H0 : fl 0 = 0%Q) by reflexivity.
  rewrite <- H0. apply fl_le.
  apply Qmult_le_0_compat; rewrite <- H0; apply fl_le; assumption.
Qed.

(** ** Lists and results *)

Lemma map_result_Forall2 {A B : Type} (f : A -> result B) (l : list A) (r : list B) :
  map_result f l = Ok r -> Forall2 (fun a b => f a = Ok b) l r.
Proof.
  revert r. induction l as [|a l IH]; simpl; intros r H.
  - inversion H. constructor.
  - destruct (f a) as [b|e] eqn:Ha; [|discriminate].
    destruct (map_result f l) as [bs|e]; [|discriminate].
    inversion H; subst. constructor; auto.
Qed.

Lemma map_result_total {A B : Type} (f : A -> result B) (l : list A) :
  Forall (fun a => exists b, f a = Ok b) l -> exists r, map_result f l = Ok r.
Proof.
  induction 1 as [|a l [b Hb] _ [r Hr]]; simpl.
  - eauto.
  - rewrite Hb, Hr. eauto.
Qed.

Lemma map_result_raise {A B : Type} (f : A -> result B) (l : list A) (e0 : exn) :
  (forall a e, In a l -> f a = Raise e -> e = e0) ->
  (exists a, In a l /\ f a = Raise e0) ->
  map_result f l = Raise e0.
Proof.
  induction l as [|a l IH]; simpl; intros Hall [x [Hin Hx]]; [tauto|].
  destruct (f a) as [b|e] eqn:Ha.
  - destruct Hin as [->|Hin]; [congruence|].
    rewrite IH; [reflexivity| |exists x; auto].
    intros a' e Ha' He. apply (Hall a' e); auto.
  - f_equal. apply (Hall a e); auto.
Qed.

Lemma map_result_ext_in {A B : Type} (f g : A -> result B) (l : list A) :
  (forall a, In a l -> f a = g a) -> map_result f l = map_result g l.
Proof.
  induction l as [|a l IH]; simpl; intros H; [reflexivity|].
  rewrite H by auto. rewrite IH by auto. reflexivity.
Qed.

Lemma filter_result_incl {A : Type} (f : A -> result bool) (l r : list A) :
  filter_result f l = Ok r -> incl r l.
Proof.
  revert r. induction l as [|a l IH]; simpl; intros r H.
  - inversion H. apply incl_refl.
  - destruct (f a) as [b|e]; [|discriminate].
    destruct (filter_result f l) as [r'|e]; [|discriminate].
    inversion H; subst. specialize (IH _ eq_refl).
    destruct b; intros x Hx; simpl in *; intuition.
Qed.

(** ** Coordinates *)

Lemma in_range (n x : Z) : In x (range n) <-> 0 <= x < n.
Proof.
  unfold range. rewrite in_map_iff. split.
  - intros [k [<- Hk]]. apply in_seq in Hk. lia.
  - intros H. exists (Z.to_nat x). split; [lia|]. apply in_seq. lia.
Qed.

Lemma in_product (ls : list (list Z)) (c : list Z) :
  In c (product ls) <-> Forall2 (fun x l => In x l) c ls.
Proof.
  revert c. induction ls as [|l ls IH]; simpl; intros c.
  - split.
    + intros [<-|[]]. constructor.
    + intros H. inversion H. auto.
  - rewrite in_flat_map. split.
    + intros [x [Hx Hc]]. apply in_map_iff in Hc as [c' [<- Hc']].
      constructor; [assumption|]. apply IH. assumption.
    + intros H. inversion H as [|x l' c' ls' Hx Hc']; subst.
      exists x. split; [assumption|]. apply in_map. apply IH. assumption.
Qed.

Lemma in_ndindex (sh c : list Z) :
  In c (ndindex sh) <-> Forall2 (fun x n => 0 <= x < n) c sh.
Proof.
  unfold ndindex. rewrite in_product. revert c.
  induction sh as [|n sh IH]; simpl; intros c.
  - split; intros H; inversion H; constructor.
  - split; intros H; inversion H; subst; constructor;
      try (apply in_range; assumption); try (apply IH; assumption).
Qed.

Lemma in_ndindex_length (sh c : list Z) :
  In c (ndindex sh) -> length c = length sh.
Proof. rewrite in_ndindex. apply Forall2_length. Qed.

Lemma in_arange (lo hi step x : Z) :
  0 < step ->
  In x (arange lo hi step) <-> exists k, 0 <= k /\ x = lo + k * step /\ x < hi.
Proof.
  intros Hs. unfold arange. rewrite in_map_iff. split.
  - intros [k [<- Hk]]. apply in_seq in Hk. exists (Z.of_nat k).
    split; [lia|]. split; [reflexivity|].
    destruct Hk as [_ Hk]. simpl in Hk.
    assert (Hq : Z.of_nat k < (hi - lo + step - 1) / step) by lia.
    assert (Hd : step * ((hi - lo + step - 1) / step) <= hi - lo + step - 1)
      by (apply Z.mul_div_le; lia).
    nia.
  - intros [k [Hk [-> Hlt]]]. exists (Z.to_nat k). split; [lia|].
    apply in_seq. split; [lia|]. simpl.
    assert (Hq : k + 1 <= (hi - lo + step - 1) / step).
    { apply Z.div_le_lower_bound; lia. }
    lia.
Qed.

(** ** Positions in zipped lists *)

Lemma lookup_map {A B : Type} (f : A -> B) (l : list A) (i : nat) :
  map f l !! i = f <$> (l !! i).
Proof. revert i. induction l; intros [|i]; simpl; auto. Qed.

Lemma lookup_combine {A B : Type} (l : list A) (k : list B) (i : nat) :
  combine l k !! i =
    match l !! i, k !! i with
    | Some a, Some b => Some (a, b)
    | _, _ => None
    end.
Proof.
  revert k i. induction l as [|a l IH]; intros [|b k] [|i]; simpl; auto.
  destruct (l !! i); reflexivity.
Qed.

Lemma In_lookup {A : Type} (l : list A) (x : A) :
  In x l <-> exists i, l !! i = Some x.
Proof. rewrite <- list_elem_of_In. apply list_elem_of_lookup. Qed.

Lemma lookup_shift_by (f : Z -> Z -> Z) (bb half : list Z) (j : nat) :
  shift_by f bb half !! j =
    match bb !! j, half !! j with
    | Some b, Some p => Some (f b p)
    | _, _ => None
    end.
Proof.
  unfold shift_by. rewrite lookup_map, lookup_combine.
  destruct (bb !! j), (half !! j); reflexivity.
Qed.

Lemma lookup_patch_half (ps : list Z) (j : nat) :
  patch_half_of ps !! j = (fun p => p / 2) <$> (ps !! j).
Proof. apply lookup_map. Qed.

Lemma lookup_steps (ps : list Z) (ov : Z) (j : nat) :
  steps_of ps ov !! j = (fun p => Z.max (p - ov) 1) <$> (ps !! j).
Proof. apply lookup_map. Qed.

Lemma lookup_dim_ranges (lo hi steps : list Z) (j : nat) :
  dim_ranges lo hi steps !! j =
    match lo !! j, hi !! j, steps !! j with
    | Some l, Some h, Some s => Some (arange l h s ++ [h])
    | _, _, _ => None
    end.
Proof.
  unfold dim_ranges. rewrite lookup_map, !lookup_combine.
  destruct (lo !! j), (hi !! j), (steps !! j); reflexivity.
Qed.

Lemma lookup_slices_of_center (c half : list Z) (j : nat) :
  map (fun ip => mkslice (fst ip - snd ip) (fst ip + snd ip)) (combine c half) !! j =
    match c !! j, half !! j with
    | Some x, Some p => Some (mkslice (x - p) (x + p))
    | _, _ => None
    end.
Proof.
  rewrite lookup_map, lookup_combine.
  destruct (c !! j), (half !! j); reflexivity.
Qed.

Lemma in_centers_to_slice (voxels : list (list Z)) (half : list Z) (s : list slice) :
  In s (centers_to_slice voxels half) <->
  exists c, In c voxels /\
    s = map (fun ip => mkslice (fst ip - snd ip) (fst ip + snd ip)) (combine c half).
Proof.
  unfold centers_to_slice. rewrite in_map_iff.
  split; intros [c [H1 H2]]; exists c; auto.
Qed.

(** ** Bounding boxes *)

Lemma true_voxels_ndindex (a : ndarray bool) (c : list Z) :
  In c (true_voxels a) -> In c (ndindex (shape a)).
Proof.
  unfold true_voxels. rewrite in_map_iff. intros [[c' b] [<- H]].
  apply filter_In in H as [H _]. apply in_combine_l in H. assumption.
Qed.

Lemma fold_min_spec (xs : list Z) (x : Z) :
  let m := fold_left Z.min xs x in
  In m (x :: xs) /\ Forall (fun y => m <= y) (x :: xs).
Proof.
  revert x. induction xs as [|y xs IH]; intros x; simpl.
  - split; [auto|]. constructor; [lia|constructor].
  - destruct (IH (Z.min x y)) as [Hin Hall]. simpl in Hin.
    inversion Hall as [|? ? H1 H2]; subst. split.
    + destruct Hin as [Hin|Hin]; [|right; right; exact Hin].
      destruct (Z.min_spec x y) as [[_ E]|[_ E]];
        first [left; congruence | right; left; congruence].
    + constructor; [lia|]. constructor; [lia|assumption].
Qed.

Lemma fold_max_spec (xs : list Z) (x : Z) :
  let m := fold_left Z.max xs x in
  In m (x :: xs) /\ Forall (fun y => y <= m) (x :: xs).
Proof.
  revert x. induction xs as [|y xs IH]; intros x; simpl.
  - split; [auto|]. constructor; [lia|constructor].
  - destruct (IH (Z.max x y)) as [Hin Hall]. simpl in Hin.
    inversion Hall as [|? ? H1 H2]; subst. split.
    + destruct Hin as [Hin|Hin]; [|right; right; exact Hin].
      destruct (Z.max_spec x y) as [[_ E]|[_ E]];
        first [left; congruence | right; left; congruence].
    + constructor; [lia|]. constructor; [lia|assumption].
Qed.

Lemma list_min_spec (l : list Z) :
  l <> [] -> In (list_min l) l /\ Forall (fun y => list_min l <= y) l.
Proof. destruct l as [|x xs]; [congruence|]. intros _. apply fold_min_spec. Qed.

Lemma list_max_spec (l : list Z) :
  l <> [] -> In (list_max l) l /\ Forall (fun y => y <= list_max l) l.
Proof. destruct l as [|x xs]; [congruence|]. intros _. apply fold_max_spec. Qed.

(** The reduction of [np.where] along its last axis succeeds exactly on an
    array that has an axis and a true entry. *)
Lemma np_reduce_where (f : list Z -> Z) (a : ndarray bool) :
  np_reduce_last f (np_where a) =
    if decide (shape a = [] \/ true_voxels a = []) then Raise ValueError
    else Ok (map (fun j => f (map (fun v => nth j v 0) (true_voxels a)))
                 (seq 0 (length (shape a)))).
Proof.
  unfold np_reduce_last, np_where.
  destruct (shape a) as [|n sh] eqn:Hsh; simpl.
  - reflexivity.
  - destruct (true_voxels a) as [|v vs] eqn:Hv; simpl.
    + reflexivity.
    + rewrite map_map. reflexivity.
Qed.

Lemma np_reduce_where_empty (f : list Z -> Z) (a : ndarray bool) :
  true_voxels a = [] -> np_reduce_last f (np_where a) = Raise ValueError.
Proof.
  intros H. rewrite np_reduce_where. case_decide; tauto.
Qed.

Lemma np_reduce_where_raise (f : list Z -> Z) (a : ndarray bool) (e : exn) :
  np_reduce_last f (np_where a) = Raise e -> e = ValueError.
Proof.
  rewrite np_reduce_where. case_decide; congruence.
Qed.

(** The corners of the bounding box are coordinates of the array, and they
    enclose every true entry. *)
Lemma bounding_box_spec (a : ndarray bool) (mn mx : list Z) :
  np_min_last (np_where a) = Ok mn ->
  np_max_last (np_where a) = Ok mx ->
  length mn = length (shape a) /\ length mx = length (shape a) /\
  shape a <> [] /\ true_voxels a <> [] /\
  forall j lo hi n,
    mn !! j = Some lo -> mx !! j = Some hi -> shape a !! j = Some n ->
    0 <= lo /\ lo <= hi /\ hi < n /\
    forall v x, In v (true_voxels a) -> v !! j = Some x -> lo <= x <= hi.
Proof.
  unfold np_min_last, np_max_last. rewrite !np_reduce_where.
  case_decide as Hne; [discriminate|].
  intros Hmn Hmx. inversion Hmn as [Emn]. inversion Hmx as [Emx].
  clear Hmn Hmx.
  split; [now rewrite length_map, length_seq|].
  split; [now rewrite length_map, length_seq|].
  split; [tauto|]. split; [tauto|].
  intros j lo hi n Hlo Hhi Hn.
  rewrite lookup_map in Hlo, Hhi.
  assert (Hj : seq 0 (length (shape a)) !! j = Some j).
  { apply lookup_lt_Some in Hn. rewrite lookup_seq_lt; auto. }
  rewrite Hj in Hlo, Hhi. simpl in Hlo, Hhi.
  inversion Hlo as [Elo]. inversion Hhi as [Ehi]. clear Hlo Hhi.
  set (col := map (fun v => nth j v 0) (true_voxels a)) in *.
  assert (Hcol : col <> []).
  { unfold col. destruct (true_voxels a); simpl; [tauto|discriminate]. }
  destruct (list_min_spec col Hcol) as [Hmin_in Hmin_le].
  destruct (list_max_spec col Hcol) as [Hmax_in Hmax_le].
  assert (Hbound : forall x, In x col -> 0 <= x < n).
  { intros x Hx. unfold col in Hx. apply in_map_iff in Hx as [v [<- Hv]].
    apply true_voxels_ndindex, in_ndindex in Hv.
    destruct (Forall2_lookup_r _ _ _ _ _ Hv Hn) as [y [Hy Hyn]].
    rewrite nth_lookup, Hy. simpl. lia. }
  rewrite List.Forall_forall in Hmin_le, Hmax_le.
  pose proof (Hbound _ Hmin_in). pose proof (Hbound _ Hmax_in).
  pose proof (Hmin_le _ Hmax_in).
  split; [lia|]. split; [lia|]. split; [lia|].
  intros v x Hv Hvx.
  assert (Hx : In x col).
  { unfold col. apply in_map_iff. exists v. split; [|exact Hv].
    rewrite nth_lookup, Hvx. reflexivity. }
  split; [apply Hmin_le|apply Hmax_le]; exact Hx.
Qed.


(** ** The exhaustive indexer *)

Lemma Forall2_zip {A B C : Type} (P : A -> B -> Prop) (Q : A -> C -> Prop)
    (l : list A) (a : list B) (b : list C) :
  Forall2 P l a -> Forall2 Q l b ->
  Forall2 (fun x uv => P x (fst uv) /\ Q x (snd uv)) l (combine a b).
Proof.
  intros H. revert b. induction H; intros b Hb; inversion Hb; subst; simpl;
    constructor; auto.
Qed.

Lemma Forall2_map_right {A B C : Type} (P : A -> C -> Prop) (f : B -> C)
    (l : list A) (k : list B) :
  Forall2 (fun x y => P x (f y)) l k -> Forall2 P l (map f k).
Proof. induction 1; simpl; constructor; auto. Qed.

Lemma combine_map_both {A B C D : Type} (f : A -> C) (g : B -> D)
    (a : list A) (b : list B) :
  combine (map f a) (map g b) = map (fun uv => (f (fst uv), g (snd uv))) (combine a b).
Proof.
  revert b. induction a as [|x a IH]; intros [|y b]; simpl; auto.
  rewrite IH. reflexivity.
Qed.

Lemma bounding_box_total (mask : ndarray Z) :
  has_foreground mask ->
  exists mn mx, np_min_last (np_where (gt0 mask)) = Ok mn /\
                np_max_last (np_where (gt0 mask)) = Ok mx.
Proof.
  intros [H1 H2]. unfold np_min_last, np_max_last.
  rewrite !np_reduce_where. case_decide as H; [|eauto].
  destruct H as [H|H]; [|contradiction]. simpl in H. contradiction.
Qed.

Lemma bb_centers_ok (masks : list (ndarray Z)) (patch_size : list Z) (overlap : Z) :
  Forall has_foreground masks ->
  exists centers, bb_centers masks patch_size overlap = Ok centers.
Proof.
  intros H. unfold bb_centers.
  destruct (map_result_total (fun mask => np_min_last (np_where (gt0 mask))) masks)
    as [mn Hmn].
  { eapply Forall_impl; [exact H|]. intros m Hm.
    destruct (bounding_box_total m Hm) as [a [b [Ha Hb]]]. eauto. }
  destruct (map_result_total (fun mask => np_max_last (np_where (gt0 mask))) masks)
    as [mx Hmx].
  { eapply Forall_impl; [exact H|]. intros m Hm.
    destruct (bounding_box_total m Hm) as [a [b [Ha Hb]]]. eauto. }
  rewrite Hmn. simpl. rewrite Hmx. simpl. eauto.
Qed.

Lemma bb_centers_cases (masks : list (ndarray Z)) (patch_size : list Z)
    (overlap : Z) (centers : list (list (list Z))) :
  bb_centers masks patch_size overlap = Ok centers ->
  Forall2
    (fun mask cs =>
       exists mn mx,
         np_min_last (np_where (gt0 mask)) = Ok mn /\
         np_max_last (np_where (gt0 mask)) = Ok mx /\
         cs = product (dim_ranges (shift_by Z.add mn (patch_half_of patch_size))
                                  (shift_by Z.sub mx (patch_half_of patch_size))
                                  (steps_of patch_size overlap)))
    masks centers.
Proof.
  unfold bb_centers.
  destruct (map_result (fun mask => np_min_last _) masks) as [mn|e] eqn:Hmn;
    [simpl|intros H; discriminate H].
  destruct (map_result (fun mask => np_max_last _) masks) as [mx|e] eqn:Hmx;
    [simpl|intros H; discriminate H].
  intros H. inversion H; subst. clear H.
  apply map_result_Forall2 in Hmn, Hmx.
  rewrite combine_map_both, !map_map.
  apply Forall2_map_right. simpl.
  eapply Forall2_impl; [apply (Forall2_zip _ _ _ _ _ Hmn Hmx)|]. simpl.
  intros m [a b] [Ha Hb]. exists a, b. auto.
Qed.

Lemma steps_positive (patch_size : list Z) (overlap : Z) (j : nat) (s : Z) :
  steps_of patch_size overlap !! j = Some s -> 0 < s.
Proof.
  rewrite lookup_steps. destruct (patch_size !! j); simpl; [|discriminate].
  intros H. inversion H. lia.
Qed.

Lemma length_dim_ranges (lo hi steps : list Z) :
  length (dim_ranges lo hi steps) =
    Nat.min (Nat.min (length lo) (length hi)) (length steps).
Proof. unfold dim_ranges. now rewrite length_map, !length_combine. Qed.

Lemma length_shift_by (f : Z -> Z -> Z) (bb half : list Z) :
  length (shift_by f bb half) = Nat.min (length bb) (length half).
Proof. unfold shift_by. now rewrite length_map, length_combine. Qed.

(** Membership in the grid of centres of one mask. *)
Lemma in_grid_product (lo hi steps c : list Z) :
  (forall j s, steps !! j = Some s -> 0 < s) ->
  In c (product (dim_ranges lo hi steps)) <->
  length c = length (dim_ranges lo hi steps) /\
  forall j x l h s,
    c !! j = Some x -> lo !! j = Some l -> hi !! j = Some h ->
    steps !! j = Some s -> on_grid l h s x.
Proof.
  intros Hpos. rewrite in_product, Forall2_same_length_lookup.
  split; intros [Hlen H]; (split; [exact Hlen|]).
  - intros j x l h s Hx Hl Hh Hs.
    specialize (H j x (arange l h s ++ [h]) Hx).
    rewrite lookup_dim_ranges, Hl, Hh, Hs in H. specialize (H eq_refl).
    apply in_app_iff in H as [H|H].
    + right. apply in_arange in H; eauto.
    + left. simpl in H. intuition.
  - intros j x r Hx Hr. rewrite lookup_dim_ranges in Hr.
    destruct (lo !! j) as [l|] eqn:Hl; [|discriminate].
    destruct (hi !! j) as [h|] eqn:Hh; [|discriminate].
    destruct (steps !! j) as [s|] eqn:Hs; [|discriminate].
    inversion Hr; subst. apply in_app_iff.
    destruct (H j x l h s Hx Hl Hh Hs) as [->|Hk].
    + right. simpl. auto.
    + left. apply in_arange; eauto.
Qed.

Lemma lookup_map_Some {A B : Type} (f : A -> B) (l : list A) (i : nat) (y : B) :
  map f l !! i = Some y -> exists x, l !! i = Some x /\ y = f x.
Proof.
  rewrite lookup_map. destruct (l !! i) as [x|]; simpl; [|discriminate].
  intros H. inversion H. eauto.
Qed.

Lemma lookup_combine_Some {A B : Type} (l : list A) (k : list B) (i : nat) (p : A * B) :
  combine l k !! i = Some p -> l !! i = Some (fst p) /\ k !! i = Some (snd p).
Proof.
  rewrite lookup_combine. destruct (l !! i), (k !! i); try discriminate.
  intros H. inversion H. auto.
Qed.

(** The slices that [get_slices_bb] returns for the [i]-th mask are slices
    around centres enumerated for that mask, with or without filtering. *)
Lemma get_slices_bb_from_centers (masks : list (ndarray Z)) (patch_size : list Z)
    (overlap : Z) (filtered : bool) (min_size : Z)
    (r : list (list (list slice))) :
  get_slices_bb (MaskList masks) patch_size overlap filtered min_size = Ok (PerCase r) ->
  exists centers,
    bb_centers masks patch_size overlap = Ok centers /\
    forall i case, r !! i = Some case ->
      exists cs, centers !! i = Some cs /\
                 incl case (centers_to_slice cs (patch_half_of patch_size)).
Proof.
  unfold get_slices_bb.
  destruct (bb_centers masks patch_size overlap) as [centers|e] eqn:Hc;
    [simpl|intros H; discriminate H].
  intros H. exists centers. split; [reflexivity|].
  destruct filtered.
  - destruct (map_result _ _) as [ps|e] eqn:Hf; [|discriminate H].
    simpl in H. inversion H; subst. clear H.
    apply map_result_Forall2 in Hf.
    intros i case Hi.
    destruct (Forall2_lookup_r _ _ _ _ _ Hf Hi) as [[sl m] [Hsm Hfil]].
    apply lookup_combine_Some in Hsm as [Hsl _]. simpl in *.
    apply lookup_map_Some in Hsl as [cs [Hcs ->]].
    exists cs. split; [exact Hcs|].
    unfold filter_size in Hfil. eapply filter_result_incl. exact Hfil.
  - inversion H; subst. clear H. intros i case Hi.
    apply lookup_map_Some in Hi as [cs [Hcs ->]].
    exists cs. split; [exact Hcs|apply incl_refl].
Qed.

(** Every slice of the exhaustive indexer ends inside the array and spans
    twice the half patch; it starts inside the array as soon as some
    foreground voxel lies at least that far from the origin. *)
Lemma get_slices_bb_slices (masks : list (ndarray Z)) (patch_size : list Z)
    (overlap : Z) (filtered : bool) (min_size : Z)
    (r : list (list (list slice))) :
  get_slices_bb (MaskList masks) patch_size overlap filtered min_size = Ok (PerCase r) ->
  forall i case mask s,
    r !! i = Some case -> masks !! i = Some mask -> In s case ->
    length s = Nat.min (length (shape mask)) (length patch_size) /\
    forall j s_j n p,
      s !! j = Some s_j -> shape mask !! j = Some n -> patch_size !! j = Some p ->
      stop s_j <= n /\ stop s_j - start s_j = 2 * (p / 2) /\
      ((exists v x, In v (true_voxels (gt0 mask)) /\ v !! j = Some x /\
                    2 * (p / 2) <= x) ->
       0 <= start s_j).
Proof.
  intros Hget i case mask s Hcase Hmask Hs.
  destruct (get_slices_bb_from_centers _ _ _ _ _ _ Hget) as [centers [Hc Hr]].
  destruct (Hr i case Hcase) as [cs [Hcs Hincl]].
  pose proof (bb_centers_cases _ _ _ _ Hc) as Hall.
  destruct (Forall2_lookup_lr _ _ _ _ _ _ Hall Hmask Hcs)
    as [mn [mx [Hmn [Hmx ->]]]].
  destruct (bounding_box_spec _ _ _ Hmn Hmx) as [Lmn [Lmx [_ [_ Hbox]]]].
  apply Hincl, in_centers_to_slice in Hs as [c [Hin ->]].
  apply in_grid_product in Hin as [Hlen Hgrid]; [|apply steps_positive].
  rewrite length_dim_ranges, !length_shift_by, Lmn, Lmx in Hlen.
  unfold patch_half_of, steps_of, gt0 in Hlen.
  rewrite !length_map in Hlen. simpl in Hlen.
  split.
  { rewrite length_map, length_combine, Hlen. unfold patch_half_of.
    rewrite length_map. lia. }
  intros j s_j n p Hsj Hn Hp.
  rewrite lookup_slices_of_center, lookup_patch_half, Hp in Hsj.
  destruct (c !! j) as [x|] eqn:Hx; [|discriminate].
  simpl in Hsj. inversion Hsj; subst s_j. clear Hsj. simpl.
  assert (Hj : (j < length (shape mask))%nat) by (eapply lookup_lt_Some; eauto).
  destruct (lookup_lt_is_Some_2 mn j) as [lo Hlo]; [simpl in *; lia|].
  destruct (lookup_lt_is_Some_2 mx j) as [hi Hhi]; [simpl in *; lia|].
  destruct (Hbox j lo hi n Hlo Hhi Hn) as [H0 [Hle [Hlt Hvox]]].
  assert (Hg : on_grid (lo + p / 2) (hi - p / 2) (Z.max (p - overlap) 1) x).
  { apply (Hgrid j x _ _ _ Hx).
    - rewrite lookup_shift_by, Hlo, lookup_patch_half, Hp. reflexivity.
    - rewrite lookup_shift_by, Hhi, lookup_patch_half, Hp. reflexivity.
    - rewrite lookup_steps, Hp. reflexivity. }
  split; [|split].
  - destruct Hg as [->|[k [Hk [-> Hlt']]]]; lia.
  - lia.
  - intros [v [y [Hv [Hy Hfar]]]].
    destruct (Hvox v y Hv Hy) as [_ Hyhi].
    destruct Hg as [->|[k [Hk [-> Hlt']]]]; [lia|].
    assert (0 <= k * Z.max (p - overlap) 1) by nia. lia.
Qed.


(** ** The legal mask *)

Lemma map_result_map {A B C : Type} (f : B -> result C) (h : A -> B) (l : list A) :
  map_result f (map h l) = map_result (fun a => f (h a)) l.
Proof.
  induction l as [|a l IH]; simpl; [reflexivity|]. rewrite IH. reflexivity.
Qed.

Lemma map_result_pure {A B : Type} (f : A -> result B) (k : A -> B) (l : list A) :
  (forall a, In a l -> f a = Ok (k a)) -> map_result f l = Ok (map k l).
Proof.
  induction l as [|a l IH]; simpl; intros H; [reflexivity|].
  rewrite H by auto. rewrite IH by auto. reflexivity.
Qed.

Lemma combine_map_l {A B C : Type} (f : A -> C) (a : list A) (b : list B) :
  combine (map f a) b = map (fun xy => (f (fst xy), snd xy)) (combine a b).
Proof.
  revert b. induction a as [|x a IH]; intros [|y b]; simpl; auto.
  rewrite IH. reflexivity.
Qed.

Lemma zip_with_map_same {A : Type} (f g : A -> bool) (l : list A) :
  zip_with andb (map f l) (map g l) = map (fun c => f c && g c) l.
Proof. induction l as [|a l IH]; simpl; [reflexivity|]. now rewrite IH. Qed.

Lemma logical_and_same (sh : list Z) (idx : list (list Z)) (f g : list Z -> bool) :
  logical_and (mkarray sh (map f idx)) (mkarray sh (map g idx)) =
    Ok (mkarray sh (map (fun c => f c && g c) idx)).
Proof.
  unfold logical_and. simpl. case_decide as H; [|contradiction].
  rewrite zip_with_map_same. reflexivity.
Qed.

Lemma fold_logical_and {T : Type} (sh : list Z) (idx : list (list Z))
    (P : T -> list Z -> bool) (l : list T) (q : list Z -> bool) :
  fold_left (fun acc b => acc ← acc; logical_and acc b)
            (map (fun t => mkarray sh (map (P t) idx)) l)
            (Ok (mkarray sh (map q idx))) =
    Ok (mkarray sh (map (fun c => q c && forallb (fun t => P t c) l) idx)).
Proof.
  revert q. induction l as [|t l IH]; intros q; simpl.
  - do 2 f_equal. apply map_ext. intros c. now rewrite andb_true_r.
  - rewrite logical_and_same. rewrite IH. do 2 f_equal.
    apply map_ext. intros c. now rewrite andb_assoc.
Qed.

Lemma reduce_logical_and_preds {T : Type} (sh : list Z) (idx : list (list Z))
    (P : T -> list Z -> bool) (l : list T) :
  reduce_logical_and (map (fun t => mkarray sh (map (P t) idx)) l) =
    match l with
    | [] => Raise TypeError
    | _ :: _ => Ok (mkarray sh (map (fun c => forallb (fun t => P t c) l) idx))
    end.
Proof.
  destruct l as [|t l]; simpl; [reflexivity|]. apply fold_logical_and.
Qed.

Lemma legal_mask_spec (sh half mn mx : list Z) (mesh : list (ndarray Z)) :
  get_mesh sh = Ok mesh ->
  legal_mask mesh half sh mn mx =
    match zip5 (seq 0 (length sh)) mn mx half sh with
    | [] => Raise TypeError
    | _ :: _ => Ok (mkarray sh (map (is_legal half sh mn mx) (ndindex sh)))
    end.
Proof.
  unfold get_mesh. destruct sh as [|n0 sh0] eqn:Esh; [discriminate|].
  rewrite <- Esh. intros H. inversion H as [Hmesh]. clear H Hmesh.
  unfold legal_mask, zip5. rewrite !combine_map_l, map_result_map.
  simpl.
  set (zs := combine (combine (combine (combine (seq 0 (length sh)) mn) mx) half) sh).
  rewrite (map_result_pure _
             (fun t : nat * Z * Z * Z * Z =>
                mkarray sh
                  (map (fun c =>
                          let '(j, min_ij, max_ij, p_ij, max_j) := t in
                          (Z.max min_ij p_ij <=? nth j c 0)
                          && (nth j c 0 <=? Z.min max_ij (max_j - p_ij)))
                       (ndindex sh)))).
  - simpl. rewrite reduce_logical_and_preds. unfold is_legal, zip5. fold zs.
    destruct zs; reflexivity.
  - intros [[[[j a] b] p] n] _. simpl. unfold array_map. simpl.
    rewrite !map_map. apply logical_and_same.
Qed.

Lemma is_legal_bounds (half sh mn mx c : list Z) (j : nat) (x lo hi p n : Z) :
  is_legal half sh mn mx c = true ->
  c !! j = Some x -> mn !! j = Some lo -> mx !! j = Some hi ->
  half !! j = Some p -> sh !! j = Some n ->
  Z.max lo p <= x <= Z.min hi (n - p).
Proof.
  unfold is_legal. rewrite forallb_forall. intros H Hx Hlo Hhi Hp Hn.
  specialize (H (j, lo, hi, p, n)). simpl in H.
  rewrite nth_lookup, Hx in H. simpl in H.
  assert (Hin : In (j, lo, hi, p, n) (zip5 (seq 0 (length sh)) mn mx half sh)).
  { apply In_lookup. exists j. unfold zip5. rewrite !lookup_combine.
    rewrite lookup_seq_lt by (eapply lookup_lt_Some; eauto).
    simpl. rewrite Hlo, Hhi, Hp, Hn. reflexivity. }
  apply H in Hin. apply andb_true_iff in Hin as [H1 H2]. lia.
Qed.


(** ** Voxels of a masked array *)

Lemma true_voxels_and (idx : list (list Z)) (bs : list bool) (l : list Z -> bool) :
  map fst (List.filter (fun cv => snd cv)
             (combine idx (zip_with andb bs (map l idx)))) =
  map fst (List.filter (fun cb => snd cb && l (fst cb)) (combine idx bs)).
Proof.
  revert bs. induction idx as [|c idx IH]; intros [|b bs]; simpl; auto.
  destruct (b && l c); simpl; rewrite IH; reflexivity.
Qed.

Lemma logical_and_legal (a : ndarray bool) (sh : list Z) (l : list Z -> bool)
    (f : ndarray bool) :
  logical_and a (mkarray sh (map l (ndindex sh))) = Ok f ->
  shape a = sh /\ true_voxels f = legal_true_voxels a l.
Proof.
  unfold logical_and. simpl. case_decide as H; [|discriminate].
  intros E. inversion E; subst. clear E. split; [reflexivity|].
  unfold true_voxels, legal_true_voxels. simpl. apply true_voxels_and.
Qed.

Lemma in_legal_true_voxels (a : ndarray bool) (l : list Z -> bool) (c : list Z) :
  In c (legal_true_voxels a l) <-> In c (true_voxels a) /\ l c = true.
Proof.
  unfold legal_true_voxels, true_voxels. rewrite !in_map_iff. split.
  - intros [[c' b] [<- H]]. apply filter_In in H as [H1 H2]. simpl in *.
    apply andb_true_iff in H2 as [-> H2]. split; [|exact H2].
    exists (c', true). split; [reflexivity|]. apply filter_In. auto.
  - intros [[[c' b] [<- H]] Hl]. apply filter_In in H as [H1 H2]. simpl in *.
    subst b. exists (c', true). split; [reflexivity|].
    apply filter_In. simpl. rewrite Hl. auto.
Qed.

(** ** Coordinates are pairwise distinct *)

Lemma NoDup_product (ls : list (list Z)) :
  Forall (fun l => List.NoDup l) ls -> List.NoDup (product ls).
Proof.
  induction 1 as [|l ls Hl _ IH]; simpl.
  - constructor; [simpl; tauto|constructor].
  - induction Hl as [|x l Hx _ IHl]; simpl; [constructor|].
    apply List.NoDup_app.
    + apply Finite.Injective_map_NoDup; [|exact IH].
      intros a b E. inversion E. reflexivity.
    + exact IHl.
    + intros c Hc Hc'. apply in_map_iff in Hc as [c1 [<- _]].
      apply in_flat_map in Hc' as [y [Hy Hc']].
      apply in_map_iff in Hc' as [c2 [E _]]. inversion E; subst. contradiction.
Qed.

Lemma NoDup_range (n : Z) : List.NoDup (range n).
Proof.
  unfold range. apply Finite.Injective_map_NoDup; [|apply seq_NoDup].
  intros a b. apply Nat2Z.inj.
Qed.

Lemma NoDup_ndindex (sh : list Z) : List.NoDup (ndindex sh).
Proof.
  unfold ndindex. apply NoDup_product. apply List.Forall_forall.
  intros l Hl. apply in_map_iff in Hl as [n [<- _]]. apply NoDup_range.
Qed.

Lemma NoDup_fst_filter_combine {A B : Type} (p : A * B -> bool)
    (l : list A) (d : list B) :
  List.NoDup l -> List.NoDup (map fst (List.filter p (combine l d))).
Proof.
  intros H. revert d. induction H as [|x l Hx _ IH]; intros [|b d]; simpl;
    try constructor.
  destruct (p (x, b)); simpl; [|apply IH].
  constructor; [|apply IH]. intros Hin. apply Hx.
  apply in_map_iff in Hin as [[x' b'] [<- Hin]].
  apply filter_In in Hin as [Hin _]. apply in_combine_l in Hin. exact Hin.
Qed.

Lemma NoDup_legal_true_voxels (a : ndarray bool) (l : list Z -> bool) :
  List.NoDup (legal_true_voxels a l).
Proof. apply NoDup_fst_filter_combine, NoDup_ndindex. Qed.

(** ** Random subsets *)

Lemma NoDup_firstn {A : Type} (n : nat) (l : list A) :
  List.NoDup l -> List.NoDup (firstn n l).
Proof.
  intros H. rewrite <- (firstn_skipn n l) in H.
  eapply List.NoDup_app_remove_r. exact H.
Qed.

Lemma In_firstn {A : Type} (n : nat) (l : list A) (x : A) :
  In x (firstn n l) -> In x l.
Proof.
  intros H. rewrite <- (firstn_skipn n l). apply in_app_iff. auto.
Qed.

Lemma NoDup_map_nth {A : Type} (d : A) (pool : list A) (idxs : list nat) :
  List.NoDup pool -> List.NoDup idxs ->
  (forall i, In i idxs -> (i < length pool)%nat) ->
  List.NoDup (map (fun i => nth i pool d) idxs).
Proof.
  intros Hpool Hidx. induction Hidx as [|i idxs Hi _ IH]; simpl; intros Hlt;
    constructor.
  - intros Hin. apply in_map_iff in Hin as [k [E Hk]].
    pose proof (proj1 (List.NoDup_nth pool d) Hpool) as Hinj.
    assert (Hki : k = i).
    { apply Hinj; [apply Hlt; right; exact Hk|apply Hlt; left; reflexivity|exact E]. }
    subst k. contradiction.
  - apply IH. auto.
Qed.

Lemma py_take_nonneg {A : Type} (k : Z) (l : list A) :
  0 <= k -> py_take k l = firstn (Z.to_nat k) l.
Proof.
  intros H. unfold py_take. destruct (k <? 0) eqn:E; [lia|reflexivity].
Qed.

Lemma py_int_nonneg (q : Q) : (0 <= q)%Q -> 0 <= py_int q.
Proof.
  intros H. unfold py_int. apply Z.quot_pos; [|lia].
  unfold Qle in H. simpl in *. lia.
Qed.

Lemma py_int_float_mul_nonneg (q : Q) (n : nat) :
  (0 <= q)%Q -> 0 <= py_int (float_mul q (inject_Z (Z.of_nat n))).
Proof.
  intros H. apply py_int_nonneg, float_mul_nonneg; [exact H|].
  rewrite <- (Zle_Qle 0). lia.
Qed.

Section RandomSubset.

Variable rng : Type.
Variable np_permutation : rng -> nat -> list nat * rng.
Hypothesis np_permutation_spec :
  forall g n, Permutation (fst (np_permutation g n)) (seq 0 n).

(** The pool entries chosen by [random_subset] are pairwise distinct
    entries of the pool, and there are [min(k, len(pool))] of them. *)
Lemma random_subset_spec {A : Type} (d : A) (pool : list A) (k : Z)
    (g g' : rng) (chosen : list A) :
  List.NoDup pool -> 0 <= k ->
  random_subset rng np_permutation d pool k g = (chosen, g') ->
  List.NoDup chosen /\ incl chosen pool /\
  Z.of_nat (length chosen) = Z.min k (Z.of_nat (length pool)).
Proof.
  intros Hpool Hk. unfold random_subset.
  pose proof (np_permutation_spec g (length pool)) as Hperm.
  destruct (np_permutation g (length pool)) as [perm g1]. simpl in Hperm.
  intros E. inversion E; subst. clear E.
  rewrite py_take_nonneg by exact Hk.
  assert (Hlt : forall i, In i (firstn (Z.to_nat k) perm) -> (i < length pool)%nat).
  { intros i Hi. apply In_firstn in Hi.
    apply (Permutation_in _ Hperm), in_seq in Hi. lia. }
  split; [|split].
  - apply NoDup_map_nth; [exact Hpool| |exact Hlt].
    apply NoDup_firstn. eapply Permutation_NoDup.
    + apply Permutation_sym. exact Hperm.
    + apply seq_NoDup.
  - intros x Hx. apply in_map_iff in Hx as [i [<- Hi]].
    apply nth_In. auto.
  - rewrite length_map, length_firstn, (Permutation_length Hperm), length_seq.
    lia.
Qed.

Lemma map_rng_Forall2 {A B : Type} (f : A -> rng -> B * rng) (l : list A)
    (g g' : rng) (bs : list B) :
  map_rng rng f l g = (bs, g') ->
  Forall2 (fun a b => exists g1 g2, f a g1 = (b, g2)) l bs.
Proof.
  revert g bs. induction l as [|a l IH]; simpl; intros g bs H.
  - inversion H. constructor.
  - destruct (f a g) as [b g1] eqn:Ha.
    destruct (map_rng rng f l g1) as [bs' g2] eqn:Hl.
    inversion H; subst. constructor; eauto.
Qed.

End RandomSubset.


Section BalancedInversion.

Variable rng : Type.
Variable np_permutation : rng -> nat -> list nat * rng.

Lemma get_balanced_slices_inv (masks : list (ndarray Z)) (patch_size : list Z)
    (rois : option (list (ndarray Z))) (min_size : Z) (neg_ratio : Q)
    (g : rng) (out : list (list (list slice)) * rng) :
  get_balanced_slices rng np_permutation masks patch_size rois min_size neg_ratio g
    = Ok out ->
  exists m0 lesion bck,
    masks !! 0%nat = Some m0 /\
    length lesion = length bck /\
    length lesion = match rois with
                    | None => length masks
                    | Some rois => Nat.min (length masks) (length rois)
                    end /\
    (forall i lv, lesion !! i = Some lv ->
       exists mask src bv,
         masks !! i = Some mask /\ box_source masks rois i = Some src /\
         bck !! i = Some bv /\
         case_voxels patch_size rois (shape m0) mask src lv bv) /\
    balanced_tail rng np_permutation masks patch_size min_size neg_ratio lesion bck g = Ok out.
Proof.
  unfold get_balanced_slices.
  set (srcs := match rois with None => masks | Some rs => rs end).
  assert (Hsrc : forall i, box_source masks rois i = srcs !! i).
  { intros i. unfold box_source, srcs. destruct rois; reflexivity. }
  (* the bounding boxes and the background masks *)
  assert (Hfirst :
    forall (k : list (list Z) * list (list Z) * list (ndarray bool) ->
                result (list (list (list slice)) * rng)),
      (match rois with
       | None =>
           min_bb ← map_result (fun mask => np_min_last (np_where (gt0 mask))) masks;
           max_bb ← map_result (fun mask => np_max_last (np_where (gt0 mask))) masks;
           Ok (min_bb, max_bb, map logical_not masks)
       | Some rois =>
           min_bb ← map_result (fun mask => np_min_last (np_where (gt0 mask))) rois;
           max_bb ← map_result (fun mask => np_max_last (np_where (gt0 mask))) rois;
           bck_masks ←
             map_result (fun mr => logical_and (fst mr) (astype_bool (snd mr)))
                        (combine (map logical_not masks) rois);
           Ok (min_bb, max_bb, bck_masks)
       end ≫= k) = Ok out ->
      exists min_bb max_bb bck_masks,
        map_result (fun mask => np_min_last (np_where (gt0 mask))) srcs = Ok min_bb /\
        map_result (fun mask => np_max_last (np_where (gt0 mask))) srcs = Ok max_bb /\
        (forall i mask src, masks !! i = Some mask -> srcs !! i = Some src ->
           exists bm, bck_masks !! i = Some bm /\ bck_mask_of rois mask src = Ok bm) /\
        Nat.min (length bck_masks) (length srcs)
          = Nat.min (length masks) (length srcs) /\
        k (min_bb, max_bb, bck_masks) = Ok out).
  { intros k. unfold srcs. destruct rois as [rs|].
    - destruct (map_result (fun mask => np_min_last _) rs) as [mn|e];
        [simpl|intros H; discriminate H].
      destruct (map_result (fun mask => np_max_last _) rs) as [mx|e];
        [simpl|intros H; discriminate H].
      destruct (map_result _ (combine _ rs)) as [bm|e] eqn:Hbm;
        [simpl|intros H; discriminate H].
      intros H. exists mn, mx, bm. apply map_result_Forall2 in Hbm.
      repeat split; auto.
      + intros i mask src Hm Hs.
        destruct (Forall2_lookup_l _ _ _ i (logical_not mask, src) Hbm)
          as [b [Hb Hand]].
        { rewrite lookup_combine, lookup_map, Hm, Hs. reflexivity. }
        exists b. split; [exact Hb|exact Hand].
      + rewrite <- (Forall2_length _ _ _ Hbm), length_combine, length_map. lia.
    - destruct (map_result (fun mask => np_min_last _) masks) as [mn|e];
        [simpl|intros H; discriminate H].
      destruct (map_result (fun mask => np_max_last _) masks) as [mx|e];
        [simpl|intros H; discriminate H].
      intros H. exists mn, mx, (map logical_not masks). repeat split; auto.
      + intros i mask src Hm Hs. exists (logical_not mask).
        rewrite lookup_map, Hm. split; reflexivity.
      + rewrite length_map. reflexivity. }
  intros H.
  apply Hfirst in H as [min_bb [max_bb [bck_masks [Hmn [Hmx [Hbck [Hblen H]]]]]]].
  clear Hfirst. cbv beta iota in H.
  destruct masks as [|m0 rest] eqn:Emasks; [discriminate H|].
  rewrite <- Emasks in *. simpl in H.
  destruct (get_mesh (shape m0)) as [mesh|e] eqn:Hmesh; [simpl in H|discriminate H].
  destruct (map_result _ (combine min_bb max_bb)) as [legal|e] eqn:Hlegal;
    [simpl in H|discriminate H].
  destruct (map_result _ (combine masks legal)) as [fm|e] eqn:Hfm;
    [simpl in H|discriminate H].
  destruct (map_result _ (combine bck_masks legal)) as [fb|e] eqn:Hfb;
    [simpl in H|discriminate H].
  apply map_result_Forall2 in Hmn, Hmx, Hlegal, Hfm, Hfb.
  exists m0, (map get_mask_voxels fm), (map get_mask_voxels fb).
  split; [rewrite Emasks; reflexivity|].
  assert (Hlegal_len : length legal = length srcs).
  { rewrite <- (Forall2_length _ _ _ Hlegal), length_combine.
    rewrite <- (Forall2_length _ _ _ Hmn), <- (Forall2_length _ _ _ Hmx). lia. }
  assert (Hcase : forall i f, fm !! i = Some f ->
            exists mask src bm b l mn mx,
              masks !! i = Some mask /\ srcs !! i = Some src /\
              bck_masks !! i = Some bm /\ fb !! i = Some b /\
              legal !! i = Some l /\
              np_min_last (np_where (gt0 src)) = Ok mn /\
              np_max_last (np_where (gt0 src)) = Ok mx /\
              bck_mask_of rois mask src = Ok bm /\
              l = mkarray (shape m0)
                    (map (is_legal (patch_half_of patch_size) (shape m0) mn mx)
                         (ndindex (shape m0))) /\
              logical_and (astype_bool mask) l = Ok f /\
              logical_and bm l = Ok b).
  { intros i f Hf.
    destruct (Forall2_lookup_r _ _ _ _ _ Hfm Hf) as [[mask l] [Hml Hand]].
    apply lookup_combine_Some in Hml as [Hmask Hl]. simpl in *.
    destruct (Forall2_lookup_r _ _ _ _ _ Hlegal Hl) as [[mn mx] [Hmm Hleg]].
    apply lookup_combine_Some in Hmm as [Hmn_i Hmx_i]. simpl in *.
    destruct (Forall2_lookup_r _ _ _ _ _ Hmn Hmn_i) as [src [Hsrc_i Hmin]].
    destruct (Forall2_lookup_r _ _ _ _ _ Hmx Hmx_i) as [src' [Hsrc_i' Hmax]].
    assert (src' = src) by congruence. subst src'.
    destruct (Hbck i mask src Hmask Hsrc_i) as [bm [Hbm Hbmok]].
    destruct (Forall2_lookup_l _ _ _ i (bm, l) Hfb) as [b [Hb Hband]].
    { rewrite lookup_combine, Hbm, Hl. reflexivity. }
    rewrite (legal_mask_spec _ _ _ _ _ Hmesh) in Hleg.
    destruct (zip5 _ _ _ _ _); [discriminate|]. inversion Hleg as [El].
    exists mask, src, bm, b, l, mn, mx. rewrite El. repeat split; auto. }
  split; [|split; [|split]].
  - rewrite !length_map.
    rewrite <- (Forall2_length _ _ _ Hfm), <- (Forall2_length _ _ _ Hfb).
    rewrite !length_combine.
    rewrite Hlegal_len. lia.
  - rewrite length_map, <- (Forall2_length _ _ _ Hfm), length_combine, Hlegal_len.
    subst srcs. rewrite <- ?Emasks. destruct rois; lia.
  - intros i lv Hlv. apply lookup_map_Some in Hlv as [f [Hf ->]].
    destruct (Hcase i f Hf)
      as (mask & src & bm & b & l & mn & mx & Hmask & Hs & Hbm & Hb & Hl
          & Hmin & Hmax & Hbmok & -> & Hand & Hband).
    exists mask, src, (get_mask_voxels b).
    split; [exact Hmask|]. split; [rewrite Hsrc; exact Hs|].
    split; [rewrite lookup_map, Hb; reflexivity|].
    apply logical_and_legal in Hand as [Hshape Hlv].
    apply logical_and_legal in Hband as [_ Hbv].
    exists mn, mx, bm. repeat split; auto.
  - exact H.
Qed.

Lemma in_random_subset {A : Type} (d : A) (pool : list A) (k : Z)
    (g g' : rng) (chosen : list A) (x : A) :
  random_subset rng np_permutation d pool k g = (chosen, g') ->
  In x chosen -> In x pool \/ x = d.
Proof.
  unfold random_subset. destruct (np_permutation g (length pool)) as [perm g1].
  intros E Hx. inversion E; subst. apply in_map_iff in Hx as [i [<- _]].
  destruct (nth_in_or_default i pool d); auto.
Qed.

(** Every slice of a case is built around a candidate centre of that
    case. *)
Lemma balanced_tail_slices (masks : list (ndarray Z)) (patch_size : list Z)
    (min_size : Z) (neg_ratio : Q) (lesion bck : list (list (list Z)))
    (g g' : rng) (r : list (list (list slice))) :
  balanced_tail rng np_permutation masks patch_size min_size neg_ratio lesion bck g = Ok (r, g') ->
  forall i case, r !! i = Some case ->
    exists lv bv, lesion !! i = Some lv /\ bck !! i = Some bv /\
      forall s, In s case ->
        s = [] \/ In s (centers_to_slice (lv ++ bv) (patch_half_of patch_size)).
Proof.
  unfold balanced_tail. destruct (0 <? min_size).
  - destruct (map_result _ _) as [fbck|e] eqn:Hf; [simpl|intros H; discriminate H].
    destruct (map_rng _ _ _ _) as [r0 g0] eqn:Hr. intros H. inversion H; subst.
    clear H. intros i case Hi.
    apply map_rng_Forall2 in Hr. apply map_result_Forall2 in Hf.
    destruct (Forall2_lookup_r _ _ _ _ _ Hr Hi) as [[pos neg] [Hpn [g1 [g2 Hsub]]]].
    apply lookup_combine_Some in Hpn as [Hpos Hneg]. simpl in *.
    apply lookup_map_Some in Hpos as [lv [Hlv ->]].
    destruct (Forall2_lookup_r _ _ _ _ _ Hf Hneg) as [[sl m] [Hsm Hfil]].
    apply lookup_combine_Some in Hsm as [Hsl _]. simpl in *.
    apply lookup_map_Some in Hsl as [bv [Hbv ->]].
    exists lv, bv. split; [exact Hlv|]. split; [exact Hbv|].
    destruct (random_subset _ _ _ _ _ _) as [chosen g3] eqn:Hch.
    inversion Hsub; subst. clear Hsub. intros s Hs.
    unfold centers_to_slice. rewrite map_app, in_app_iff.
    apply in_app_iff in Hs as [Hs|Hs]; [right; left; exact Hs|].
    destruct (in_random_subset _ _ _ _ _ _ _ Hch Hs) as [Hin | ->]; [|left; reflexivity].
    right. right. eapply filter_result_incl; eauto.
  - destruct (map_rng _ _ _ _) as [fbck g0] eqn:Hr. intros H. inversion H; subst.
    clear H. intros i case Hi. apply map_rng_Forall2 in Hr.
    apply lookup_map_Some in Hi as [[pos neg] [Hpn ->]].
    apply lookup_combine_Some in Hpn as [Hpos Hneg]. simpl in *.
    apply lookup_map_Some in Hpos as [lv [Hlv ->]].
    destruct (Forall2_lookup_r _ _ _ _ _ Hr Hneg) as [[lv' bv] [Hlb [g1 [g2 Hsub]]]].
    apply lookup_combine_Some in Hlb as [Hlv' Hbv]. simpl in *.
    exists lv, bv. split; [exact Hlv|]. split; [exact Hbv|].
    destruct (random_subset _ _ _ _ _ _) as [chosen g3] eqn:Hch.
    inversion Hsub; subst. clear Hsub. intros s Hs.
    unfold centers_to_slice. rewrite map_app, in_app_iff.
    apply in_app_iff in Hs as [Hs|Hs]; [right; left; exact Hs|].
    apply in_map_iff in Hs as [c [<- Hc]].
    destruct (in_random_subset _ _ _ _ _ _ _ Hch Hc) as [Hin | ->];
      [|left; reflexivity].
    right. right. apply in_map_iff. exists c. split; [reflexivity|exact Hin].
Qed.

End BalancedInversion.


Lemma case_voxels_shape (patch_size : list Z) (rois : option (list (ndarray Z)))
    (masks : list (ndarray Z)) (i : nat) (sh : list Z) (mask src : ndarray Z)
    (lv bv : list (list Z)) :
  masks !! i = Some mask -> box_source masks rois i = Some src ->
  case_voxels patch_size rois sh mask src lv bv ->
  shape src = sh.
Proof.
  intros Hm Hs (mn & mx & bm & _ & _ & Hbm & Hsh & _).
  unfold box_source, bck_mask_of in *. destruct rois as [rs|].
  - unfold logical_and in Hbm. case_decide as E; [|discriminate].
    simpl in E. congruence.
  - congruence.
Qed.

Lemma balanced_slice_fits (patch_size : list Z) (rois : option (list (ndarray Z)))
    (masks : list (ndarray Z)) (i : nat) (mask src : ndarray Z)
    (lv bv : list (list Z)) (s : list slice) (j : nat) (s_j : slice) (n p : Z) :
  masks !! i = Some mask -> box_source masks rois i = Some src ->
  case_voxels patch_size rois (shape mask) mask src lv bv ->
  In s (centers_to_slice (lv ++ bv) (patch_half_of patch_size)) ->
  s !! j = Some s_j -> shape mask !! j = Some n -> patch_size !! j = Some p ->
  fits_patch n (2 * (p / 2)) s_j.
Proof.
  intros Hm Hs Hcv Hin Hsj Hn Hp.
  pose proof (case_voxels_shape _ _ _ _ _ _ _ _ _ Hm Hs Hcv) as Hshape.
  destruct Hcv as (mn & mx & bm & Hmin & Hmax & Hbm & _ & Hlv & Hbv).
  apply in_centers_to_slice in Hin as [c [Hc ->]].
  rewrite lookup_slices_of_center, lookup_patch_half, Hp in Hsj.
  destruct (c !! j) as [x|] eqn:Hx; [|discriminate].
  simpl in Hsj. inversion Hsj; subst s_j. clear Hsj.
  assert (Hlegal : is_legal (patch_half_of patch_size) (shape mask) mn mx c = true).
  { apply in_app_iff in Hc as [Hc|Hc]; [rewrite Hlv in Hc|rewrite Hbv in Hc];
      apply in_legal_true_voxels in Hc; tauto. }
  destruct (bounding_box_spec _ _ _ Hmin Hmax) as [Lmn [Lmx _]].
  simpl in Lmn, Lmx. rewrite Hshape in Lmn, Lmx.
  assert (Hj : (j < length (shape mask))%nat) by (eapply lookup_lt_Some; eauto).
  destruct (lookup_lt_is_Some_2 mn j) as [lo Hlo]; [lia|].
  destruct (lookup_lt_is_Some_2 mx j) as [hi Hhi]; [lia|].
  pose proof (is_legal_bounds _ _ _ _ _ j x lo hi (p / 2) n Hlegal Hx Hlo Hhi) as Hb.
  rewrite lookup_patch_half, Hp in Hb. specialize (Hb eq_refl Hn).
  unfold fits_patch. simpl. lia.
Qed.

(** C1 (amended): every slice emitted by [get_balanced_slices] lies within
    the array and has length [2 * (patch_size // 2)] in every dimension;
    every slice emitted by the list branch of [get_slices_bb] ends within
    the array and has that same length, and it starts within the array when
    a foreground voxel lies at least that far from the origin in that
    dimension. *)
Theorem patch_slices_extent (rng : Type)
    (np_permutation : rng -> nat -> list nat * rng)
    (masks : list (ndarray Z)) (patch_size : list Z)
    (i : nat) (mask : ndarray Z) (j : nat) (n p : Z)
    (Hmask : masks !! i = Some mask)
    (Hn : shape mask !! j = Some n)
    (Hp : patch_size !! j = Some p) :
  (forall rois min_size neg_ratio g r g' case s s_j,
     get_balanced_slices rng np_permutation masks patch_size rois min_size
                         neg_ratio g = Ok (r, g') ->
     r !! i = Some case -> In s case -> s !! j = Some s_j ->
     fits_patch n (2 * (p / 2)) s_j) /\
  (forall overlap filtered min_size r case s s_j,
     get_slices_bb (MaskList masks) patch_size overlap filtered min_size
       = Ok (PerCase r) ->
     r !! i = Some case -> In s case -> s !! j = Some s_j ->
     stop s_j <= n /\ stop s_j - start s_j = 2 * (p / 2) /\
     ((exists v x, In v (true_voxels (gt0 mask)) /\ v !! j = Some x /\
                   2 * (p / 2) <= x) ->
      fits_patch n (2 * (p / 2)) s_j)).
Proof.
  split.
  - intros rois min_size neg_ratio g r g' case s s_j Hget Hcase Hs Hsj.
    apply get_balanced_slices_inv in Hget
      as (m0 & lesion & bck & Hm0 & _ & _ & Hvox & Htail).
    destruct (balanced_tail_slices _ _ _ _ _ _ _ _ _ _ _ Htail i case Hcase)
      as (lv & bv & Hlv & Hbv & Hall).
    destruct (Hvox i lv Hlv) as (mask' & src & bv' & Hmask' & Hsrc & Hbv' & Hcv).
    assert (mask' = mask) by congruence. subst mask'.
    assert (bv' = bv) by congruence. subst bv'.
    assert (Hsh : shape mask = shape m0) by (destruct Hcv as (? & ? & ? & ? & ? & ? & ? & ?); assumption).
    rewrite <- Hsh in Hcv.
    destruct (Hall s Hs) as [->|Hin]; [discriminate Hsj|].
    eapply balanced_slice_fits; eauto.
  - intros overlap filtered min_size r case s s_j Hget Hcase Hs Hsj.
    destruct (get_slices_bb_slices _ _ _ _ _ _ Hget i case mask s Hcase Hmask Hs)
      as [_ H].
    destruct (H j s_j n p Hsj Hn Hp) as (H1 & H2 & H3).
    split; [exact H1|]. split; [exact H2|].
    intros Hfar. unfold fits_patch. auto.
Qed.

(** The claim as stated fails in both indexers: an odd patch size gives
    slices one entry short, and the exhaustive indexer leaves the array
    when the foreground is close to the origin. *)
Lemma patch_slices_extent_counterexample :
  (exists r,
     get_balanced_slices unit id_permutation [mask_of [5] [[2]]] [3] None 0 1%Q tt
       = Ok (r, tt) /\
     r !! 0%nat = Some [[mkslice 1 3]] /\ ~ fits_patch 5 3 (mkslice 1 3)) /\
  (exists r,
     get_slices_bb (MaskList [mask_of [10; 10] [[0; 0]]]) [4; 4] 0 false 0
       = Ok (PerCase r) /\
     r !! 0%nat = Some [[mkslice (-4) 0; mkslice (-4) 0]] /\
     ~ fits_patch 10 4 (mkslice (-4) 0)).
Proof.
  split; eexists; (split; [vm_compute; reflexivity|]);
    (split; [reflexivity|]); unfold fits_patch; simpl; lia.
Qed.

Lemma patch_slices_extent_witness :
  [mask_of [5] [[2]]] !! 0%nat = Some (mask_of [5] [[2]]) /\
  shape (mask_of [5] [[2]]) !! 0%nat = Some 5 /\
  [3] !! 0%nat = Some 3 /\
  fits_patch 5 (2 * (3 / 2)) (mkslice 1 3).
Proof.
  split; [reflexivity|]. split; [reflexivity|]. split; [reflexivity|].
  refine (proj1 (patch_slices_extent unit id_permutation [mask_of [5] [[2]]] [3]
                   0%nat (mask_of [5] [[2]]) 0%nat 5 3 eq_refl eq_refl eq_refl)
                None 0 1%Q tt [[[mkslice 1 3]]] tt [[mkslice 1 3]] [mkslice 1 3]
                (mkslice 1 3) _ eq_refl _ eq_refl).
  - vm_compute. reflexivity.
  - simpl. auto.
Defined.


Section BalancedCounts.

Variable rng : Type.
Variable np_permutation : rng -> nat -> list nat * rng.
Hypothesis np_permutation_spec :
  forall g n, Permutation (fst (np_permutation g n)) (seq 0 n).

Lemma balanced_tail_unfiltered (masks : list (ndarray Z)) (patch_size : list Z)
    (min_size : Z) (neg_ratio : Q) (lesion bck : list (list (list Z)))
    (g g' : rng) (r : list (list (list slice))) :
  min_size <= 0 ->
  length lesion = length bck ->
  balanced_tail rng np_permutation masks patch_size min_size neg_ratio lesion bck g
    = Ok (r, g') ->
  length r = length lesion /\
  forall i case, r !! i = Some case ->
    exists lv bv chosen g1 g2,
      lesion !! i = Some lv /\ bck !! i = Some bv /\
      random_subset rng np_permutation [] bv
        (py_int (float_mul neg_ratio (inject_Z (Z.of_nat (length lv))))) g1
        = (chosen, g2) /\
      case = centers_to_slice lv (patch_half_of patch_size)
             ++ centers_to_slice chosen (patch_half_of patch_size).
Proof.
  intros Hms Hlen. unfold balanced_tail.
  destruct (0 <? min_size) eqn:E; [lia|]. clear E.
  destruct (map_rng _ _ _ _) as [fbck g0] eqn:Hr. intros H. inversion H; subst.
  clear H. apply map_rng_Forall2 in Hr. split.
  - rewrite length_map, length_combine, length_map.
    rewrite <- (Forall2_length _ _ _ Hr), length_combine. lia.
  - intros i case Hi.
    apply lookup_map_Some in Hi as [[pos neg] [Hpn ->]].
    apply lookup_combine_Some in Hpn as [Hpos Hneg]. simpl in *.
    apply lookup_map_Some in Hpos as [lv [Hlv ->]].
    destruct (Forall2_lookup_r _ _ _ _ _ Hr Hneg) as [[lv' bv] [Hlb [g1 [g2 Hsub]]]].
    apply lookup_combine_Some in Hlb as [Hlv' Hbv]. simpl in *.
    assert (lv' = lv) by congruence. subst lv'.
    destruct (random_subset _ _ _ _ _ _) as [chosen g3] eqn:Hch.
    inversion Hsub; subst. clear Hsub.
    exists lv, bv, chosen, g1. eexists. repeat split; eauto.
Qed.

(** C4 (amended): with [min_size = 0] and a non-negative [neg_ratio], the
    balanced sampler returns for every case one slice per legal foreground
    voxel followed by the slices of pairwise distinct legal background
    voxels, taken from the front of a random permutation; their number is
    [int(neg_ratio * foreground_count)], the product of floats rounded to a
    double and then truncated, or the number of legal background voxels
    when that is smaller. *)
Theorem get_balanced_slices_counts (masks : list (ndarray Z))
    (patch_size : list Z) (rois : option (list (ndarray Z))) (min_size : Z)
    (neg_ratio : Q) (g g' : rng) (r : list (list (list slice))) :
  min_size <= 0 -> (0 <= neg_ratio)%Q ->
  get_balanced_slices rng np_permutation masks patch_size rois min_size
                      neg_ratio g = Ok (r, g') ->
  exists m0,
    masks !! 0%nat = Some m0 /\
    length r = match rois with
               | None => length masks
               | Some rois => Nat.min (length masks) (length rois)
               end /\
    forall i case, r !! i = Some case ->
      exists mask src lv bv chosen,
        masks !! i = Some mask /\ box_source masks rois i = Some src /\
        case_voxels patch_size rois (shape m0) mask src lv bv /\
        case = centers_to_slice lv (patch_half_of patch_size)
               ++ centers_to_slice chosen (patch_half_of patch_size) /\
        length (centers_to_slice lv (patch_half_of patch_size)) = length lv /\
        List.NoDup chosen /\ incl chosen bv /\
        Z.of_nat (length (centers_to_slice chosen (patch_half_of patch_size)))
          = Z.min (py_int (float_mul neg_ratio (inject_Z (Z.of_nat (length lv)))))
                  (Z.of_nat (length bv)).
Proof.
  intros Hms Hnr Hget.
  apply get_balanced_slices_inv in Hget
    as (m0 & lesion & bck & Hm0 & Hlen & Hlen' & Hvox & Htail).
  destruct (balanced_tail_unfiltered _ _ _ _ _ _ _ _ _ Hms Hlen Htail)
    as [Hr Hcases].
  exists m0. split; [exact Hm0|]. split; [congruence|].
  intros i case Hi.
  destruct (Hcases i case Hi) as (lv & bv & chosen & g1 & g2 & Hlv & Hbv & Hch & ->).
  destruct (Hvox i lv Hlv) as (mask & src & bv' & Hmask & Hsrc & Hbv' & Hcv).
  assert (bv' = bv) by congruence. subst bv'.
  assert (Hnd : List.NoDup bv).
  { destruct Hcv as (mn & mx & bm & _ & _ & _ & _ & _ & ->).
    apply NoDup_legal_true_voxels. }
  destruct (random_subset_spec rng np_permutation np_permutation_spec
              [] bv _ g1 g2 chosen Hnd (py_int_float_mul_nonneg _ _ Hnr) Hch)
    as (Hnc & Hinc & Hcount).
  exists mask, src, lv, bv, chosen. repeat split; auto.
  - unfold centers_to_slice. apply length_map.
  - unfold centers_to_slice. rewrite length_map. exact Hcount.
Qed.

End BalancedCounts.

Lemma id_permutation_spec (g : unit) (n : nat) :
  Permutation (fst (id_permutation g n)) (seq 0 n).
Proof. apply Permutation_refl. Qed.

(** With [neg_ratio = 0.25] and three legal foreground voxels the code
    draws [int(0.75) = 0] background centres although thirteen legal
    background voxels are available; the nearest integer is 1. *)
Lemma get_balanced_slices_counts_counterexample :
  get_balanced_slices unit id_permutation
    [mask_of [8; 8] [[2; 2]; [3; 3]; [5; 5]]] [3; 3] None 0 (1 # 4) tt
    = Ok ([centers_to_slice [[2; 2]; [3; 3]; [5; 5]] [1; 1] ++ []], tt) /\
  nearest_int ((1 # 4) * inject_Z 3) = 1 /\
  py_int (float_mul (1 # 4) (inject_Z 3)) = 0.
Proof. split; [vm_compute; reflexivity|]. split; reflexivity. Qed.

(** An instance with [neg_ratio = 0.7] and three legal foreground voxels:
    [0.7 * 3] is the double below 2.1 and two background centres are
    drawn. *)
Lemma get_balanced_slices_counts_witness :
  0 <= 0 /\ (0 <= 7 # 10)%Q /\
  get_balanced_slices unit id_permutation
    [mask_of [8; 8] [[2; 2]; [3; 3]; [5; 5]]] [3; 3] None 0 (7 # 10) tt
    = Ok ([centers_to_slice [[2; 2]; [3; 3]; [5; 5]] [1; 1]
           ++ centers_to_slice [[2; 3]; [2; 4]] [1; 1]], tt) /\
  exists m0,
    [mask_of [8; 8] [[2; 2]; [3; 3]; [5; 5]]] !! 0%nat = Some m0 /\
    forall i case,
      [centers_to_slice [[2; 2]; [3; 3]; [5; 5]] [1; 1]
       ++ centers_to_slice [[2; 3]; [2; 4]] [1; 1]] !! i = Some case ->
      exists mask src lv bv chosen,
        [mask_of [8; 8] [[2; 2]; [3; 3]; [5; 5]]] !! i = Some mask /\
        box_source [mask_of [8; 8] [[2; 2]; [3; 3]; [5; 5]]] None i = Some src /\
        case_voxels [3; 3] None (shape m0) mask src lv bv /\
        case = centers_to_slice lv (patch_half_of [3; 3])
               ++ centers_to_slice chosen (patch_half_of [3; 3]) /\
        length (centers_to_slice lv (patch_half_of [3; 3])) = length lv /\
        List.NoDup chosen /\ incl chosen bv /\
        Z.of_nat (length (centers_to_slice chosen (patch_half_of [3; 3])))
          = Z.min (py_int (float_mul (7 # 10) (inject_Z (Z.of_nat (length lv)))))
                  (Z.of_nat (length bv)).
Proof.
  assert (Hms : 0 <= 0) by lia.
  assert (Hnr : (0 <= 7 # 10)%Q) by discriminate.
  assert (Hget :
    get_balanced_slices unit id_permutation
      [mask_of [8; 8] [[2; 2]; [3; 3]; [5; 5]]] [3; 3] None 0 (7 # 10) tt
      = Ok ([centers_to_slice [[2; 2]; [3; 3]; [5; 5]] [1; 1]
             ++ centers_to_slice [[2; 3]; [2; 4]] [1; 1]], tt))
    by (vm_compute; reflexivity).
  split; [exact Hms|]. split; [exact Hnr|]. split; [exact Hget|].
  destruct (get_balanced_slices_counts unit id_permutation id_permutation_spec
              _ _ _ _ _ _ _ _ Hms Hnr Hget) as (m0 & Hm0 & _ & Hcases).
  exists m0. split; [exact Hm0|exact Hcases].
Defined.


(** ** Masks without foreground *)

Lemma bounding_boxes_raise (f : list Z -> Z) (masks : list (ndarray Z))
    (mask : ndarray Z) :
  In mask masks -> true_voxels (gt0 mask) = [] ->
  map_result (fun mask => np_reduce_last f (np_where (gt0 mask))) masks
    = Raise ValueError.
Proof.
  intros Hin Hempty. apply map_result_raise.
  - intros a e _ H. eapply np_reduce_where_raise. exact H.
  - exists mask. split; [exact Hin|]. apply np_reduce_where_empty. exact Hempty.
Qed.

(** C8 (amended): a mask without foreground voxel makes [get_slices_bb]
    raise, in both of its branches, and makes [get_balanced_slices] raise
    when no rois are given; with rois, [get_balanced_slices] raises when one
    of the rois has no foreground voxel.  The exception is the [ValueError]
    of numpy's reduction over an empty index array. *)
Theorem empty_mask_raises (masks : list (ndarray Z)) (mask : ndarray Z)
    (patch_size : list Z) (min_size : Z)
    (Hin : In mask masks) (Hempty : true_voxels (gt0 mask) = []) :
  (forall overlap filtered,
     get_slices_bb (MaskList masks) patch_size overlap filtered min_size
       = Raise ValueError) /\
  (forall overlap filtered,
     get_slices_bb (MaskArray mask) patch_size overlap filtered min_size
       = Raise ValueError) /\
  (forall rng np_permutation neg_ratio g,
     get_balanced_slices rng np_permutation masks patch_size None min_size
                         neg_ratio g = Raise ValueError) /\
  (forall rng np_permutation labels neg_ratio g,
     get_balanced_slices rng np_permutation labels patch_size (Some masks)
                         min_size neg_ratio g = Raise ValueError).
Proof.
  pose proof (bounding_boxes_raise list_min masks mask Hin Hempty) as Hmin.
  repeat split.
  - intros overlap filtered. unfold get_slices_bb, bb_centers.
    unfold np_min_last. rewrite Hmin. reflexivity.
  - intros overlap filtered. unfold get_slices_bb, bb_centers_single.
    unfold np_min_last. rewrite np_reduce_where_empty by exact Hempty.
    reflexivity.
  - intros rng np_permutation neg_ratio g. unfold get_balanced_slices.
    unfold np_min_last. rewrite Hmin. reflexivity.
  - intros rng np_permutation labels neg_ratio g. unfold get_balanced_slices.
    unfold np_min_last. rewrite Hmin. reflexivity.
Qed.

(** With rois, an empty mask raises nothing: the case gets no slice. *)
Lemma empty_mask_raises_counterexample :
  true_voxels (gt0 (mask_of [6; 6] [])) = [] /\
  get_balanced_slices unit id_permutation [mask_of [6; 6] []] [3; 3]
    (Some [mask_of [6; 6] [[1; 1]; [4; 4]]]) 0 1%Q tt = Ok ([[]], tt).
Proof. split; vm_compute; reflexivity. Qed.

Lemma empty_mask_raises_witness :
  In (mask_of [6; 6] []) [mask_of [6; 6] []] /\
  true_voxels (gt0 (mask_of [6; 6] [])) = [] /\
  get_slices_bb (MaskList [mask_of [6; 6] []]) [3; 3] 0 false 0 = Raise ValueError.
Proof.
  split; [left; reflexivity|]. split; [vm_compute; reflexivity|].
  apply (proj1 (empty_mask_raises [mask_of [6; 6] []] (mask_of [6; 6] []) [3; 3] 0
                  (or_introl eq_refl) eq_refl)).
Defined.

(** ** The example of the spec *)

(** The claim as stated: the single centre is the foreground voxel. *)
Lemma single_voxel_centre_counterexample :
  bb_centers [mask_of [10; 10; 10] [[5; 5; 5]]] [4; 4; 4] 0 <> Ok [[[5; 5; 5]]].
Proof. vm_compute. discriminate. Qed.

(** C3 (amended): for a mask of shape (10,10,10) with the single foreground
    voxel (5,5,5), patch size 4 and overlap 0, the list branch of
    [get_slices_bb] produces exactly one centre, at (3,3,3), the far corner
    of the shrunk bounding box, whose slices are [1:5] in each dimension;
    the single-array branch produces no centre. *)
Theorem single_voxel_centre :
  bb_centers [mask_of [10; 10; 10] [[5; 5; 5]]] [4; 4; 4] 0 = Ok [[[3; 3; 3]]] /\
  get_slices_bb (MaskList [mask_of [10; 10; 10] [[5; 5; 5]]]) [4; 4; 4] 0 false 0
    = Ok (PerCase [[[mkslice 1 5; mkslice 1 5; mkslice 1 5]]]) /\
  get_slices_bb (MaskArray (mask_of [10; 10; 10] [[5; 5; 5]])) [4; 4; 4] 0 false 0
    = Ok (Flat []).
Proof. repeat split; vm_compute; reflexivity. Qed.




(** ** Cumulative counts *)

Lemma lookup_cumsum_from (acc : Z) (l : list Z) (k : nat) :
  (k < length l)%nat ->
  cumsum_from acc l !! k = Some (acc + prefix_sum l (S k)).
Proof.
  revert acc k. induction l as [|x l IH]; intros acc k Hk; simpl in Hk; [lia|].
  destruct k as [|k]; simpl.
  - unfold prefix_sum. simpl. f_equal. lia.
  - rewrite IH by lia. unfold prefix_sum. simpl. f_equal. lia.
Qed.

Lemma length_cumsum_from (acc : Z) (l : list Z) :
  length (cumsum_from acc l) = length l.
Proof. revert acc. induction l; intros acc; simpl; auto. Qed.

Lemma lookup_np_cumsum (l : list Z) (k : nat) :
  (k < length l)%nat -> np_cumsum l !! k = Some (prefix_sum l (S k)).
Proof. intros H. unfold np_cumsum. rewrite lookup_cumsum_from by exact H. reflexivity. Qed.

Lemma prefix_sum_S (l : list Z) (k : nat) (x : Z) :
  l !! k = Some x -> prefix_sum l (S k) = prefix_sum l k + x.
Proof.
  revert k. induction l as [|y l IH]; intros [|k] H; try discriminate.
  - inversion H. unfold prefix_sum. simpl. lia.
  - simpl in H. unfold prefix_sum in *. simpl. specialize (IH k H).
    simpl in IH. lia.
Qed.

Lemma prefix_sum_mono (l : list Z) (j k : nat) :
  Forall (fun x => 0 <= x) l -> (j <= k)%nat -> prefix_sum l j <= prefix_sum l k.
Proof.
  intros Hpos. revert j k. induction Hpos as [|x l Hx _ IH]; intros j k Hjk.
  - unfold prefix_sum. rewrite !firstn_nil. lia.
  - destruct j as [|j], k as [|k]; unfold prefix_sum in *; simpl; try lia.
    + specialize (IH 0%nat k). simpl in IH. lia.
    + specialize (IH j k). lia.
Qed.

(** ** Indexing *)

Lemma py_index_nonneg {A : Type} (l : list A) (i : Z) (x : A) :
  0 <= i -> l !! Z.to_nat i = Some x -> py_index l i = Ok x.
Proof.
  intros Hi Hx. unfold py_index.
  destruct (i <? 0) eqn:E; [lia|]. rewrite E, Hx. reflexivity.
Qed.

Lemma py_index_last {A : Type} (l : list A) (x : A) :
  py_index l (-1) = Ok x -> l <> [] /\ l !! (length l - 1)%nat = Some x.
Proof.
  unfold py_index. simpl.
  destruct (-1 + Z.of_nat (length l) <? 0) eqn:E; [discriminate|].
  destruct (l !! Z.to_nat (-1 + Z.of_nat (length l))) as [y|] eqn:Hy; [|discriminate].
  intros H. inversion H; subst. split.
  - destruct l; [simpl in E|]; discriminate.
  - rewrite <- Hy. f_equal. lia.
Qed.

Lemma lookup_ndindex_1 (n k : nat) :
  (k < n)%nat -> ndindex [Z.of_nat n] !! k = Some [Z.of_nat k].
Proof.
  intros Hk. unfold ndindex, range. simpl. rewrite Nat2Z.id.
  assert (E : forall l : list Z, flat_map (fun i => [[i]]) l = map (fun i => [i]) l).
  { induction l as [|a l IH]; simpl; [reflexivity|]. now rewrite IH. }
  rewrite E, !lookup_map, lookup_seq_lt by exact Hk. reflexivity.
Qed.

Lemma length_ndindex_1 (n : nat) : length (ndindex [Z.of_nat n]) = n.
Proof.
  unfold ndindex, range. simpl. rewrite Nat2Z.id.
  assert (E : forall l : list Z, flat_map (fun i => [[i]]) l = map (fun i => [i]) l).
  { induction l as [|a l IH]; simpl; [reflexivity|]. now rewrite IH. }
  rewrite E, !length_map, length_seq. reflexivity.
Qed.

(** The positions at which a one-dimensional boolean array is true. *)
Lemma in_where_1 (bs : list bool) (x : Z) :
  In x (concat (np_where (mkarray [Z.of_nat (length bs)] bs))) <->
  exists k, x = Z.of_nat k /\ bs !! k = Some true.
Proof.
  unfold np_where. simpl. rewrite app_nil_r, in_map_iff. split.
  - intros [v [<- Hv]]. unfold true_voxels in Hv. simpl in Hv.
    apply in_map_iff in Hv as [[c b] [<- Hcb]]. apply filter_In in Hcb as [Hcb Hb].
    simpl in *. subst b. apply In_lookup in Hcb as [k Hk].
    apply lookup_combine_Some in Hk as [Hc Hb]. simpl in *.
    assert (Hlt : (k < length bs)%nat) by (eapply lookup_lt_Some; eauto).
    rewrite lookup_ndindex_1 in Hc by exact Hlt. inversion Hc; subst.
    exists k. auto.
  - intros [k [-> Hk]]. exists [Z.of_nat k]. split; [reflexivity|].
    unfold true_voxels. simpl. apply in_map_iff. exists ([Z.of_nat k], true).
    split; [reflexivity|]. apply filter_In. split; [|reflexivity].
    apply In_lookup. exists k. rewrite lookup_combine.
    rewrite lookup_ndindex_1 by (eapply lookup_lt_Some; eauto).
    rewrite Hk. reflexivity.
Qed.

Lemma np_min_all_spec (rows : list (list Z)) :
  match np_min_all rows with
  | Ok m => In m (concat rows) /\ forall x, In x (concat rows) -> m <= x
  | Raise e => concat rows = [] /\ e = ValueError
  end.
Proof.
  unfold np_min_all. destruct (concat rows) as [|x xs] eqn:E; [auto|].
  destruct (list_min_spec (x :: xs)) as [H1 H2]; [discriminate|].
  split; [exact H1|]. rewrite List.Forall_forall in H2. exact H2.
Qed.

(** ** The dataset adapter *)

Lemma init_max_slice (rng : Type) (np_permutation : rng -> nat -> list nat * rng)
    cases labels masks balanced overlap min_size patch_size neg_ratio sampler
    (g g' : rng) (d : GSCD.t) :
  GSCD.__init__ rng np_permutation cases labels masks balanced overlap min_size
                patch_size neg_ratio sampler g = Ok (d, g') ->
  GSCD.max_slice d = np_cumsum (patch_counts d).
Proof.
  unfold GSCD.__init__.
  destruct cases as [|c cs]; [intros H; discriminate H|]. simpl.
  match goal with
  | |- (?e ≫= _) = _ -> _ => destruct e as [[ps g1]|e']; [simpl|intros H; discriminate H]
  end.
  intros H. inversion H; subst. reflexivity.
Qed.

Lemma getitem_ok {A : Type} (a : ndarray A) (ss : list slice) :
  (length ss <= length (shape a))%nat ->
  exists sub, getitem a ss = Ok sub /\ shape sub = sliced_shape (shape a) ss.
Proof.
  intros H. unfold getitem.
  destruct (length (shape a) <? length ss)%nat eqn:E.
  - apply Nat.ltb_lt in E. lia.
  - eexists. split; reflexivity.
Qed.

Lemma patch_counts_nonneg (d : GSCD.t) : Forall (fun x => 0 <= x) (patch_counts d).
Proof.
  unfold patch_counts. apply List.Forall_forall. intros x Hx.
  apply in_map_iff in Hx as [s [<- _]]. lia.
Qed.

Lemma lookup_boundaries (l : list Z) (k : nat) :
  (k <= length l)%nat -> (0 :: np_cumsum l) !! k = Some (prefix_sum l k).
Proof.
  intros Hk. destruct k as [|k]; [reflexivity|]. simpl.
  apply lookup_np_cumsum. lia.
Qed.

(** The adapter on the datasets whose slices fit their cases.  For a
    dataset built by the constructor that satisfies
    [dims_ok], [__len__] is the last cumulative count, which is the total
    number of patches, and for every index [0 <= i < __len__()] the call
    [__getitem__(i)] returns; [i] belongs to exactly one pair of a case and
    a local patch, the case being the first one whose cumulative count
    exceeds [i]; with labels, the target has a leading axis of length 1. *)
Theorem getitem_in_range (rng : Type)
    (np_permutation : rng -> nat -> list nat * rng)
    cases labels masks balanced overlap min_size patch_size neg_ratio sampler
    (g g' : rng) (d : GSCD.t) (n i : Z) :
  GSCD.__init__ rng np_permutation cases labels masks balanced overlap min_size
                patch_size neg_ratio sampler g = Ok (d, g') ->
  dims_ok d ->
  GSCD.__len__ d = Ok n -> 0 <= i < n ->
  n = prefix_sum (patch_counts d) (length (patch_counts d)) /\
  exists (case_idx patch_idx : nat) case_slices slice_i it,
    GSCD.patch_slices d !! case_idx = Some case_slices /\
    case_slices !! patch_idx = Some slice_i /\
    i = prefix_sum (patch_counts d) case_idx + Z.of_nat patch_idx /\
    (forall k p sl, GSCD.patch_slices d !! k = Some sl -> (p < length sl)%nat ->
       i = prefix_sum (patch_counts d) k + Z.of_nat p ->
       k = case_idx /\ p = patch_idx) /\
    (exists b, GSCD.max_slice d !! case_idx = Some b /\ i < b /\
       forall k b', (k < case_idx)%nat -> GSCD.max_slice d !! k = Some b' -> b' <= i) /\
    GSCD.__getitem__ d i = Ok it /\
    match GSCD.labels d with
    | Some labels =>
        exists l target,
          labels !! case_idx = Some l /\ item_target it = Some target /\
          shape target = 1 :: sliced_shape (shape l) slice_i
    | None => item_target it = None
    end.
Proof.
  intros Hinit [Hcases Hlabels] Hlen Hi.
  pose proof (init_max_slice _ _ _ _ _ _ _ _ _ _ _ _ _ _ Hinit) as Hms.
  set (lens := patch_counts d) in *.
  assert (Hlens : length lens = length (GSCD.patch_slices d)).
  { unfold lens, patch_counts. apply length_map. }
  assert (Hmslen : length (GSCD.max_slice d) = length lens).
  { rewrite Hms. apply length_cumsum_from. }
  assert (Hpos : Forall (fun x => 0 <= x) lens) by apply patch_counts_nonneg.
  unfold GSCD.__len__ in Hlen. apply py_index_last in Hlen as [Hne Hlast].
  assert (Hlen0 : (0 < length lens)%nat).
  { rewrite <- Hmslen. destruct (GSCD.max_slice d); [congruence|simpl; lia]. }
  assert (Hn : n = prefix_sum lens (length lens)).
  { rewrite Hmslen in Hlast. rewrite Hms, lookup_np_cumsum in Hlast by lia.
    inversion Hlast as [E]. f_equal. lia. }
  split; [exact Hn|].
  (* the case *)
  set (bs := map (fun m => i <? m) (GSCD.max_slice d)).
  assert (Hbs : length bs = length (GSCD.max_slice d)) by apply length_map.
  assert (Hwhere : forall x,
            In x (concat (np_where (mkarray [Z.of_nat (length (GSCD.max_slice d))] bs)))
            <-> exists k, x = Z.of_nat k /\ bs !! k = Some true).
  { intros x. rewrite <- Hbs. apply in_where_1. }
  assert (Hbs_lookup : forall k, (k < length lens)%nat ->
            bs !! k = Some (i <? prefix_sum lens (S k))).
  { intros k Hk. unfold bs. rewrite lookup_map, Hms, lookup_np_cumsum by exact Hk.
    reflexivity. }
  pose proof (np_min_all_spec
                (np_where (mkarray [Z.of_nat (length (GSCD.max_slice d))] bs))) as Hmin.
  destruct (np_min_all _) as [m|e] eqn:Emin.
  2:{ exfalso. destruct Hmin as [Hnil _].
      assert (Hin : In (Z.of_nat (length lens - 1))
                (concat (np_where (mkarray [Z.of_nat (length (GSCD.max_slice d))] bs)))).
      { apply Hwhere. exists (length lens - 1)%nat. split; [reflexivity|].
        rewrite Hbs_lookup by lia.
        replace (S (length lens - 1)) with (length lens) by lia.
        f_equal. apply Z.ltb_lt. lia. }
      rewrite Hnil in Hin. destruct Hin. }
  destruct Hmin as [Hm_in Hm_min]. apply Hwhere in Hm_in as [k [-> Hk]].
  assert (Hklt : (k < length lens)%nat).
  { apply lookup_lt_Some in Hk. lia. }
  rewrite Hbs_lookup in Hk by exact Hklt.
  assert (Hk' : i < prefix_sum lens (S k)) by (apply Z.ltb_lt; congruence).
  clear Hk.
  assert (Hbefore : forall k', (k' < k)%nat -> prefix_sum lens (S k') <= i).
  { intros k' Hk'k. destruct (Z.le_gt_cases (prefix_sum lens (S k')) i) as [H|H];
      [exact H|exfalso].
    assert (Hin : Z.of_nat k <= Z.of_nat k').
    { apply Hm_min, Hwhere. exists k'. split; [reflexivity|].
      rewrite Hbs_lookup by lia. f_equal. apply Z.ltb_lt. lia. }
    lia. }
  destruct (lookup_lt_is_Some_2 (GSCD.patch_slices d) k) as [case_slices Hcs]; [lia|].
  assert (Hlk : lens !! k = Some (Z.of_nat (length case_slices))).
  { unfold lens, patch_counts. rewrite lookup_map, Hcs. reflexivity. }
  pose proof (prefix_sum_S _ _ _ Hlk) as HS.
  assert (Hlo : prefix_sum lens k <= i).
  { destruct k as [|k0]; [unfold prefix_sum; simpl; lia|]. apply Hbefore. lia. }
  set (p := Z.to_nat (i - prefix_sum lens k)).
  destruct (lookup_lt_is_Some_2 case_slices p) as [slice_i Hsl]; [unfold p; lia|].
  destruct (Hcases k case_slices Hcs) as [case [Hcase Hdim]].
  assert (Hsin : In slice_i case_slices) by (apply In_lookup; eauto).
  destruct (getitem_ok case (none_slice case :: slice_i)) as [inputs [Hinp _]].
  { simpl. specialize (Hdim _ Hsin). lia. }
  (* the item *)
  assert (Hlab :
    exists it,
      (match GSCD.labels d with
       | Some labels =>
           labels ← py_index labels (Z.of_nat k);
           let labels := array_map (fun x => x mod 256) labels in
           sub ← getitem labels slice_i;
           let target := expand_dims0 sub in
           if GSCD.sampler d then Ok (GSCD.WithIndex inputs target i)
           else Ok (GSCD.WithTarget inputs target)
       | None => Ok (GSCD.WithoutTarget inputs (Z.of_nat k) slice_i)
       end) = Ok it /\
      match GSCD.labels d with
      | Some labels =>
          exists l target,
            labels !! k = Some l /\ item_target it = Some target /\
            shape target = 1 :: sliced_shape (shape l) slice_i
      | None => item_target it = None
      end).
  { destruct (GSCD.labels d) as [ls|] eqn:Els.
    - destruct (Hlabels ls k case_slices eq_refl Hcs) as [l [Hl Hldim]].
      rewrite (py_index_nonneg ls (Z.of_nat k) l) by (rewrite ?Nat2Z.id; auto; lia).
      simpl.
      destruct (getitem_ok (array_map (fun x => x mod 256) l) slice_i)
        as [sub [Hsub Hshape]].
      { simpl. apply Hldim. exact Hsin. }
      rewrite Hsub. simpl.
      destruct (GSCD.sampler d); eexists; (split; [reflexivity|]);
        exists l, (expand_dims0 sub); simpl; rewrite Hshape; auto.
    - eexists. split; reflexivity. }
  destruct Hlab as [it [Hit Htarget]].
  exists k, p, case_slices, slice_i, it.
  split; [exact Hcs|]. split; [exact Hsl|]. split; [unfold p; lia|].
  split; [|split; [|split; [|exact Htarget]]].
  - intros k' p' sl Hsl' Hp' Hi'.
    assert (Hk'lt : (k' < length lens)%nat).
    { rewrite Hlens. eapply lookup_lt_Some; eauto. }
    assert (Hlk' : lens !! k' = Some (Z.of_nat (length sl))).
    { unfold lens, patch_counts. rewrite lookup_map, Hsl'. reflexivity. }
    pose proof (prefix_sum_S _ _ _ Hlk') as HS'.
    assert (k' = k).
    { destruct (Nat.lt_trichotomy k' k) as [H|[H|H]]; [exfalso|exact H|exfalso].
      - specialize (Hbefore k' H). lia.
      - pose proof (prefix_sum_mono lens (S k) k' Hpos ltac:(lia)). lia. }
    subst k'. split; [reflexivity|]. unfold p. lia.
  - exists (prefix_sum lens (S k)). split; [|split; [exact Hk'|]].
    + rewrite Hms. apply lookup_np_cumsum. exact Hklt.
    + intros k' b' Hk'k Hb'. rewrite Hms, lookup_np_cumsum in Hb' by lia.
      inversion Hb'; subst. apply Hbefore. exact Hk'k.
  - unfold GSCD.__getitem__. fold bs. rewrite Emin. simpl.
    rewrite (py_index_nonneg (GSCD.cases d) (Z.of_nat k) case)
      by (rewrite ?Nat2Z.id; auto; lia).
    simpl.
    rewrite (py_index_nonneg (0 :: GSCD.max_slice d) (Z.of_nat k) (prefix_sum lens k)).
    2: lia.
    2:{ rewrite Nat2Z.id, Hms. apply lookup_boundaries. lia. }
    simpl.
    rewrite (py_index_nonneg (GSCD.patch_slices d) (Z.of_nat k) case_slices)
      by (rewrite ?Nat2Z.id; auto; lia).
    simpl.
    rewrite (py_index_nonneg case_slices (i - prefix_sum lens k) slice_i)
      by (auto; lia).
    simpl. rewrite Hinp. simpl. exact Hit.
Qed.

(** C2: the claim fails on the code by a slip of the constructor.  For a
    case the mask of ones is taken from [d[0]] when the case has more than
    one channel and from the whole case otherwise, which for a case with a
    single channel keeps the channel axis: the slices index one axis more
    than the case has.  The constructor accepts a single-channel image of
    4 x 4 voxels without labels and masks and counts four patches, and
    [__getitem__] raises for each of the four indices, although it returns
    both items of the same dataset built from a two-channel image. *)
Theorem single_channel_getitem_raises :
  exists d,
    GSCD.__init__ unit id_permutation single_channel_cases None None true 0 0
                  (GSCD.PatchInt 2) 1%Q false tt = Ok (d, tt) /\
    GSCD.__len__ d = Ok 4 /\
    (forall i, 0 <= i < 4 -> GSCD.__getitem__ d i = Raise IndexError) /\
    exists d' it0 it1,
      GSCD.__init__ unit id_permutation example_cases None None true 0 0
                    (GSCD.PatchInt 2) 1%Q false tt = Ok (d', tt) /\
      GSCD.__len__ d' = Ok 4 /\
      GSCD.__getitem__ d' 0 = Ok it0 /\ GSCD.__getitem__ d' 3 = Ok it1.
Proof.
  eexists. split; [vm_compute; reflexivity|]. split; [vm_compute; reflexivity|].
  split.
  - intros i Hi.
    assert (E : i = 0 \/ i = 1 \/ i = 2 \/ i = 3) by lia.
    destruct E as [->|[->|[->| ->]]]; vm_compute; reflexivity.
  - do 3 eexists. split; [vm_compute; reflexivity|].
    split; [vm_compute; reflexivity|]. split; vm_compute; reflexivity.
Qed.

Lemma example_dataset_dims_ok : dims_ok example_dataset.
Proof.
  split.
  - intros [|k] cs H; [|destruct k; discriminate H].
    inversion H; subst. eexists. split; [reflexivity|].
    intros s [<-|[<-|[]]]; simpl; lia.
  - intros ls [|k] cs Hl H; [|destruct k; discriminate H].
    inversion Hl; subst. inversion H; subst. eexists. split; [reflexivity|].
    intros s [<-|[<-|[]]]; simpl; lia.
Defined.

Lemma getitem_in_range_witness :
  GSCD.__init__ unit id_permutation example_cases (Some example_labels) None true
                0 0 (GSCD.PatchInt 2) 1%Q false tt = Ok (example_dataset, tt) /\
  dims_ok example_dataset /\
  GSCD.__len__ example_dataset = Ok 2 /\ 0 <= 1 < 2 /\
  2 = prefix_sum (patch_counts example_dataset) (length (patch_counts example_dataset)) /\
  exists (case_idx patch_idx : nat) case_slices slice_i it,
    GSCD.patch_slices example_dataset !! case_idx = Some case_slices /\
    case_slices !! patch_idx = Some slice_i /\
    1 = prefix_sum (patch_counts example_dataset) case_idx + Z.of_nat patch_idx /\
    (forall k p sl, GSCD.patch_slices example_dataset !! k = Some sl ->
       (p < length sl)%nat ->
       1 = prefix_sum (patch_counts example_dataset) k + Z.of_nat p ->
       k = case_idx /\ p = patch_idx) /\
    (exists b, GSCD.max_slice example_dataset !! case_idx = Some b /\ 1 < b /\
       forall k b', (k < case_idx)%nat ->
                    GSCD.max_slice example_dataset !! k = Some b' -> b' <= 1) /\
    GSCD.__getitem__ example_dataset 1 = Ok it /\
    match GSCD.labels example_dataset with
    | Some labels =>
        exists l target,
          labels !! case_idx = Some l /\ item_target it = Some target /\
          shape target = 1 :: sliced_shape (shape l) slice_i
    | None => item_target it = None
    end.
Proof.
  assert (Hinit :
    GSCD.__init__ unit id_permutation example_cases (Some example_labels) None true
                  0 0 (GSCD.PatchInt 2) 1%Q false tt = Ok (example_dataset, tt))
    by (vm_compute; reflexivity).
  assert (Hlen : GSCD.__len__ example_dataset = Ok 2) by reflexivity.
  assert (Hi : 0 <= 1 < 2) by lia.
  split; [exact Hinit|]. split; [exact example_dataset_dims_ok|].
  split; [exact Hlen|]. split; [exact Hi|].
  exact (getitem_in_range unit id_permutation _ _ _ _ _ _ _ _ _ tt tt
           example_dataset 2 1 Hinit example_dataset_dims_ok Hlen Hi).
Defined.


(** ** Weights *)

Lemma in_positive_indices (w : list Q) (i : nat) :
  In i (positive_indices w) <-> exists x, w !! i = Some x /\ (0 < x)%Q.
Proof.
  unfold positive_indices. rewrite filter_In, in_seq, negb_true_iff. split.
  - intros [Hi Hx]. destruct (lookup_lt_is_Some_2 w i) as [x Hw]; [lia|].
    exists x. split; [exact Hw|]. rewrite nth_lookup, Hw in Hx. simpl in Hx.
    destruct (Qlt_le_dec 0 x) as [H|H]; [exact H|].
    apply Qle_bool_iff in H. congruence.
  - intros [x [Hw Hx]]. split; [apply lookup_lt_Some in Hw; lia|].
    rewrite nth_lookup, Hw. simpl. destruct (Qle_bool x 0) eqn:E; [|reflexivity].
    apply Qle_bool_iff in E. lra.
Qed.

Lemma NoDup_positive_indices (w : list Q) : List.NoDup (positive_indices w).
Proof. apply List.NoDup_filter, seq_NoDup. Qed.

Lemma positive_incl_nonzero (w : list Q) :
  incl (positive_indices w) (nonzero_indices w).
Proof.
  intros i. unfold positive_indices, nonzero_indices. rewrite !filter_In.
  intros [Hi Hx]. split; [exact Hi|]. rewrite negb_true_iff in *.
  destruct (Qeq_bool (nth i w 0%Q) 0) eqn:E; [|reflexivity].
  apply Qeq_bool_iff in E. destruct (Qle_bool (nth i w 0%Q) 0) eqn:E'; [congruence|].
  assert (H : ~ (nth i w 0%Q <= 0)%Q) by (rewrite <- Qle_bool_iff; congruence).
  lra.
Qed.

Lemma Qsum_nonneg (w : list Q) :
  existsb (fun x => negb (Qle_bool 0 x)) w = false -> (0 <= Qsum w)%Q.
Proof.
  induction w as [|x w IH]; simpl; [lra|].
  rewrite orb_false_iff, negb_false_iff. intros [Hx Hw].
  apply Qle_bool_iff in Hx. specialize (IH Hw). lra.
Qed.

(** On non-negative weights the sum is positive exactly when some weight is
    positive. *)
Lemma Qsum_positive (w : list Q) :
  existsb (fun x => negb (Qle_bool 0 x)) w = false ->
  Qle_bool (Qsum w) 0 = false <-> positive_indices w <> [].
Proof.
  intros Hnn. split.
  - intros Hs Hnil.
    assert (Hall : forall i x, w !! i = Some x -> (x <= 0)%Q).
    { intros i x Hx. destruct (Qlt_le_dec 0 x) as [H|H]; [|exact H].
      assert (Hin : In i (positive_indices w)) by (apply in_positive_indices; eauto).
      rewrite Hnil in Hin. destruct Hin. }
    assert (Hle : (Qsum w <= 0)%Q).
    { clear Hnn Hs Hnil. induction w as [|x w IH]; simpl; [lra|].
      assert (x <= 0)%Q by (apply (Hall 0%nat); reflexivity).
      assert (Qsum w <= 0)%Q by (apply IH; intros i y Hy; apply (Hall (S i)); exact Hy).
      lra. }
    apply Qle_bool_iff in Hle. congruence.
  - intros Hne. destruct (positive_indices w) as [|i l] eqn:E; [congruence|].
    assert (Hin : In i (positive_indices w)) by (rewrite E; left; reflexivity).
    apply in_positive_indices in Hin as [x [Hx Hpos]].
    assert (Hlt : (0 < Qsum w)%Q).
    { clear E Hne. revert i Hx. induction w as [|y w IH]; intros i Hx; [discriminate|].
      simpl in Hnn. rewrite orb_false_iff, negb_false_iff in Hnn.
      destruct Hnn as [Hy Hw]. apply Qle_bool_iff in Hy. simpl.
      destruct i as [|i]; simpl in Hx.
      - inversion Hx; subst. pose proof (Qsum_nonneg w Hw). lra.
      - specialize (IH Hw i Hx). lra. }
    destruct (Qle_bool (Qsum w) 0) eqn:E'; [|reflexivity].
    apply Qle_bool_iff in E'. lra.
Qed.

(** ** Filling a tensor at a set of indices *)

Lemma length_fill (t : list Q) (idx : list nat) (v : Q) :
  length (foldr (fun i acc => <[i := v]> acc) t idx) = length t.
Proof. induction idx; simpl; [reflexivity|]. now rewrite length_insert. Qed.

Lemma lookup_fill (t : list Q) (idx : list nat) (v : Q) (i : nat) :
  foldr (fun i acc => <[i := v]> acc) t idx !! i =
    if decide (i ∈ idx) then (fun _ => v) <$> (t !! i) else t !! i.
Proof.
  induction idx as [|j idx IH]; cbn [fold_right].
  - destruct (decide (i ∈ [])) as [H|H]; [inversion H|reflexivity].
  - destruct (decide (i ∈ j :: idx)) as [Hin|Hnin].
    + destruct (decide (j = i)) as [->|Hne].
      * destruct (t !! i) as [x|] eqn:Ht; simpl.
        -- apply list_lookup_insert_eq. rewrite length_fill.
           eapply lookup_lt_Some; eauto.
        -- apply lookup_ge_None. rewrite length_insert, length_fill.
           apply lookup_ge_None. exact Ht.
      * rewrite list_lookup_insert_ne by exact Hne. rewrite IH.
        apply elem_of_cons in Hin as [->|Hin]; [congruence|].
        destruct (decide (i ∈ idx)); [reflexivity|contradiction].
    + assert (Hne : j <> i) by (intros ->; apply Hnin; left).
      rewrite list_lookup_insert_ne by exact Hne. rewrite IH.
      destruct (decide (i ∈ idx)) as [H|H]; [|reflexivity].
      exfalso. apply Hnin. right. exact H.
Qed.

Lemma index_fill_ok (t : list Q) (idx : list nat) (v : Q) :
  (forall i, In i idx -> (i < length t)%nat) ->
  index_fill t idx v = Ok (foldr (fun i acc => <[i := v]> acc) t idx).
Proof.
  intros H. unfold index_fill.
  destruct (forallb _ idx) eqn:E; [reflexivity|].
  assert (E' : forallb (fun i => (i <? length t)%nat) idx = true).
  { apply forallb_forall. intros i Hi. apply Nat.ltb_lt. auto. }
  congruence.
Qed.

Lemma index_fill_inv (t : list Q) (idx : list nat) (v : Q) (t' : list Q) :
  index_fill t idx v = Ok t' ->
  t' = foldr (fun i acc => <[i := v]> acc) t idx /\
  forall i, In i idx -> (i < length t)%nat.
Proof.
  unfold index_fill. destruct (forallb _ idx) eqn:E; [|discriminate].
  intros H. inversion H. split; [reflexivity|].
  rewrite forallb_forall in E. intros i Hi. apply Nat.ltb_lt. auto.
Qed.

(** ** Distinct entries *)

Lemma unique_spec (a : list nat) :
  List.NoDup (unique a) /\ (forall i, In i (unique a) <-> In i a) /\
  (length (unique a) <= length a)%nat /\ (a <> [] -> unique a <> []).
Proof.
  unfold unique. split; [apply NoDup_ListNoDup, NoDup_remove_dups|].
  split; [|split].
  - intros i. rewrite <- !list_elem_of_In. apply elem_of_remove_dups.
  - induction a as [|x a IH]; simpl; [lia|]. case_decide; simpl; lia.
  - intros Hne Hnil. destruct a as [|x a]; [congruence|].
    assert (Hin : x ∈ remove_dups (x :: a)) by (apply elem_of_remove_dups; left).
    rewrite Hnil in Hin. inversion Hin.
Qed.


(** ** Sequencing *)

Lemma bind_done {S A B : Type} (m : M S A) (f : A -> M S B) (s s' : S) (b : B) :
  (m ≫= f) s = (Done b, s') ->
  exists a s1, m s = (Done a, s1) /\ f a s1 = (Done b, s').
Proof.
  unfold mbind, M_bind. destruct (m s) as [[a| |] s1]; intros H;
    try (inversion H; fail). eauto.
Qed.

Lemma bind_cases {S A B : Type} (m : M S A) (f : A -> M S B) (s : S) :
  (exists a s1, m s = (Done a, s1) /\ (m ≫= f) s = f a s1) \/
  (exists e s1, m s = (Exc e, s1) /\ (m ≫= f) s = (Exc e, s1)) \/
  (exists s1, m s = (OutOfFuel, s1) /\ (m ≫= f) s = (OutOfFuel, s1)).
Proof.
  unfold mbind, M_bind. destruct (m s) as [[a|e|] s1]; eauto 10.
Qed.

Section Sample.

Variable rng : Type.
Variable multinomial_draw : rng -> list Q -> nat -> list nat * rng.

(** On a valid distribution, [torch.multinomial] returns the requested
    number of indices, each of positive weight. *)
Hypothesis multinomial_draw_spec :
  forall g w n,
    positive_indices w <> [] ->
    length (fst (multinomial_draw g w n)) = n /\
    forall i, In i (fst (multinomial_draw g w n)) -> In i (positive_indices w).

Local Abbreviation state := (WSRS.state rng).
Local Abbreviation sample_loop := (WSRS.sample_loop rng multinomial_draw).
Local Abbreviation sample := (WSRS.sample rng multinomial_draw).

Lemma multinomial_cases (w : list Q) (n : Z) (s : state) :
  0 < n ->
  (WSRS.multinomial rng multinomial_draw w n s
     = (Exc (RuntimeError NegativeProbability), s) /\
   existsb (fun x => negb (Qle_bool 0 x)) w = true) \/
  (WSRS.multinomial rng multinomial_draw w n s
     = (Exc (RuntimeError ZeroProbabilities), s) /\
   existsb (fun x => negb (Qle_bool 0 x)) w = false /\
   positive_indices w = []) \/
  (exists a g,
     WSRS.multinomial rng multinomial_draw w n s
       = (Done a, WSRS.mkstate rng (WSRS.self rng s) (WSRS.heap rng s) g) /\
     existsb (fun x => negb (Qle_bool 0 x)) w = false /\
     length a = Z.to_nat n /\
     forall i, In i a -> In i (positive_indices w)).
Proof.
  intros Hn. unfold WSRS.multinomial.
  destruct (n <=? 0) eqn:E; [lia|]. clear E.
  destruct (existsb _ w) eqn:Hneg; [left; auto|].
  destruct (Qle_bool (Qsum w) 0) eqn:Hsum.
  - right. left. split; [reflexivity|]. split; [reflexivity|].
    destruct (positive_indices w) eqn:E; [reflexivity|exfalso].
    assert (Hne : positive_indices w <> []) by congruence.
    apply (Qsum_positive w Hneg) in Hne. congruence.
  - right. right. apply (Qsum_positive w Hneg) in Hsum.
    destruct (multinomial_draw_spec (WSRS.gen rng s) w (Z.to_nat n) Hsum) as [Hlen Hin].
    destruct (multinomial_draw _ w _) as [a g]. simpl in *.
    exists a, g. auto.
Qed.

(** The loop of [sample]: it runs out of fuel only when given no more
    than [want - have] iterations, it can only raise what
    [torch.multinomial] raises on an invalid distribution, and the indices
    it adds are pairwise distinct indices of positive weight.  It touches
    only the tensor [ref]. *)
Lemma sample_loop_spec (fuel : nat) (ref : nat) (want : Z) :
  forall (have : Z) (samples : list nat) (w : list Q) (s : state),
    WSRS.heap rng s !! ref = Some w ->
    have <= want ->
    exists o s',
      sample_loop fuel ref want have samples s = (o, s') /\
      WSRS.self rng s' = WSRS.self rng s /\
      length (WSRS.heap rng s') = length (WSRS.heap rng s) /\
      (forall r, r <> ref -> WSRS.heap rng s' !! r = WSRS.heap rng s !! r) /\
      match o with
      | OutOfFuel => (fuel <= Z.to_nat (want - have))%nat
      | Exc e =>
          (e = RuntimeError NegativeProbability /\
           existsb (fun x => negb (Qle_bool 0 x)) w = true) \/
          (e = RuntimeError ZeroProbabilities /\
           existsb (fun x => negb (Qle_bool 0 x)) w = false /\
           Z.of_nat (length (positive_indices w)) < want - have)
      | Done r =>
          exists new,
            r = samples ++ new /\ List.NoDup new /\
            Z.of_nat (length new) = want - have /\
            forall i, In i new -> In i (positive_indices w)
      end.
Proof.
  induction fuel as [|fuel IH]; intros have samples w s Hw Hle.
  { exists OutOfFuel, s. split; [reflexivity|]. repeat split; auto. lia. }
  simpl. destruct (have <? want) eqn:Elt.
  2:{ exists (Done samples), s. split; [reflexivity|]. repeat split; auto.
      exists []. rewrite app_nil_r. repeat split; auto.
      - constructor.
      - simpl. lia.
      - intros i []. }
  apply Z.ltb_lt in Elt.
  unfold mbind at 1, M_bind at 1. unfold WSRS.read at 1. rewrite Hw.
  unfold mbind at 1, M_bind at 1.
  destruct (multinomial_cases w (want - have) s ltac:(lia))
    as [[Hm Hwhy]|[(Hm & Hnn & Hwhy)|(a & g & Hm & Hnn & Hlen & Hin)]]; rewrite Hm.
  { exists (Exc (RuntimeError NegativeProbability)), s.
    split; [reflexivity|]. repeat split; auto. }
  { exists (Exc (RuntimeError ZeroProbabilities)), s.
    split; [reflexivity|]. repeat split; auto.
    right. split; [reflexivity|]. split; [exact Hnn|]. rewrite Hwhy. simpl. lia. }
  set (s1 := WSRS.mkstate rng (WSRS.self rng s) (WSRS.heap rng s) g).
  destruct (unique_spec a) as (Hnd & Hmem & Hulen & Hune).
  assert (Ha : a <> []).
  { destruct a; [simpl in Hlen; lia|discriminate]. }
  destruct (want <? have + Z.of_nat (length (unique a))) eqn:Efit; [lia|].
  assert (Hb_pos : forall i, In i (unique a) -> In i (positive_indices w)).
  { intros i Hi. apply Hin, Hmem. exact Hi. }
  assert (Hb_lt : forall i, In i (unique a) -> (i < length w)%nat).
  { intros i Hi. apply Hb_pos, in_positive_indices in Hi as [x [Hx _]].
    eapply lookup_lt_Some; eauto. }
  unfold mbind at 1, M_bind at 1. unfold WSRS.lift at 1.
  rewrite (index_fill_ok w (unique a) 0%Q Hb_lt).
  set (w' := foldr (fun i acc => <[i := 0%Q]> acc) w (unique a)).
  unfold mbind at 1, M_bind at 1. unfold WSRS.write at 1.
  set (s2 := WSRS.mkstate rng (WSRS.self rng s1) (<[ref := w']> (WSRS.heap rng s1))
               (WSRS.gen rng s1)).
  assert (Hblen : (0 < length (unique a))%nat).
  { specialize (Hune Ha). destruct (unique a); [congruence|simpl; lia]. }
  assert (Hw' : WSRS.heap rng s2 !! ref = Some w').
  { simpl. apply list_lookup_insert_eq. eapply lookup_lt_Some; eauto. }
  destruct (IH (have + Z.of_nat (length (unique a))) (samples ++ unique a) w' s2
              Hw' ltac:(lia))
    as (o & s' & Hrun & Hself & Hheap & Hframe & Hout).
  exists o, s'. split; [exact Hrun|]. split; [rewrite Hself; reflexivity|].
  split; [rewrite Hheap; simpl; apply length_insert|].
  split.
  { intros r Hr. rewrite (Hframe r Hr). simpl.
    apply list_lookup_insert_ne. congruence. }
  assert (Hpos' : forall i, In i (positive_indices w') ->
                    In i (positive_indices w) /\ ~ In i (unique a)).
  { intros i Hi. apply in_positive_indices in Hi as [x [Hx Hxpos]].
    unfold w' in Hx. rewrite lookup_fill in Hx.
    destruct (decide (i ∈ unique a)) as [Hia|Hia].
    - destruct (w !! i); simpl in Hx; [|discriminate]. inversion Hx; subst. lra.
    - split; [apply in_positive_indices; eauto|].
      rewrite <- list_elem_of_In. exact Hia. }
  assert (Hcount : (length (positive_indices w)
                    <= length (positive_indices w') + length (unique a))%nat).
  { rewrite <- length_app. apply List.NoDup_incl_length.
    - apply NoDup_positive_indices.
    - intros i Hi. apply in_app_iff.
      destruct (in_dec Nat.eq_dec i (unique a)) as [Hia|Hia]; [right; exact Hia|left].
      apply in_positive_indices in Hi as [x [Hx Hxpos]].
      apply in_positive_indices. exists x. split; [|exact Hxpos].
      unfold w'. rewrite lookup_fill.
      destruct (decide (i ∈ unique a)) as [Hia'|_]; [|exact Hx].
      rewrite list_elem_of_In in Hia'. contradiction. }
  destruct o as [r|e|]; [| |lia].
  2:{ destruct Hout as [[-> Hneg]|(-> & _ & Hfew)];
        [exfalso|right; split; [reflexivity|]; split; [exact Hnn|lia]].
      apply existsb_exists in Hneg as [x [Hx Hxneg]].
      apply In_lookup in Hx as [i Hi]. unfold w' in Hi. rewrite lookup_fill in Hi.
      assert (Hold : forall y, w !! i = Some y -> Qle_bool 0 y = true).
      { intros y Hy. destruct (Qle_bool 0 y) eqn:Ey; [reflexivity|exfalso].
        assert (Hex : existsb (fun x => negb (Qle_bool 0 x)) w = true).
        { apply existsb_exists. exists y. split; [apply In_lookup; eauto|].
          rewrite Ey. reflexivity. }
        congruence. }
      destruct (decide (i ∈ unique a)).
      - destruct (w !! i); simpl in Hi; [|discriminate]. inversion Hi; subst.
        discriminate Hxneg.
      - rewrite (Hold x Hi) in Hxneg. discriminate Hxneg. }
  destruct Hout as (new & -> & Hnew_nd & Hnew_len & Hnew_pos).
  exists (unique a ++ new). rewrite app_assoc. split; [reflexivity|].
  split; [|split].
  - apply List.NoDup_app; [exact Hnd|exact Hnew_nd|].
    intros i Hi Hi'. apply Hnew_pos, Hpos' in Hi'. tauto.
  - rewrite length_app. lia.
  - intros i Hi. apply in_app_iff in Hi as [Hi|Hi]; [auto|].
    apply Hnew_pos, Hpos' in Hi. tauto.
Qed.

End Sample.


Lemma first_positive_spec (w : list Q) (k : nat) :
  positive_indices w <> [] ->
  exists j x, first_positive k w = (k + j)%nat /\ w !! j = Some x /\ (0 < x)%Q.
Proof.
  revert k. induction w as [|y w IH]; intros k Hne.
  - exfalso. apply Hne. reflexivity.
  - simpl. destruct (Qle_bool y 0) eqn:E.
    + destruct (IH (S k)) as (j & x & Hj & Hx & Hpos).
      { intros Hnil. destruct (positive_indices (y :: w)) as [|i l] eqn:Ei; [congruence|].
        assert (Hin : In i (positive_indices (y :: w))) by (rewrite Ei; left; reflexivity).
        apply in_positive_indices in Hin as [x [Hx Hpos]].
        destruct i as [|i]; simpl in Hx.
        - inversion Hx; subst. apply Qle_bool_iff in E. lra.
        - assert (Hin : In i (positive_indices w)) by (apply in_positive_indices; eauto).
          rewrite Hnil in Hin. destruct Hin. }
      exists (S j), x. split; [lia|]. split; [exact Hx|exact Hpos].
    + exists 0%nat, y. split; [lia|]. split; [reflexivity|].
      destruct (Qlt_le_dec 0 y) as [H|H]; [exact H|].
      apply Qle_bool_iff in H. congruence.
Qed.

Lemma first_draw_spec (g : unit) (w : list Q) (n : nat) :
  positive_indices w <> [] ->
  length (fst (first_draw g w n)) = n /\
  forall i, In i (fst (first_draw g w n)) -> In i (positive_indices w).
Proof.
  intros Hne. unfold first_draw. simpl. split; [apply repeat_length|].
  intros i Hi. apply repeat_spec in Hi. subst i.
  destruct (first_positive_spec w 0 Hne) as (j & x & -> & Hx & Hpos).
  apply in_positive_indices. eauto.
Qed.

Section SampleTheorems.

Variable rng : Type.
Variable multinomial_draw : rng -> list Q -> nat -> list nat * rng.
Hypothesis multinomial_draw_spec :
  forall g w n,
    positive_indices w <> [] ->
    length (fst (multinomial_draw g w n)) = n /\
    forall i, In i (fst (multinomial_draw g w n)) -> In i (positive_indices w).

(** [sample]: the outcome and the state reached. *)
Lemma sample_spec (fuel ref : nat) (want : Z) (w : list Q) (s : WSRS.state rng) :
  WSRS.heap rng s !! ref = Some w ->
  exists o s',
    WSRS.sample rng multinomial_draw fuel ref want s = (o, s') /\
    WSRS.self rng s' = WSRS.self rng s /\
    length (WSRS.heap rng s') = length (WSRS.heap rng s) /\
    (forall r, r <> ref -> WSRS.heap rng s' !! r = WSRS.heap rng s !! r) /\
    match o with
    | OutOfFuel => (fuel <= Z.to_nat want)%nat
    | Exc e =>
        (e = RuntimeError NegativeSize /\ want < 0) \/
        (e = RuntimeError NegativeProbability /\ 0 <= want /\
         existsb (fun x => negb (Qle_bool 0 x)) w = true) \/
        (e = RuntimeError ZeroProbabilities /\ 0 <= want /\
         existsb (fun x => negb (Qle_bool 0 x)) w = false /\
         Z.of_nat (length (positive_indices w)) < want)
    | Done r =>
        List.NoDup r /\ Z.of_nat (length r) = want /\
        forall i, In i r -> In i (positive_indices w)
    end.
Proof.
  intros Hw. unfold WSRS.sample. destruct (want <? 0) eqn:E.
  - exists (Exc (RuntimeError NegativeSize)), s.
    split; [reflexivity|]. repeat split; auto. left. split; [reflexivity|lia].
  - destruct (sample_loop_spec rng multinomial_draw multinomial_draw_spec
                fuel ref want 0 [] w s Hw ltac:(lia))
      as (o & s' & Hrun & Hself & Hheap & Hframe & Hout).
    exists o, s'. split; [exact Hrun|]. repeat split; auto.
    destruct o as [r|e|]; [| |rewrite Z.sub_0_r in Hout; exact Hout].
    + destruct Hout as (new & -> & Hnd & Hlen & Hpos). simpl.
      split; [exact Hnd|]. split; [lia|exact Hpos].
    + right. destruct Hout as [[-> H]|(-> & H1 & H2)]; [left|right].
      * split; [reflexivity|]. split; [lia|exact H].
      * split; [reflexivity|]. split; [lia|]. split; [exact H1|lia].
Qed.

(** C9 (amended): the draw without replacement never loops for ever: given
    one more unit of fuel than the requested count it returns or raises.
    When the requested count exceeds the number of indices of nonzero
    weight, it raises the [RuntimeError] with which [torch.multinomial]
    rejects an invalid distribution (weights that sum to zero once the
    positive ones have been drawn, or a negative weight): the code has no
    check of its own and the error says nothing about the request.  It
    returns pairwise distinct indices, as many as requested, when the
    weights are non-negative and enough of them are positive. *)
Theorem sample_terminates (fuel ref : nat) (want : Z) (w : list Q)
    (s : WSRS.state rng) :
  WSRS.heap rng s !! ref = Some w ->
  (Z.to_nat want < fuel)%nat ->
  exists o s',
    WSRS.sample rng multinomial_draw fuel ref want s = (o, s') /\
    o <> OutOfFuel /\
    (Z.of_nat (length (nonzero_indices w)) < want ->
     o = Exc (RuntimeError
                (if existsb (fun x => negb (Qle_bool 0 x)) w
                 then NegativeProbability else ZeroProbabilities))) /\
    (existsb (fun x => negb (Qle_bool 0 x)) w = false ->
     0 <= want <= Z.of_nat (length (positive_indices w)) ->
     exists r, o = Done r /\ List.NoDup r /\ Z.of_nat (length r) = want /\
               forall i, In i r -> In i (positive_indices w)).
Proof.
  intros Hw Hfuel.
  destruct (sample_spec fuel ref want w s Hw)
    as (o & s' & Hrun & _ & _ & _ & Hout).
  exists o, s'. split; [exact Hrun|].
  assert (Hle : (length (positive_indices w) <= length (nonzero_indices w))%nat).
  { apply List.NoDup_incl_length;
      [apply NoDup_positive_indices|apply positive_incl_nonzero]. }
  destruct o as [r|e|]; [| |lia].
  - destruct Hout as (Hnd & Hlen & Hpos).
    split; [discriminate|]. split.
    + intros Hfew. exfalso.
      pose proof (List.NoDup_incl_length Hnd Hpos). lia.
    + intros _ _. exists r. auto.
  - split; [discriminate|]. split.
    + intros Hfew.
      destruct Hout as [[-> H]|[(-> & _ & H)|(-> & _ & H & _)]];
        [lia|rewrite H; reflexivity|rewrite H; reflexivity].
    + intros Hnn Hwant. exfalso.
      destruct Hout as [[_ H]|[(_ & _ & H)|(_ & _ & _ & H)]];
        [lia|congruence|lia].
Qed.

End SampleTheorems.

(** Three samples are requested from the weights 1, 0, 2.  The two
    positive weights are drawn and set to zero, and the third iteration
    raises what [torch.multinomial] raises whenever it is given weights
    that sum to zero, also for a single sample: the error is torch's
    complaint about the distribution, not a report of insufficient
    samples. *)
Lemma sample_terminates_counterexample :
  Z.of_nat (length (nonzero_indices [1; 0; 2]%Q)) < 3 /\
  WSRS.sample unit first_draw 4 0 3
    (WSRS.mkstate unit (WSRS.mk 0 2 (1 # 10) (1 # 20) 3 2 0 [] []) [[1; 0; 2]%Q] tt)
  = (Exc (RuntimeError ZeroProbabilities),
     WSRS.mkstate unit (WSRS.mk 0 2 (1 # 10) (1 # 20) 3 2 0 [] []) [[0; 0; 0]%Q] tt) /\
  WSRS.multinomial unit first_draw [0; 0; 0]%Q 1
    (WSRS.mkstate unit (WSRS.mk 0 2 (1 # 10) (1 # 20) 3 2 0 [] []) [[0; 0; 0]%Q] tt)
  = (Exc (RuntimeError ZeroProbabilities),
     WSRS.mkstate unit (WSRS.mk 0 2 (1 # 10) (1 # 20) 3 2 0 [] []) [[0; 0; 0]%Q] tt).
Proof. split; [simpl; lia|]. split; vm_compute; reflexivity. Qed.

Lemma sample_terminates_witness :
  WSRS.heap unit
    (WSRS.mkstate unit (WSRS.mk 0 2 (1 # 10) (1 # 20) 3 2 0 [] []) [[1; 0; 2]%Q] tt)
    !! 0%nat = Some [1; 0; 2]%Q /\
  (Z.to_nat 3 < 4)%nat /\
  exists o s',
    WSRS.sample unit first_draw 4 0 3
      (WSRS.mkstate unit (WSRS.mk 0 2 (1 # 10) (1 # 20) 3 2 0 [] []) [[1; 0; 2]%Q] tt)
      = (o, s') /\
    o <> OutOfFuel /\
    (Z.of_nat (length (nonzero_indices [1; 0; 2]%Q)) < 3 ->
     o = Exc (RuntimeError
                (if existsb (fun x => negb (Qle_bool 0 x)) [1; 0; 2]%Q
                 then NegativeProbability else ZeroProbabilities))) /\
    (existsb (fun x => negb (Qle_bool 0 x)) [1; 0; 2]%Q = false ->
     0 <= 3 <= Z.of_nat (length (positive_indices [1; 0; 2]%Q)) ->
     exists r, o = Done r /\ List.NoDup r /\ Z.of_nat (length r) = 3 /\
               forall i, In i r -> In i (positive_indices [1; 0; 2]%Q)).
Proof.
  split; [reflexivity|]. split; [simpl; lia|].
  apply (sample_terminates unit first_draw first_draw_spec 4 0 3 [1; 0; 2]%Q).
  - reflexivity.
  - simpl. lia.
Defined.


Section Frame.

Variable rng : Type.
Variable torch_randperm : rng -> nat -> list nat * rng.
Variable multinomial_draw : rng -> list Q -> nat -> list nat * rng.

Local Abbreviation state := (WSRS.state rng).
Local Abbreviation heap := (WSRS.heap rng).
Local Abbreviation self := (WSRS.self rng).

Lemma frames_bind {A B : Type} (n0 : nat) (m : M state A) (f : A -> M state B)
    (Q : A -> Prop) (Q' : B -> Prop) :
  frames rng n0 m Q -> (forall a, Q a -> frames rng n0 (f a) Q') ->
  frames rng n0 (m ≫= f) Q'.
Proof.
  intros Hm Hf s Hs. destruct (Hm s Hs) as (H1 & H2 & H3 & H4).
  unfold mbind, M_bind. destruct (m s) as [[a|e|] s1] eqn:E; simpl in *.
  - destruct (Hf a (H4 a eq_refl) s1 H1) as (G1 & G2 & G3 & G4).
    split; [exact G1|]. split; [|split; [congruence|exact G4]].
    intros r Hr. rewrite G2, H2 by exact Hr. reflexivity.
  - repeat split; auto. discriminate.
  - repeat split; auto. discriminate.
Qed.

Lemma frames_weaken {A : Type} (n0 : nat) (m : M state A) (Q Q' : A -> Prop) :
  frames rng n0 m Q -> (forall a, Q a -> Q' a) -> frames rng n0 m Q'.
Proof.
  intros Hm HQ s Hs. destruct (Hm s Hs) as (H1 & H2 & H3 & H4). repeat split; auto.
Qed.

Lemma frames_ret {A : Type} (n0 : nat) (a : A) : frames rng n0 (mret a) (fun _ => True).
Proof. intros s Hs. simpl. repeat split; auto. Qed.

Lemma frames_raise {A : Type} (n0 : nat) (e : exn) :
  frames rng n0 (raise e : M state A) (fun _ => True).
Proof. intros s Hs. simpl. repeat split; auto. Qed.

Lemma frames_get_self (n0 : nat) : frames rng n0 (WSRS.get_self rng) (fun _ => True).
Proof. intros s Hs. simpl. repeat split; auto. Qed.

Lemma frames_set_self (n0 : nat) (f : WSRS.t -> WSRS.t) :
  (forall me, WSRS.weights (f me) = WSRS.weights me) ->
  frames rng n0 (WSRS.set_self rng f) (fun _ => True).
Proof. intros Hf s Hs. simpl. repeat split; auto. Qed.

Lemma frames_alloc (n0 : nat) (w : list Q) :
  frames rng n0 (WSRS.alloc rng w) (fun a => (n0 <= a)%nat).
Proof.
  intros s Hs. simpl. rewrite length_app. split; [lia|].
  split; [|split; [reflexivity|]].
  - intros r Hr. apply lookup_app_l. lia.
  - intros a H. inversion H. lia.
Qed.

Lemma frames_read (n0 r : nat) : frames rng n0 (WSRS.read rng r) (fun _ => True).
Proof.
  intros s Hs. unfold WSRS.read. destruct (heap s !! r); simpl; repeat split; auto.
Qed.

Lemma frames_write (n0 r : nat) (w : list Q) :
  (n0 <= r)%nat -> frames rng n0 (WSRS.write rng r w) (fun _ => True).
Proof.
  intros Hr s Hs. simpl. rewrite length_insert. split; [exact Hs|].
  split; [|split; auto].
  intros r' Hr'. apply list_lookup_insert_ne. lia.
Qed.

Lemma frames_lift {A : Type} (n0 : nat) (x : result A) :
  frames rng n0 (WSRS.lift rng x) (fun _ => True).
Proof. intros s Hs. destruct x; simpl; repeat split; auto. Qed.

Lemma frames_randperm (n0 n : nat) :
  frames rng n0 (WSRS.randperm rng torch_randperm n) (fun _ => True).
Proof.
  intros s Hs. unfold WSRS.randperm. destruct (torch_randperm _ n). simpl.
  repeat split; auto.
Qed.

Lemma frames_multinomial (n0 : nat) (w : list Q) (n : Z) :
  frames rng n0 (WSRS.multinomial rng multinomial_draw w n) (fun _ => True).
Proof.
  intros s Hs. unfold WSRS.multinomial.
  destruct (n <=? 0); [simpl; repeat split; auto|].
  destruct (existsb _ w); [simpl; repeat split; auto|].
  destruct (Qle_bool _ 0); [simpl; repeat split; auto|].
  destruct (multinomial_draw _ w _). simpl. repeat split; auto.
Qed.

Lemma frames_sample_loop (n0 fuel ref : nat) (want : Z) :
  (n0 <= ref)%nat ->
  forall have samples,
    frames rng n0 (WSRS.sample_loop rng multinomial_draw fuel ref want have samples)
           (fun _ => True).
Proof.
  intros Href. induction fuel as [|fuel IH]; intros have samples; simpl.
  - intros s Hs. simpl. repeat split; auto.
  - destruct (have <? want); [|apply frames_ret].
    eapply frames_bind; [apply frames_read|]. intros w _.
    eapply frames_bind; [apply frames_multinomial|]. intros a _.
    destruct (want <? _); [apply frames_raise|].
    eapply frames_bind; [apply frames_lift|]. intros w' _.
    eapply frames_bind; [apply frames_write; exact Href|]. intros _ _.
    apply IH.
Qed.

Lemma frames_sample (n0 fuel ref : nat) (want : Z) :
  (n0 <= ref)%nat ->
  frames rng n0 (WSRS.sample rng multinomial_draw fuel ref want) (fun _ => True).
Proof.
  intros Href. unfold WSRS.sample. destruct (want <? 0); [apply frames_raise|].
  apply frames_sample_loop. exact Href.
Qed.

Lemma frames_draw_hard_easy (n0 fuel : nat) (me : WSRS.t) :
  frames rng n0 (WSRS.draw_hard_easy rng multinomial_draw fuel me) (fun _ => True).
Proof.
  unfold WSRS.draw_hard_easy.
  eapply frames_bind; [apply frames_read|]. intros w _.
  eapply frames_bind; [apply frames_lift|]. intros max_w _.
  eapply frames_bind; [apply frames_alloc|]. intros easy_w Heasy.
  eapply frames_bind; [apply frames_sample; exact Heasy|]. intros easy_idx _.
  eapply frames_bind; [apply frames_read|]. intros w2 _.
  eapply frames_bind; [apply frames_alloc|]. intros hard_w Hhard.
  eapply frames_bind; [apply frames_read|]. intros w3 _.
  eapply frames_bind; [apply frames_lift|]. intros w' _.
  eapply frames_bind; [apply frames_write; exact Hhard|]. intros _ _.
  eapply frames_bind; [apply frames_sample; exact Hhard|]. intros hard_idx _.
  apply frames_ret.
Qed.

Lemma frames_update (n0 fuel : nat) :
  frames rng n0 (WSRS.update rng torch_randperm multinomial_draw fuel) (fun _ => True).
Proof.
  unfold WSRS.update.
  eapply frames_bind; [apply frames_get_self|]. intros me _.
  eapply frames_bind; [apply frames_set_self; reflexivity|]. intros _ _.
  eapply frames_bind; [apply frames_get_self|]. intros me1 _.
  eapply frames_bind.
  { destruct (WSRS.step me1 <? WSRS.step_inc me1).
    - apply frames_set_self. reflexivity.
    - eapply frames_bind; [apply frames_draw_hard_easy|]. intros [hard easy] _.
      eapply frames_bind; [apply frames_randperm|]. intros p _.
      apply frames_set_self. reflexivity. }
  intros _ _.
  eapply frames_bind; [apply frames_get_self|]. intros me2 _.
  destruct (_ && _); [apply frames_set_self; reflexivity|apply frames_ret].
Qed.

(** C10: a call to [update] leaves the tensor of weights of the sampler as
    it was, whether the call returns or raises: the draws write only to
    the tensors that [update] has created itself.  The reference [weights]
    is not changed either. *)
Theorem update_keeps_weights (fuel : nat) (s : state) :
  (WSRS.weights (self s) < length (heap s))%nat ->
  let s' := snd (WSRS.update rng torch_randperm multinomial_draw fuel s) in
  WSRS.weights (self s') = WSRS.weights (self s) /\
  heap s' !! WSRS.weights (self s') = heap s !! WSRS.weights (self s).
Proof.
  intros Hvalid s'.
  destruct (frames_update (length (heap s)) fuel s (Nat.le_refl _))
    as (_ & Hheap & Hw & _).
  fold s' in Hheap, Hw. split; [exact Hw|]. rewrite Hw. apply Hheap. exact Hvalid.
Qed.

End Frame.


Lemma map_nth_seq {A : Type} (d : A) (l : list A) :
  map (fun i => nth i l d) (seq 0 (length l)) = l.
Proof.
  induction l as [|x l IH]; simpl; [reflexivity|].
  rewrite <- seq_shift, map_map. simpl. rewrite IH. reflexivity.
Qed.

Lemma permuted_by_index {A : Type} (d : A) (l : list A) (p : list nat) :
  Permutation p (seq 0 (length l)) -> Permutation (map (fun i => nth i l d) p) l.
Proof.
  intros H. eapply Permutation_trans; [apply Permutation_map; exact H|].
  rewrite map_nth_seq. apply Permutation_refl.
Qed.

Section SelfFields.

Variable rng : Type.
Variable torch_randperm : rng -> nat -> list nat * rng.
Variable multinomial_draw : rng -> list Q -> nat -> list nat * rng.

Local Abbreviation state := (WSRS.state rng).
Local Abbreviation heap := (WSRS.heap rng).
Local Abbreviation self := (WSRS.self rng).

Lemma keeps_self_bind {A B : Type} (m : M state A) (f : A -> M state B) :
  keeps_self rng m -> (forall a, keeps_self rng (f a)) -> keeps_self rng (m ≫= f).
Proof.
  intros Hm Hf s. specialize (Hm s). unfold mbind, M_bind.
  destruct (m s) as [[a|e|] s1]; simpl in *; [|exact Hm|exact Hm].
  rewrite Hf. exact Hm.
Qed.

Lemma keeps_self_sample_loop (fuel ref : nat) (want : Z) :
  forall have samples,
    keeps_self rng (WSRS.sample_loop rng multinomial_draw fuel ref want have samples).
Proof.
  induction fuel as [|fuel IH]; intros have samples; simpl; [intros s; reflexivity|].
  destruct (have <? want); [|intros s; reflexivity].
  apply keeps_self_bind.
  { intros s. unfold WSRS.read. destruct (heap s !! ref); reflexivity. }
  intros w. apply keeps_self_bind.
  { intros s. unfold WSRS.multinomial.
    destruct (_ <=? 0); [reflexivity|]. destruct (existsb _ w); [reflexivity|].
    destruct (Qle_bool _ 0); [reflexivity|].
    destruct (multinomial_draw _ w _). reflexivity. }
  intros a. destruct (want <? _); [intros s; reflexivity|].
  apply keeps_self_bind.
  { intros s. destruct (index_fill _ _ _); reflexivity. }
  intros w'. apply keeps_self_bind; [intros s; reflexivity|].
  intros _. apply IH.
Qed.

Lemma keeps_self_sample (fuel ref : nat) (want : Z) :
  keeps_self rng (WSRS.sample rng multinomial_draw fuel ref want).
Proof.
  unfold WSRS.sample. destruct (want <? 0); [intros s; reflexivity|].
  apply keeps_self_sample_loop.
Qed.

Lemma keeps_self_draw_hard_easy (fuel : nat) (me : WSRS.t) :
  keeps_self rng (WSRS.draw_hard_easy rng multinomial_draw fuel me).
Proof.
  unfold WSRS.draw_hard_easy.
  apply keeps_self_bind.
  { intros s. unfold WSRS.read. destruct (heap s !! _); reflexivity. }
  intros w. apply keeps_self_bind.
  { intros s. destruct (torch_max w); reflexivity. }
  intros max_w. apply keeps_self_bind; [intros s; reflexivity|].
  intros easy_w. apply keeps_self_bind; [apply keeps_self_sample|].
  intros easy_idx. apply keeps_self_bind.
  { intros s. unfold WSRS.read. destruct (heap s !! _); reflexivity. }
  intros w2. apply keeps_self_bind; [intros s; reflexivity|].
  intros hard_w. apply keeps_self_bind.
  { intros s. unfold WSRS.read. destruct (heap s !! _); reflexivity. }
  intros w3. apply keeps_self_bind.
  { intros s. destruct (index_fill _ _ _); reflexivity. }
  intros w'. apply keeps_self_bind; [intros s; reflexivity|].
  intros _. apply keeps_self_bind; [apply keeps_self_sample|].
  intros hard_idx s. reflexivity.
Qed.

Lemma keeps_self_update_weights (ws : list Q) (idx : list nat) :
  keeps_self rng (WSRS.update_weights rng ws idx).
Proof.
  unfold WSRS.update_weights.
  apply keeps_self_bind; [intros s; reflexivity|].
  intros me. apply keeps_self_bind.
  { intros s. unfold WSRS.read. destruct (heap s !! _); reflexivity. }
  intros w. apply keeps_self_bind.
  { intros s. destruct (index_put _ _ _); reflexivity. }
  intros w' s. reflexivity.
Qed.

Lemma update_unfold (fuel : nat) (s : state) :
  let me1 := WSRS.set_step (WSRS.step (self s) + 1) (self s) in
  let s1 := WSRS.mkstate rng me1 (heap s) (WSRS.gen rng s) in
  WSRS.update rng torch_randperm multinomial_draw fuel s =
    match update_body rng torch_randperm multinomial_draw fuel me1 s1 with
    | (Done _, s2) => (Done tt, update_rate rng s2)
    | (Exc e, s2) => (Exc e, s2)
    | (OutOfFuel, s2) => (OutOfFuel, s2)
    end.
Proof.
  intros me1 s1. unfold WSRS.update.
  unfold mbind at 1, M_bind at 1. unfold WSRS.get_self at 1.
  unfold mbind at 1, M_bind at 1. unfold WSRS.set_self at 1.
  unfold mbind at 1, M_bind at 1. unfold WSRS.get_self at 1.
  cbn [WSRS.self WSRS.heap WSRS.gen]. fold me1. fold s1.
  unfold mbind at 1, M_bind at 1.
  change (if WSRS.step me1 <? WSRS.step_inc me1 then _ else _)
    with (update_body rng torch_randperm multinomial_draw fuel me1).
  destruct (update_body rng torch_randperm multinomial_draw fuel me1 s1) as [[[]|e|] s2]; try reflexivity.
  unfold mbind, M_bind, WSRS.get_self, update_rate.
  destruct (_ && _); reflexivity.
Qed.

Lemma update_body_self (fuel : nat) (me : WSRS.t) (s : state) :
  self s = me ->
  exists v, self (snd (update_body rng torch_randperm multinomial_draw fuel me s)) = WSRS.set_indices v me.
Proof.
  intros Hme. unfold update_body. destruct (WSRS.step me <? WSRS.step_inc me).
  - simpl. rewrite Hme. eexists. reflexivity.
  - pose proof (keeps_self_draw_hard_easy fuel me s) as Hd.
    unfold mbind, M_bind.
    destruct (WSRS.draw_hard_easy rng multinomial_draw fuel me s)
      as [[[hard easy]|e|] s2]; simpl in Hd.
    + unfold WSRS.randperm. destruct (torch_randperm _ _) as [p g]. simpl.
      rewrite Hd, Hme. eexists. reflexivity.
    + exists (WSRS.indices me). simpl. rewrite Hd, Hme. destruct me. reflexivity.
    + exists (WSRS.indices me). simpl. rewrite Hd, Hme. destruct me. reflexivity.
Qed.

(** The fields of the sampler after a call to [update], whatever its
    outcome: the step is incremented, the parameters are kept, and the
    rate is kept or replaced by [next_rate]. *)
Lemma update_self (fuel : nat) (s : state) :
  let me := self s in
  let me' := self (snd (WSRS.update rng torch_randperm multinomial_draw fuel s)) in
  WSRS.step me' = WSRS.step me + 1 /\
  WSRS.step_inc me' = WSRS.step_inc me /\
  WSRS.rate_increase me' = WSRS.rate_increase me /\
  WSRS.total_samples me' = WSRS.total_samples me /\
  WSRS.num_samples me' = WSRS.num_samples me /\
  WSRS.initial me' = WSRS.initial me /\
  (WSRS.rate me' = WSRS.rate me \/
   WSRS.rate me' = next_rate me).
Proof.
  intros me me'. subst me'. rewrite update_unfold.
  set (me1 := WSRS.set_step (WSRS.step (self s) + 1) (self s)).
  set (s1 := WSRS.mkstate rng me1 (heap s) (WSRS.gen rng s)).
  destruct (update_body_self fuel me1 s1 eq_refl) as [v Hv].
  destruct (update_body rng torch_randperm multinomial_draw fuel me1 s1) as [[[]|e|] s2]; simpl in Hv |- *.
  - unfold update_rate. rewrite Hv.
    destruct (_ && _); simpl; rewrite ?Hv; simpl; repeat split; auto.
  - rewrite Hv. simpl. repeat split; auto.
  - rewrite Hv. simpl. repeat split; auto.
Qed.

End SelfFields.


Section Curriculum.

Variable rng : Type.
Variable torch_randperm : rng -> nat -> list nat * rng.
Variable multinomial_draw : rng -> list Q -> nat -> list nat * rng.
Hypothesis torch_randperm_spec :
  forall g n, Permutation (fst (torch_randperm g n)) (seq 0 n).
Hypothesis multinomial_draw_spec :
  forall g w n,
    positive_indices w <> [] ->
    length (fst (multinomial_draw g w n)) = n /\
    forall i, In i (fst (multinomial_draw g w n)) -> In i (positive_indices w).

Local Abbreviation state := (WSRS.state rng).
Local Abbreviation heap := (WSRS.heap rng).
Local Abbreviation self := (WSRS.self rng).

Lemma read_done (r : nat) (s s' : state) (w : list Q) :
  WSRS.read rng r s = (Done w, s') -> s' = s /\ heap s !! r = Some w.
Proof.
  unfold WSRS.read. destruct (heap s !! r); intros H; inversion H; auto.
Qed.

Lemma lift_done {A : Type} (x : result A) (s s' : state) (a : A) :
  WSRS.lift rng x s = (Done a, s') -> s' = s /\ x = Ok a.
Proof. destruct x; simpl; intros H; inversion H; auto. Qed.

Lemma sample_done (fuel ref : nat) (want : Z) (w : list Q) (s s' : state)
    (r : list nat) :
  heap s !! ref = Some w ->
  WSRS.sample rng multinomial_draw fuel ref want s = (Done r, s') ->
  List.NoDup r /\ Z.of_nat (length r) = want /\
  (forall i, In i r -> In i (positive_indices w)) /\
  length (heap s') = length (heap s) /\
  (forall r', r' <> ref -> heap s' !! r' = heap s !! r').
Proof.
  intros Hw Hrun.
  destruct (sample_spec rng multinomial_draw multinomial_draw_spec fuel ref want w s Hw)
    as (o & s1 & Hrun' & _ & Hlen & Hframe & Hout).
  rewrite Hrun in Hrun'. inversion Hrun'; subst o s1.
  destruct Hout as (H1 & H2 & H3). auto.
Qed.

(** The two draws of the curriculum branch, when they return: pairwise
    distinct hard indices and pairwise distinct easy indices, no index in
    both, [n_hard] of the former and [n_easy] of the latter. *)
Lemma draw_hard_easy_done (fuel : nat) (me : WSRS.t) (s s' : state)
    (hard easy : list nat) :
  WSRS.draw_hard_easy rng multinomial_draw fuel me s = (Done (hard, easy), s') ->
  List.NoDup hard /\ List.NoDup easy /\
  (forall i, In i hard -> ~ In i easy) /\
  Z.of_nat (length hard) = WSRS.n_hard me /\
  Z.of_nat (length easy) = WSRS.n_easy me.
Proof.
  unfold WSRS.draw_hard_easy. intros H.
  apply bind_done in H as (w & s1 & Hread & H).
  apply read_done in Hread as [-> Hw].
  apply bind_done in H as (max_w & s1 & Hmax & H).
  apply lift_done in Hmax as [-> Hmax].
  apply bind_done in H as (easy_w & s1 & Halloc & H).
  inversion Halloc; subst easy_w s1. clear Halloc.
  apply bind_done in H as (easy_idx & s2 & Heasy & H).
  eapply sample_done in Heasy as (He_nd & He_len & _ & _ & _).
  2:{ simpl. apply list_lookup_middle. reflexivity. }
  apply bind_done in H as (w2 & s3 & Hread2 & H).
  apply read_done in Hread2 as [-> Hw2].
  apply bind_done in H as (hard_w & s3 & Halloc & H).
  inversion Halloc; subst hard_w s3. clear Halloc.
  apply bind_done in H as (w3 & s4 & Hread3 & H).
  apply read_done in Hread3 as [-> Hw3].
  apply bind_done in H as (w' & s4 & Hfill & H).
  apply lift_done in Hfill as [-> Hfill].
  apply index_fill_inv in Hfill as [Hw' Hlt].
  apply bind_done in H as ([] & s5 & Hwrite & H).
  inversion Hwrite; subst s5. clear Hwrite.
  apply bind_done in H as (hard_idx & s6 & Hhard & H).
  eapply sample_done in Hhard as (Hh_nd & Hh_len & Hh_pos & _ & _).
  2:{ simpl. apply list_lookup_insert_eq. rewrite length_app. simpl. lia. }
  inversion H; subst. clear H.
  repeat split; auto.
  intros i Hi Hi'. apply Hh_pos, in_positive_indices in Hi as [x [Hx Hpos]].
  rewrite lookup_fill in Hx.
  destruct (decide (i ∈ easy)) as [_|Hn]; [|apply Hn, list_elem_of_In; exact Hi'].
  destruct (w3 !! i); simpl in Hx; [|discriminate]. inversion Hx; subst. lra.
Qed.

(** The state after [update] in the curriculum state, when it returns. *)
Lemma update_curriculum_done (fuel : nat) (s s' : state) :
  WSRS.step_inc (self s) <= WSRS.step (self s) + 1 ->
  WSRS.update rng torch_randperm multinomial_draw fuel s = (Done tt, s') ->
  exists hard easy s1 s2,
    WSRS.draw_hard_easy rng multinomial_draw fuel
      (WSRS.set_step (WSRS.step (self s) + 1) (self s)) s1
      = (Done (hard, easy), s2) /\
    Permutation (WSRS.indices (self s')) (hard ++ easy) /\
    WSRS.num_samples (self s') = WSRS.num_samples (self s).
Proof.
  intros Hcur. rewrite update_unfold.
  set (me1 := WSRS.set_step (WSRS.step (self s) + 1) (self s)).
  set (s1 := WSRS.mkstate rng me1 (heap s) (WSRS.gen rng s)).
  destruct (update_body rng torch_randperm multinomial_draw fuel me1 s1)
    as [[[]|e|] s2] eqn:Hbody; intros H; inversion H; subst s'. clear H.
  unfold update_body in Hbody.
  destruct (WSRS.step me1 <? WSRS.step_inc me1) eqn:E.
  { apply Z.ltb_lt in E. unfold me1 in E. simpl in E. lia. }
  apply bind_done in Hbody as ([hard easy] & s3 & Hdraw & Hbody).
  pose proof (keeps_self_draw_hard_easy rng multinomial_draw fuel me1 s1) as Hself.
  rewrite Hdraw in Hself. simpl in Hself.
  apply bind_done in Hbody as (p & s4 & Hperm & Hbody).
  unfold WSRS.randperm in Hperm.
  pose proof (torch_randperm_spec (WSRS.gen rng s3) (length (hard ++ easy))) as Hp.
  destruct (torch_randperm _ _) as [p' g']. inversion Hperm; subst p' s4.
  clear Hperm. simpl in Hp. inversion Hbody; subst s2. clear Hbody.
  exists hard, easy, s1, s3. split; [exact Hdraw|].
  assert (Hind : forall st : state,
            WSRS.indices (self (update_rate rng st)) = WSRS.indices (self st) /\
            WSRS.num_samples (self (update_rate rng st)) = WSRS.num_samples (self st)).
  { intros st. unfold update_rate. destruct (_ && _); simpl; auto. }
  destruct (Hind (WSRS.mkstate rng
                    (WSRS.set_indices
                       (map (fun i => nth i (hard ++ easy) 0%nat) p)
                       (self s3)) (heap s3) g')) as [Hi Hn].
  match goal with
  | |- Permutation (WSRS.indices (self ?st)) _ /\ _ =>
      change st with (update_rate rng
                        (WSRS.mkstate rng
                           (WSRS.set_indices
                              (map (fun i => nth i (hard ++ easy) 0%nat) p)
                              (self s3)) (heap s3) g'))
  end.
  rewrite Hi, Hn. simpl. split.
  - apply permuted_by_index. exact Hp.
  - rewrite Hself. reflexivity.
Qed.

End Curriculum.


Lemma id_randperm_spec (g : unit) (n : nat) :
  Permutation (fst (id_randperm g n)) (seq 0 n).
Proof. apply Permutation_refl. Qed.

Section CurriculumTheorems.

Variable rng : Type.
Variable torch_randperm : rng -> nat -> list nat * rng.
Variable multinomial_draw : rng -> list Q -> nat -> list nat * rng.
Hypothesis torch_randperm_spec :
  forall g n, Permutation (fst (torch_randperm g n)) (seq 0 n).
Hypothesis multinomial_draw_spec :
  forall g w n,
    positive_indices w <> [] ->
    length (fst (multinomial_draw g w n)) = n /\
    forall i, In i (fst (multinomial_draw g w n)) -> In i (positive_indices w).

Local Abbreviation state := (WSRS.state rng).
Local Abbreviation self := (WSRS.self rng).

(** C6 (amended): in the curriculum state, an [update] that returns has
    split the budget into [int(budget * rate)] hard indices (the product
    of floats, rounded to a double and then truncated, not rounded up) and
    [budget - hard_count] easy indices; the indices of the epoch are the
    two draws in a random order. *)
Theorem update_split (fuel : nat) (s s' : state) :
  WSRS.step_inc (self s) <= WSRS.step (self s) + 1 ->
  WSRS.update rng torch_randperm multinomial_draw fuel s = (Done tt, s') ->
  exists hard easy s1 s2,
    WSRS.draw_hard_easy rng multinomial_draw fuel
      (WSRS.set_step (WSRS.step (self s) + 1) (self s)) s1
      = (Done (hard, easy), s2) /\
    Permutation (WSRS.indices (self s')) (hard ++ easy) /\
    Z.of_nat (length hard)
      = py_int (float_mul (inject_Z (WSRS.num_samples (self s)))
                          (WSRS.rate (self s))) /\
    Z.of_nat (length easy) = WSRS.num_samples (self s) - Z.of_nat (length hard).
Proof.
  intros Hcur Hrun.
  destruct (update_curriculum_done rng torch_randperm multinomial_draw
              torch_randperm_spec fuel s s' Hcur Hrun)
    as (hard & easy & s1 & s2 & Hdraw & Hperm & _).
  destruct (draw_hard_easy_done rng multinomial_draw multinomial_draw_spec
              fuel _ s1 s2 hard easy Hdraw) as (_ & _ & _ & Hh & He).
  exists hard, easy, s1, s2. split; [exact Hdraw|]. split; [exact Hperm|].
  unfold WSRS.n_easy in He. rewrite <- Hh in He.
  split; [exact Hh|exact He].
Qed.

(** The rate is a double, which the addition of a non-negative double does
    not decrease. *)
Lemma next_rate_bounds (me : WSRS.t) :
  (0 <= WSRS.rate_increase me)%Q -> (WSRS.rate me <= 1)%Q ->
  fl (WSRS.rate me) = WSRS.rate me ->
  (WSRS.rate me <= next_rate me)%Q /\ (next_rate me <= 1)%Q /\
  fl (next_rate me) = next_rate me.
Proof.
  intros Hinc Hr Hfl. unfold next_rate, float_add.
  assert (Hi : (0 <= fl (WSRS.rate_increase me))%Q).
  { change 0%Q with (fl 0). apply fl_le. exact Hinc. }
  assert (Hle : (WSRS.rate me
                 <= fl (fl (WSRS.rate me) + fl (WSRS.rate_increase me)))%Q).
  { rewrite <- Hfl at 1. rewrite <- (fl_idem (WSRS.rate me)) at 1.
    apply fl_le. lra. }
  destruct (Qle_bool (fl (fl (WSRS.rate me) + fl (WSRS.rate_increase me))) 1) eqn:E.
  - apply Qle_bool_iff in E. split; [exact Hle|]. split; [exact E|apply fl_idem].
  - split; [exact Hr|]. split; [apply Qle_refl|reflexivity].
Qed.

(** The parameters are kept and the step counts the calls to [update]. *)
Lemma reached_fields (s0 : state) (n : nat) (s : state) :
  reached rng torch_randperm multinomial_draw s0 n s ->
  (0 <= WSRS.rate_increase (self s0))%Q -> (WSRS.rate (self s0) <= 1)%Q ->
  fl (WSRS.rate (self s0)) = WSRS.rate (self s0) ->
  WSRS.step (self s) = WSRS.step (self s0) + Z.of_nat n /\
  WSRS.step_inc (self s) = WSRS.step_inc (self s0) /\
  WSRS.rate_increase (self s) = WSRS.rate_increase (self s0) /\
  WSRS.num_samples (self s) = WSRS.num_samples (self s0) /\
  (WSRS.rate (self s0) <= WSRS.rate (self s))%Q /\ (WSRS.rate (self s) <= 1)%Q /\
  fl (WSRS.rate (self s)) = WSRS.rate (self s).
Proof.
  intros Hreach Hinc Hr0 Hfl0.
  induction Hreach as [|n fuel s s' o _ IH Hrun _|n s s' o ws idx _ IH Hrun].
  - repeat split; try lra; [lia|exact Hfl0].
  - destruct IH as (H1 & H2 & H3 & H4 & H5 & H6 & H7).
    pose proof (update_self rng torch_randperm multinomial_draw fuel s) as Hu.
    rewrite Hrun in Hu. simpl in Hu.
    destruct Hu as (U1 & U2 & U3 & _ & U5 & _ & U7).
    assert (Hn : (WSRS.rate (self s) <= next_rate (self s))%Q
                 /\ (next_rate (self s) <= 1)%Q
                 /\ fl (next_rate (self s)) = next_rate (self s)).
    { apply next_rate_bounds; [rewrite H3; exact Hinc|exact H6|exact H7]. }
    destruct Hn as (N1 & N2 & N3).
    repeat split; try congruence; try lia.
    + destruct U7 as [->| ->]; lra.
    + destruct U7 as [->| ->]; lra.
    + destruct U7 as [->| ->]; assumption.
  - pose proof (keeps_self_update_weights rng ws idx s) as Hk.
    rewrite Hrun in Hk. simpl in Hk. rewrite Hk. exact IH.
Qed.

Lemma init_fields (num_samples sample_div : Z) (initial_rate rate_increase : Q)
    (h : list (list Q)) (g : rng) (s0 : state) :
  WSRS.__init__ rng torch_randperm num_samples sample_div initial_rate
                rate_increase h g = Ok s0 ->
  WSRS.step (self s0) = 0 /\ WSRS.step_inc (self s0) = sample_div /\
  WSRS.rate (self s0) = fl initial_rate /\
  WSRS.rate_increase (self s0) = fl rate_increase /\
  WSRS.num_samples (self s0) = WSRS.ceil_div num_samples sample_div /\
  (WSRS.weights (self s0) < length (WSRS.heap rng s0))%nat.
Proof.
  unfold WSRS.__init__. destruct (sample_div =? 0); [discriminate|].
  destruct (num_samples <? 0); [discriminate|].
  destruct (torch_randperm g _) as [p g']. intros H. inversion H; subst. simpl.
  rewrite length_app. simpl. repeat split; auto. lia.
Qed.

(** C5 (amended): for a sampler built with [rate_increase >= 0] and
    [initial_rate <= 1], the rate never decreases along any sequence of
    calls to [update] and [update_weights], starting from the double of
    [initial_rate], and stays at most 1; and when
    the n-th call to [update], with [n >= step_inc], returns, the indices
    of the epoch are pairwise distinct and there are [num_samples] of
    them. *)
Theorem curriculum_rate_and_indices (num_samples sample_div : Z)
    (initial_rate rate_increase : Q) (h : list (list Q)) (g : rng)
    (s0 s : state) (n : nat) :
  WSRS.__init__ rng torch_randperm num_samples sample_div initial_rate
                rate_increase h g = Ok s0 ->
  (0 <= rate_increase)%Q -> (initial_rate <= 1)%Q ->
  reached rng torch_randperm multinomial_draw s0 n s ->
  (fl initial_rate <= WSRS.rate (self s))%Q /\ (WSRS.rate (self s) <= 1)%Q /\
  forall fuel o s',
    WSRS.update rng torch_randperm multinomial_draw fuel s = (o, s') ->
    (WSRS.rate (self s) <= WSRS.rate (self s'))%Q /\
    (WSRS.rate (self s') <= 1)%Q /\
    (sample_div <= Z.of_nat (S n) -> o = Done tt ->
     List.NoDup (WSRS.indices (self s')) /\
     Z.of_nat (length (WSRS.indices (self s'))) = WSRS.num_samples (self s') /\
     WSRS.num_samples (self s') = WSRS.ceil_div num_samples sample_div).
Proof.
  intros Hinit Hinc Hr0 Hreach.
  destruct (init_fields _ _ _ _ _ _ _ Hinit) as (I1 & I2 & I3 & I4 & I5 & _).
  assert (Hinc' : (0 <= fl rate_increase)%Q).
  { change 0%Q with (fl 0). apply fl_le. exact Hinc. }
  assert (Hr0' : (fl initial_rate <= 1)%Q).
  { change 1%Q with (fl 1). apply fl_le. exact Hr0. }
  destruct (reached_fields s0 n s Hreach) as (H1 & H2 & H3 & H4 & H5 & H6 & H7);
    [rewrite I4; exact Hinc'|rewrite I3; exact Hr0'|rewrite I3; apply fl_idem|].
  rewrite I3 in H5. split; [exact H5|]. split; [exact H6|].
  intros fuel o s' Hrun.
  pose proof (update_self rng torch_randperm multinomial_draw fuel s) as Hu.
  rewrite Hrun in Hu. simpl in Hu. destruct Hu as (_ & _ & _ & _ & U5 & _ & U7).
  assert (Hn : (WSRS.rate (self s) <= next_rate (self s))%Q
               /\ (next_rate (self s) <= 1)%Q
               /\ fl (next_rate (self s)) = next_rate (self s)).
  { apply next_rate_bounds; [rewrite H3, I4; exact Hinc'|exact H6|exact H7]. }
  destruct Hn as (N1 & N2 & _).
  split; [destruct U7 as [->| ->]; lra|].
  split; [destruct U7 as [->| ->]; lra|].
  intros Hn_ge ->.
  assert (Hcur : WSRS.step_inc (self s) <= WSRS.step (self s) + 1).
  { rewrite H1, H2, I1, I2. lia. }
  destruct (update_curriculum_done rng torch_randperm multinomial_draw
              torch_randperm_spec fuel s s' Hcur Hrun)
    as (hard & easy & s1 & s2 & Hdraw & Hperm & Hns).
  destruct (draw_hard_easy_done rng multinomial_draw multinomial_draw_spec
              fuel _ s1 s2 hard easy Hdraw) as (Hh_nd & He_nd & Hdisj & Hh & He).
  split; [|split].
  - eapply Permutation_NoDup; [apply Permutation_sym; exact Hperm|].
    apply List.NoDup_app; assumption.
  - rewrite (Permutation_length Hperm), length_app, Hns.
    unfold WSRS.n_easy in He. simpl in He, Hh. lia.
  - rewrite Hns, H4, I5. reflexivity.
Qed.

End CurriculumTheorems.


Lemma curriculum_example_reached :
  WSRS.__init__ unit id_randperm 4 2 (1 # 4) (1 # 16) [] tt = Ok fresh_example /\
  reached unit id_randperm first_draw fresh_example 1 curriculum_example.
Proof.
  split; [reflexivity|].
  eapply (reached_update unit id_randperm first_draw fresh_example 0 10
            trained_example curriculum_example (Done tt)).
  - eapply (reached_update_weights unit id_randperm first_draw fresh_example 0
              fresh_example trained_example (Done tt) [1; 2; 3; 4]%Q [0; 1; 2; 3]%nat).
    + apply reached_init.
    + reflexivity.
  - reflexivity.
  - discriminate.
Defined.

Lemma curriculum_example_update :
  WSRS.update unit id_randperm first_draw 10 curriculum_example
    = (Done tt, after_curriculum_example).
Proof. vm_compute. reflexivity. Defined.

(** With a budget of 2 and a rate of 0.25 the code draws no hard index,
    where rounding up gives one. *)
Lemma update_split_counterexample :
  reached unit id_randperm first_draw fresh_example 1 curriculum_example /\
  WSRS.update unit id_randperm first_draw 10 curriculum_example
    = (Done tt, after_curriculum_example) /\
  fst (WSRS.draw_hard_easy unit first_draw 10
         (WSRS.set_step 2 (WSRS.self unit curriculum_example))
         (WSRS.mkstate unit (WSRS.set_step 2 (WSRS.self unit curriculum_example))
            (WSRS.heap unit curriculum_example) tt))
    = Done ([], [0; 1]%nat) /\
  Qceiling (inject_Z (WSRS.num_samples (WSRS.self unit curriculum_example))
            * WSRS.rate (WSRS.self unit curriculum_example)) = 1.
Proof.
  split; [exact (proj2 curriculum_example_reached)|].
  split; [exact curriculum_example_update|]. split; vm_compute; reflexivity.
Qed.

(** An instance with a budget of 10 and the rate 0.7: the product of the
    doubles is rounded to 7.0, seven hard and three easy indices are
    drawn. *)
Lemma update_split_witness :
  WSRS.step_inc (WSRS.self unit rounding_example)
    <= WSRS.step (WSRS.self unit rounding_example) + 1 /\
  WSRS.update unit id_randperm first_draw 12 rounding_example
    = (Done tt, after_rounding_example) /\
  fst (WSRS.draw_hard_easy unit first_draw 12
         (WSRS.set_step 2 (WSRS.self unit rounding_example))
         (WSRS.mkstate unit (WSRS.set_step 2 (WSRS.self unit rounding_example))
            (WSRS.heap unit rounding_example) tt))
    = Done ([3; 4; 5; 6; 7; 8; 9]%nat, [0; 1; 2]%nat) /\
  exists hard easy s1 s2,
    WSRS.draw_hard_easy unit first_draw 12
      (WSRS.set_step (WSRS.step (WSRS.self unit rounding_example) + 1)
                     (WSRS.self unit rounding_example)) s1
      = (Done (hard, easy), s2) /\
    Permutation (WSRS.indices (WSRS.self unit after_rounding_example))
                (hard ++ easy) /\
    Z.of_nat (length hard)
      = py_int (float_mul
                  (inject_Z (WSRS.num_samples (WSRS.self unit rounding_example)))
                  (WSRS.rate (WSRS.self unit rounding_example))) /\
    Z.of_nat (length easy)
      = WSRS.num_samples (WSRS.self unit rounding_example) - Z.of_nat (length hard).
Proof.
  assert (Hcur : WSRS.step_inc (WSRS.self unit rounding_example)
                 <= WSRS.step (WSRS.self unit rounding_example) + 1)
    by (simpl; lia).
  assert (Hrun : WSRS.update unit id_randperm first_draw 12 rounding_example
                 = (Done tt, after_rounding_example))
    by (vm_compute; reflexivity).
  split; [exact Hcur|]. split; [exact Hrun|].
  split; [vm_compute; reflexivity|].
  exact (update_split unit id_randperm first_draw id_randperm_spec first_draw_spec
           12 rounding_example after_rounding_example Hcur Hrun).
Defined.

(** Two samplers on which the claim fails.  With the default rates and five
    samples whose weights are never recorded, the second call to [update]
    raises and leaves two indices for a budget of three.  With a negative
    increase, the rate goes down at the second call. *)
Lemma curriculum_rate_and_indices_counterexample :
  (exists s0 s1 s2,
     WSRS.__init__ unit id_randperm 5 2 (1 # 10) (1 # 20) [] tt = Ok s0 /\
     WSRS.update unit id_randperm first_draw 10 s0 = (Done tt, s1) /\
     WSRS.update unit id_randperm first_draw 10 s1 = (Exc (RuntimeError ZeroProbabilities), s2) /\
     WSRS.step_inc (WSRS.self unit s2) = 2 /\
     length (WSRS.indices (WSRS.self unit s2)) = 2%nat /\
     WSRS.num_samples (WSRS.self unit s2) = 3) /\
  (exists s0 s1 s2,
     WSRS.__init__ unit id_randperm 2 1 1 (-1 # 2) [] tt = Ok s0 /\
     WSRS.update unit id_randperm first_draw 10 s0 = (Done tt, s1) /\
     WSRS.update unit id_randperm first_draw 10 s1 = (Done tt, s2) /\
     WSRS.step_inc (WSRS.self unit s2) = 1 /\
     (WSRS.rate (WSRS.self unit s2) < WSRS.rate (WSRS.self unit s1))%Q).
Proof.
  split.
  - do 3 eexists. split; [reflexivity|]. split; [vm_compute; reflexivity|].
    split; [vm_compute; reflexivity|]. repeat split.
  - do 3 eexists. split; [reflexivity|]. split; [vm_compute; reflexivity|].
    split; [vm_compute; reflexivity|]. split; reflexivity.
Qed.

Lemma curriculum_rate_and_indices_witness :
  WSRS.__init__ unit id_randperm 4 2 (1 # 4) (1 # 16) [] tt = Ok fresh_example /\
  (0 <= 1 # 16)%Q /\ (1 # 4 <= 1)%Q /\
  reached unit id_randperm first_draw fresh_example 1 curriculum_example /\
  (fl (1 # 4) <= WSRS.rate (WSRS.self unit curriculum_example))%Q /\
  (WSRS.rate (WSRS.self unit curriculum_example) <= 1)%Q /\
  forall fuel o s',
    WSRS.update unit id_randperm first_draw fuel curriculum_example = (o, s') ->
    (WSRS.rate (WSRS.self unit curriculum_example) <= WSRS.rate (WSRS.self unit s'))%Q /\
    (WSRS.rate (WSRS.self unit s') <= 1)%Q /\
    (2 <= Z.of_nat 2 -> o = Done tt ->
     List.NoDup (WSRS.indices (WSRS.self unit s')) /\
     Z.of_nat (length (WSRS.indices (WSRS.self unit s')))
       = WSRS.num_samples (WSRS.self unit s') /\
     WSRS.num_samples (WSRS.self unit s') = WSRS.ceil_div 4 2).
Proof.
  assert (H1 : (0 <= 1 # 16)%Q) by discriminate.
  assert (H2 : (1 # 4 <= 1)%Q) by discriminate.
  split; [exact (proj1 curriculum_example_reached)|].
  split; [exact H1|]. split; [exact H2|].
  split; [exact (proj2 curriculum_example_reached)|].
  exact (curriculum_rate_and_indices unit id_randperm first_draw id_randperm_spec
           first_draw_spec 4 2 (1 # 4) (1 # 16) [] tt fresh_example
           curriculum_example 1 (proj1 curriculum_example_reached) H1 H2
           (proj2 curriculum_example_reached)).
Defined.

Lemma update_keeps_weights_witness :
  (WSRS.weights (WSRS.self unit curriculum_example)
   < length (WSRS.heap unit curriculum_example))%nat /\
  let s' := snd (WSRS.update unit id_randperm first_draw 10 curriculum_example) in
  WSRS.weights (WSRS.self unit s') = WSRS.weights (WSRS.self unit curriculum_example) /\
  WSRS.heap unit s' !! WSRS.weights (WSRS.self unit s')
    = WSRS.heap unit curriculum_example
        !! WSRS.weights (WSRS.self unit curriculum_example).
Proof.
  assert (H : (WSRS.weights (WSRS.self unit curriculum_example)
               < length (WSRS.heap unit curriculum_example))%nat) by (simpl; lia).
  split; [exact H|].
  exact (update_keeps_weights unit id_randperm first_draw 10 curriculum_example H).
Defined.

(** * Further properties of the patch indexers *)

(** ** Slices around centres *)

Lemma slice_centre_around (x p : Z) : slice_centre (mkslice (x - p) (x + p)) = x.
Proof.
  unfold slice_centre. simpl. replace (x - p + (x + p)) with (x * 2) by lia.
  apply Z.div_mul. lia.
Qed.

Lemma centres_of_slices (v half : list Z) :
  map slice_centre
      (map (fun ip => mkslice (fst ip - snd ip) (fst ip + snd ip)) (combine v half))
  = firstn (length half) v.
Proof.
  revert half. induction v as [|x v IH]; intros [|p half]; simpl; auto.
  rewrite slice_centre_around, IH. reflexivity.
Qed.

(** X1: the centres are recovered from the slices that [centers_to_slice]
    builds around them, as the midpoints of the slices; a centre with more
    coordinates than there are half patch lengths loses its last
    coordinates. *)
Theorem centers_to_slice_round_trip (voxels : list (list Z)) (patch_half : list Z) :
  map (map slice_centre) (centers_to_slice voxels patch_half)
  = map (firstn (length patch_half)) voxels.
Proof.
  unfold centers_to_slice. rewrite map_map. apply map_ext.
  intros v. apply centres_of_slices.
Qed.

(** ** The size filter *)

Lemma length_filter_map {A B : Type} (f : A -> B) (p : B -> bool) (l : list A) :
  length (List.filter p (map f l)) = length (List.filter (fun a => p (f a)) l).
Proof.
  induction l as [|a l IH]; simpl; [reflexivity|].
  destruct (p (f a)); simpl; rewrite IH; reflexivity.
Qed.

Lemma length_filter_filter {A : Type} (p q : A -> bool) (l : list A) :
  length (List.filter q (List.filter p l)) = length (List.filter (fun a => p a && q a) l).
Proof.
  induction l as [|a l IH]; simpl; [reflexivity|].
  destruct (p a); simpl; [destruct (q a); simpl|]; rewrite IH; reflexivity.
Qed.

Lemma getitem_positives (mask : ndarray Z) (s : list slice) (sub : ndarray Z) :
  getitem mask s = Ok sub -> np_sum (gt0 sub) = positives_in mask s.
Proof.
  unfold getitem. destruct (length (shape mask) <? length s)%nat; [discriminate|].
  intros H. inversion H; subst. clear H.
  unfold np_sum, gt0, array_map, positives_in. simpl.
  rewrite !length_filter_map, length_filter_filter. reflexivity.
Qed.

Lemma getitem_raise {A : Type} (a : ndarray A) (ss : list slice) (e : exn) :
  getitem a ss = Raise e -> e = IndexError /\ (length (shape a) < length ss)%nat.
Proof.
  unfold getitem. destruct (length (shape a) <? length ss)%nat eqn:E; [|discriminate].
  intros H. inversion H. split; [reflexivity|]. apply Nat.ltb_lt. exact E.
Qed.

(** X2: [filter_size] keeps, in their order, exactly the slices that cover
    more than [min_size] positive entries of the mask, counting the part of
    a slice that lies inside the array; it raises [IndexError] as soon as a
    tuple of slices has more entries than the mask has axes. *)
Theorem filter_size_spec (slices : list (list slice)) (mask : ndarray Z)
    (min_size : Z) :
  filter_size slices mask min_size =
    if forallb (fun s => (length s <=? length (shape mask))%nat) slices
    then Ok (List.filter (fun s => min_size <? positives_in mask s) slices)
    else Raise IndexError.
Proof.
  unfold filter_size. induction slices as [|s slices IH]; simpl; [reflexivity|].
  destruct (getitem mask s) as [sub|e] eqn:Hg; simpl.
  - assert (Hlen : (length s <=? length (shape mask))%nat = true).
    { unfold getitem in Hg.
      destruct (length (shape mask) <? length s)%nat eqn:E; [discriminate|].
      apply Nat.ltb_ge in E. apply Nat.leb_le. lia. }
    rewrite Hlen. simpl. rewrite (getitem_positives _ _ _ Hg).
    rewrite IH. destruct (forallb _ slices); reflexivity.
  - apply getitem_raise in Hg as [-> Hlt].
    assert (Hlen : (length s <=? length (shape mask))%nat = false).
    { apply Nat.leb_gt. exact Hlt. }
    rewrite Hlen. reflexivity.
Qed.

(** ** The grid of the exhaustive indexer *)

Lemma in_true_voxels_map {A : Type} (f : A -> bool) (idx : list (list Z))
    (d : list A) (v : list Z) :
  In v (map fst (List.filter (fun cv : list Z * bool => snd cv) (combine idx (map f d))))
  <-> exists x, In (v, x) (combine idx d) /\ f x = true.
Proof.
  revert d. induction idx as [|c idx IH]; intros [|y d]; simpl.
  - split; [tauto|]. intros [x [[] _]].
  - split; [tauto|]. intros [x [[] _]].
  - split; [tauto|]. intros [x [[] _]].
  - destruct (f y) eqn:Ey; simpl; rewrite IH.
    + split.
      * intros [<-|[x [Hx Hf]]]; [exists y; auto|exists x; auto].
      * intros [x [[Hx|Hx] Hf]]; [inversion Hx; auto|right; eauto].
    + split.
      * intros [x [Hx Hf]]. exists x. auto.
      * intros [x [[Hx|Hx] Hf]]; [inversion Hx; subst; congruence|eauto].
Qed.

Lemma in_true_voxels_gt0 (mask : ndarray Z) (v : list Z) :
  In v (true_voxels (gt0 mask)) <-> foreground mask v.
Proof.
  unfold true_voxels, gt0, array_map, foreground. simpl.
  rewrite in_true_voxels_map. split; intros [x [Hx Hp]]; exists x;
    (split; [exact Hx|]); lia.
Qed.

Lemma has_foreground_iff (mask : ndarray Z) :
  has_foreground mask <-> shape mask <> [] /\ exists v, foreground mask v.
Proof.
  unfold has_foreground. split; intros [Hs Hv]; (split; [exact Hs|]).
  - destruct (true_voxels (gt0 mask)) as [|v l] eqn:E; [congruence|].
    exists v. apply in_true_voxels_gt0. rewrite E. left. reflexivity.
  - destruct Hv as [v Hv]. apply in_true_voxels_gt0 in Hv.
    intros E. rewrite E in Hv. destruct Hv.
Qed.

(** The corners that numpy computes are the extent of the foreground. *)
Lemma box_extent (mask : ndarray Z) (mn mx : list Z) :
  np_min_last (np_where (gt0 mask)) = Ok mn ->
  np_max_last (np_where (gt0 mask)) = Ok mx ->
  length mn = length (shape mask) /\ length mx = length (shape mask) /\
  forall j lo hi, mn !! j = Some lo -> mx !! j = Some hi -> extent mask j lo hi.
Proof.
  intros Hmn Hmx.
  destruct (bounding_box_spec _ _ _ Hmn Hmx) as (Lmn & Lmx & _ & Htv & _).
  change (shape (gt0 mask)) with (shape mask) in Lmn, Lmx.
  split; [exact Lmn|]. split; [exact Lmx|].
  intros j lo hi Hlo Hhi.
  assert (Hj : (j < length (shape mask))%nat).
  { apply lookup_lt_Some in Hlo. lia. }
  unfold np_min_last, np_max_last in Hmn, Hmx.
  rewrite np_reduce_where in Hmn, Hmx.
  case_decide as Hne; [discriminate|].
  inversion Hmn as [Emn]. inversion Hmx as [Emx]. clear Hmn Hmx.
  rewrite <- Emn in Hlo. rewrite <- Emx in Hhi.
  rewrite lookup_map in Hlo, Hhi.
  change (shape (gt0 mask)) with (shape mask) in Hlo, Hhi.
  rewrite lookup_seq_lt in Hlo, Hhi by exact Hj. simpl in Hlo, Hhi.
  inversion Hlo as [Elo]. inversion Hhi as [Ehi]. clear Hlo Hhi.
  set (col := map (fun v => nth j v 0) (true_voxels (gt0 mask))) in *.
  assert (Hcol : col <> []).
  { unfold col. destruct (true_voxels (gt0 mask)); simpl; [tauto|discriminate]. }
  destruct (list_min_spec col Hcol) as [Imin Amin].
  destruct (list_max_spec col Hcol) as [Imax Amax].
  assert (Hnth : forall v, In v (true_voxels (gt0 mask)) ->
                   v !! j = Some (nth j v 0)).
  { intros v Hv. apply true_voxels_ndindex, in_ndindex_length in Hv.
    change (shape (gt0 mask)) with (shape mask) in Hv.
    destruct (lookup_lt_is_Some_2 v j ltac:(lia)) as [x Hx].
    rewrite Hx. f_equal. symmetry. apply (nth_lookup_Some _ _ _ _ Hx). }
  split; [|split; [|intros v x Hv Hx; split]].
  - unfold col in Imin. apply in_map_iff in Imin as [v [Ev Hv]].
    exists v. split; [apply in_true_voxels_gt0; exact Hv|].
    rewrite (Hnth v Hv), Ev. f_equal; exact Elo.
  - unfold col in Imax. apply in_map_iff in Imax as [v [Ev Hv]].
    exists v. split; [apply in_true_voxels_gt0; exact Hv|].
    rewrite (Hnth v Hv), Ev. f_equal; exact Ehi.
  - rewrite List.Forall_forall in Amin. apply Amin.
    apply in_true_voxels_gt0 in Hv. unfold col. apply in_map_iff.
    exists v. split; [|exact Hv]. rewrite (Hnth v Hv) in Hx. congruence.
  - rewrite List.Forall_forall in Amax. apply Amax.
    apply in_true_voxels_gt0 in Hv. unfold col. apply in_map_iff.
    exists v. split; [|exact Hv]. rewrite (Hnth v Hv) in Hx. congruence.
Qed.

Lemma patch_at_slices (patch_size c : list Z) :
  map (fun ip => mkslice (fst ip - snd ip) (fst ip + snd ip))
      (combine c (patch_half_of patch_size))
  = patch_at patch_size c.
Proof.
  unfold patch_at, patch_half_of. revert patch_size.
  induction c as [|x c IH]; intros [|p ps]; simpl; auto.
  rewrite IH. reflexivity.
Qed.

Lemma centers_to_slice_patch_at (patch_size : list Z) (cs : list (list Z)) :
  centers_to_slice cs (patch_half_of patch_size) = map (patch_at patch_size) cs.
Proof. unfold centers_to_slice. apply map_ext. intros c. apply patch_at_slices. Qed.

Lemma far_corner_shift (patch_size mx : list Z) :
  shift_by Z.sub mx (patch_half_of patch_size) = far_corner patch_size mx.
Proof.
  unfold shift_by, far_corner, patch_half_of. revert patch_size.
  induction mx as [|x mx IH]; intros [|p ps]; simpl; auto.
  rewrite IH. reflexivity.
Qed.

Lemma length_patch_at (patch_size c : list Z) :
  length (patch_at patch_size c) = Nat.min (length c) (length patch_size).
Proof. unfold patch_at. apply length_zip_with. Qed.

(** Slices that fit the axes of the mask are filtered without an
    exception. *)
Lemma filter_size_fits (slices : list (list slice)) (mask : ndarray Z)
    (min_size : Z) :
  Forall (fun s => (length s <= length (shape mask))%nat) slices ->
  filter_size slices mask min_size
  = Ok (List.filter (fun s => min_size <? positives_in mask s) slices).
Proof.
  unfold filter_size. induction 1 as [|s slices Hs _ IH]; simpl; [reflexivity|].
  destruct (getitem mask s) as [sub|e] eqn:Hg; simpl.
  - rewrite (getitem_positives _ _ _ Hg), IH.
    destruct (min_size <? positives_in mask s); reflexivity.
  - apply getitem_raise in Hg as [_ Hlt]. lia.
Qed.

Lemma filter_size_all (patch_size : list Z) (min_size : Z)
    (masks : list (ndarray Z)) (centers : list (list (list Z))) :
  Forall2 (fun mask cs =>
             forall c, In c cs -> (length c <= length (shape mask))%nat)
          masks centers ->
  map_result (fun sm => filter_size (fst sm) (snd sm) min_size)
    (combine (map (fun c => centers_to_slice c (patch_half_of patch_size)) centers)
             masks)
  = Ok (zip_with (patches_of patch_size true min_size) masks centers).
Proof.
  induction 1 as [|mask cs masks centers Hfit _ IH]; simpl; [reflexivity|].
  rewrite centers_to_slice_patch_at, filter_size_fits.
  - rewrite IH. reflexivity.
  - apply Forall_map, List.Forall_forall. intros c Hc. simpl.
    rewrite length_patch_at. specialize (Hfit c Hc). lia.
Qed.

(** C7 (amended): for every list of masks that have a foreground voxel,
    the list branch of [get_slices_bb] enumerates for each mask the
    centres whose coordinate in every dimension is a point
    [lo + p // 2 + k * max(p - overlap, 1)] below [hi - p // 2] or the far
    edge [hi - p // 2] itself, where [lo] and [hi] are the smallest and the
    largest coordinate of the foreground; the far corner is one of the
    centres.  Without filtering it returns the patch [c - p // 2 : c + p // 2]
    of every centre, in the order of the centres; with filtering it
    returns those of these patches that cover more than [min_size]
    foreground voxels, so that the patch of the far corner can be
    missing. *)
Theorem get_slices_bb_regular_grid (masks : list (ndarray Z))
    (patch_size : list Z) (overlap min_size : Z) (filtered : bool) :
  Forall (fun mask => shape mask <> [] /\ exists v, foreground mask v) masks ->
  exists centers,
    Forall2
      (fun mask cs =>
         exists mn mx,
           length mn = length (shape mask) /\ length mx = length (shape mask) /\
           (forall j lo hi,
              mn !! j = Some lo -> mx !! j = Some hi -> extent mask j lo hi) /\
           (forall c,
              In c cs <->
              length c = Nat.min (length (shape mask)) (length patch_size) /\
              forall j x lo hi p,
                c !! j = Some x -> mn !! j = Some lo -> mx !! j = Some hi ->
                patch_size !! j = Some p ->
                on_grid (lo + p / 2) (hi - p / 2) (Z.max (p - overlap) 1) x) /\
           In (far_corner patch_size mx) cs)
      masks centers /\
    get_slices_bb (MaskList masks) patch_size overlap filtered min_size
    = Ok (PerCase (zip_with (patches_of patch_size filtered min_size)
                            masks centers)).
Proof.
  intros Hfg.
  assert (Hfg' : Forall has_foreground masks).
  { eapply Forall_impl; [exact Hfg|]. intros m Hm. apply has_foreground_iff, Hm. }
  destruct (bb_centers_ok masks patch_size overlap Hfg') as [centers Hc].
  exists centers.
  assert (Hgrid : Forall2
      (fun mask cs =>
         exists mn mx,
           length mn = length (shape mask) /\ length mx = length (shape mask) /\
           (forall j lo hi,
              mn !! j = Some lo -> mx !! j = Some hi -> extent mask j lo hi) /\
           (forall c,
              In c cs <->
              length c = Nat.min (length (shape mask)) (length patch_size) /\
              forall j x lo hi p,
                c !! j = Some x -> mn !! j = Some lo -> mx !! j = Some hi ->
                patch_size !! j = Some p ->
                on_grid (lo + p / 2) (hi - p / 2) (Z.max (p - overlap) 1) x) /\
           In (far_corner patch_size mx) cs)
      masks centers).
  { eapply Forall2_impl; [apply bb_centers_cases; exact Hc|].
    intros mask cs [mn [mx [Hmn [Hmx ->]]]]. exists mn, mx.
    destruct (box_extent _ _ _ Hmn Hmx) as (Lmn & Lmx & Hext).
    split; [exact Lmn|]. split; [exact Lmx|]. split; [exact Hext|].
    assert (Hlen : length (dim_ranges (shift_by Z.add mn (patch_half_of patch_size))
                             (shift_by Z.sub mx (patch_half_of patch_size))
                             (steps_of patch_size overlap))
                   = Nat.min (length (shape mask)) (length patch_size)).
    { rewrite length_dim_ranges, !length_shift_by, Lmn, Lmx.
      unfold patch_half_of, steps_of. rewrite !length_map. lia. }
    split.
    - intros c. rewrite in_grid_product by apply steps_positive.
      rewrite Hlen. split; intros [Hl H]; (split; [exact Hl|]).
      + intros j x lo hi p Hx Hlo Hhi Hp.
        apply (H j x (lo + p / 2) (hi - p / 2) (Z.max (p - overlap) 1) Hx).
        * rewrite lookup_shift_by, Hlo, lookup_patch_half, Hp. reflexivity.
        * rewrite lookup_shift_by, Hhi, lookup_patch_half, Hp. reflexivity.
        * rewrite lookup_steps, Hp. reflexivity.
      + intros j x l h s Hx Hl' Hh Hs.
        rewrite lookup_shift_by, lookup_patch_half in Hl', Hh.
        rewrite lookup_steps in Hs.
        destruct (mn !! j) as [lo|] eqn:Hlo; [|discriminate].
        destruct (mx !! j) as [hi|] eqn:Hhi; [|discriminate].
        destruct (patch_size !! j) as [p|] eqn:Hp; [|discriminate].
        simpl in *. inversion Hl'; inversion Hh; inversion Hs; subst.
        eapply H; eauto.
    - rewrite <- far_corner_shift.
      rewrite in_grid_product by apply steps_positive. split.
      + rewrite Hlen, length_shift_by, Lmx. unfold patch_half_of.
        rewrite length_map. reflexivity.
      + intros j x l h s Hx _ Hh _. left. congruence. }
  split; [exact Hgrid|].
  unfold get_slices_bb. rewrite Hc. cbn [mbind result_bind].
  assert (Hlen : length masks = length centers) by (eapply Forall2_length; eauto).
  destruct filtered.
  - rewrite filter_size_all; [reflexivity|].
    eapply Forall2_impl; [exact Hgrid|].
    intros mask cs (mn & mx & _ & _ & _ & Hin & _) c Hc'.
    apply Hin in Hc' as [Hl _]. lia.
  - f_equal. f_equal. clear -Hlen. revert centers Hlen.
    induction masks as [|m masks IH]; intros [|cs centers] Hlen;
      simpl in *; try reflexivity; try discriminate.
    unfold patches_of at 1. rewrite centers_to_slice_patch_at, IH by lia.
    reflexivity.
Qed.

(** The dataset calls [get_slices_bb] with filtering.  For a mask of
    6 x 6 voxels whose foreground is made of two opposite corners and
    patches of length 3, the far corner (4, 4) is one of the four centres,
    but its patch [3:5, 3:5] does not reach the voxel (5, 5) and is
    dropped: only one patch is returned, and it is not sampled at the far
    edge in any dimension. *)
Lemma get_slices_bb_regular_grid_counterexample :
  bb_centers [mask_of [6; 6] [[0; 0]; [5; 5]]] [3; 3] 0
    = Ok [[[1; 1]; [1; 4]; [4; 1]; [4; 4]]] /\
  get_slices_bb (MaskList [mask_of [6; 6] [[0; 0]; [5; 5]]]) [3; 3] 0 true 0
    = Ok (PerCase [[[mkslice 0 2; mkslice 0 2]]]) /\
  patch_at [3; 3] [4; 4] = [mkslice 3 5; mkslice 3 5] /\
  ~ In [mkslice 3 5; mkslice 3 5] [[mkslice 0 2; mkslice 0 2]].
Proof.
  split; [vm_compute; reflexivity|]. split; [vm_compute; reflexivity|].
  split; [reflexivity|]. intros [H|[]]. discriminate H.
Qed.

Lemma get_slices_bb_regular_grid_witness :
  Forall (fun mask => shape mask <> [] /\ exists v, foreground mask v)
         [mask_of [6; 6] [[0; 0]; [5; 5]]] /\
  get_slices_bb (MaskList [mask_of [6; 6] [[0; 0]; [5; 5]]]) [3; 3] 0 false 0
    = Ok (PerCase [[[mkslice 0 2; mkslice 0 2]; [mkslice 0 2; mkslice 3 5];
                    [mkslice 3 5; mkslice 0 2]; [mkslice 3 5; mkslice 3 5]]]) /\
  exists centers,
    Forall2
      (fun mask cs =>
         exists mn mx,
           length mn = length (shape mask) /\ length mx = length (shape mask) /\
           (forall j lo hi,
              mn !! j = Some lo -> mx !! j = Some hi -> extent mask j lo hi) /\
           (forall c,
              In c cs <->
              length c = Nat.min (length (shape mask)) (length [3; 3]) /\
              forall j x lo hi p,
                c !! j = Some x -> mn !! j = Some lo -> mx !! j = Some hi ->
                [3; 3] !! j = Some p ->
                on_grid (lo + p / 2) (hi - p / 2) (Z.max (p - 0) 1) x) /\
           In (far_corner [3; 3] mx) cs)
      [mask_of [6; 6] [[0; 0]; [5; 5]]] centers /\
    get_slices_bb (MaskList [mask_of [6; 6] [[0; 0]; [5; 5]]]) [3; 3] 0 false 0
    = Ok (PerCase (zip_with (patches_of [3; 3] false 0)
                            [mask_of [6; 6] [[0; 0]; [5; 5]]] centers)).
Proof.
  assert (Hfg : Forall (fun mask => shape mask <> [] /\ exists v, foreground mask v)
                       [mask_of [6; 6] [[0; 0]; [5; 5]]]).
  { constructor; [|constructor]. split; [discriminate|].
    exists [0; 0], 1. split; [left; reflexivity|lia]. }
  split; [exact Hfg|]. split; [vm_compute; reflexivity|].
  exact (get_slices_bb_regular_grid [mask_of [6; 6] [[0; 0]; [5; 5]]] [3; 3] 0 0
           false Hfg).
Defined.


(** ** The exhaustive indexer on a single array *)

Lemma lookup_dim_range_single (lo hi steps : list Z) (j : nat) :
  dim_range_single lo hi steps !! j =
    match lo !! j, hi !! j, steps !! j with
    | Some l, Some h, Some s => Some (arange l h s)
    | _, _, _ => None
    end.
Proof.
  unfold dim_range_single. rewrite lookup_map, !lookup_combine.
  destruct (lo !! j), (hi !! j), (steps !! j); reflexivity.
Qed.

Lemma length_dim_range_single (lo hi steps : list Z) :
  length (dim_range_single lo hi steps) =
    Nat.min (Nat.min (length lo) (length hi)) (length steps).
Proof. unfold dim_range_single. now rewrite length_map, !length_combine. Qed.

Lemma in_open_grid_product (lo hi steps c : list Z) :
  (forall j s, steps !! j = Some s -> 0 < s) ->
  In c (product (dim_range_single lo hi steps)) <->
  length c = length (dim_range_single lo hi steps) /\
  forall j x l h s,
    c !! j = Some x -> lo !! j = Some l -> hi !! j = Some h ->
    steps !! j = Some s -> on_open_grid l h s x.
Proof.
  intros Hpos. rewrite in_product, Forall2_same_length_lookup.
  split; intros [Hlen H]; (split; [exact Hlen|]).
  - intros j x l h s Hx Hl Hh Hs.
    specialize (H j x (arange l h s) Hx).
    rewrite lookup_dim_range_single, Hl, Hh, Hs in H. specialize (H eq_refl).
    apply in_arange in H; [exact H|eauto].
  - intros j x r Hx Hr. rewrite lookup_dim_range_single in Hr.
    destruct (lo !! j) as [l|] eqn:Hl; [|discriminate].
    destruct (hi !! j) as [h|] eqn:Hh; [|discriminate].
    destruct (steps !! j) as [s|] eqn:Hs; [|discriminate].
    inversion Hr; subst. apply in_arange; [eauto|].
    exact (H j x l h s Hx Hl Hh Hs).
Qed.

(** X3: on a single array, [get_slices_bb] centres its patches on the grid
    that starts half a patch after the first foreground coordinate, advances
    by [max(patch_length - overlap, 1)] and stays strictly below the last
    foreground coordinate minus half a patch: the far edge is not added, and
    a foreground that is not wider than the patch in one of the patch
    dimensions gives no patch at all. *)
Theorem get_slices_bb_single_grid (mask : ndarray Z) (patch_size : list Z)
    (overlap min_size : Z) (r : slices_out) :
  get_slices_bb (MaskArray mask) patch_size overlap false min_size = Ok r ->
  exists mn mx centers,
    np_min_last (np_where (gt0 mask)) = Ok mn /\
    np_max_last (np_where (gt0 mask)) = Ok mx /\
    r = Flat (centers_to_slice centers (patch_half_of patch_size)) /\
    (forall c,
       In c centers <->
       length c = Nat.min (length (shape mask)) (length patch_size) /\
       forall j x lo hi p,
         c !! j = Some x -> mn !! j = Some lo -> mx !! j = Some hi ->
         patch_size !! j = Some p ->
         on_open_grid (lo + p / 2) (hi - p / 2) (Z.max (p - overlap) 1) x) /\
    (forall j lo hi p,
       mn !! j = Some lo -> mx !! j = Some hi -> patch_size !! j = Some p ->
       hi - lo <= 2 * (p / 2) -> centers = []).
Proof.
  unfold get_slices_bb, bb_centers_single.
  destruct (np_min_last (np_where (gt0 mask))) as [mn|e] eqn:Hmn;
    [simpl|intros H; discriminate H].
  destruct (np_max_last (np_where (gt0 mask))) as [mx|e] eqn:Hmx;
    [simpl|intros H; discriminate H].
  intros H. inversion H; subst. clear H.
  exists mn, mx. eexists. split; [reflexivity|]. split; [reflexivity|].
  split; [reflexivity|].
  destruct (bounding_box_spec _ _ _ Hmn Hmx) as [Lmn [Lmx _]].
  assert (Hlen : length (dim_range_single (shift_by Z.add mn (patch_half_of patch_size))
                           (shift_by Z.sub mx (patch_half_of patch_size))
                           (steps_of patch_size overlap))
                 = Nat.min (length (shape mask)) (length patch_size)).
  { rewrite length_dim_range_single, !length_shift_by, Lmn, Lmx.
    unfold patch_half_of, steps_of, gt0. rewrite !length_map. simpl. lia. }
  assert (Hin : forall c,
    In c (product (dim_range_single (shift_by Z.add mn (patch_half_of patch_size))
                     (shift_by Z.sub mx (patch_half_of patch_size))
                     (steps_of patch_size overlap))) <->
    length c = Nat.min (length (shape mask)) (length patch_size) /\
    forall j x lo hi p,
      c !! j = Some x -> mn !! j = Some lo -> mx !! j = Some hi ->
      patch_size !! j = Some p ->
      on_open_grid (lo + p / 2) (hi - p / 2) (Z.max (p - overlap) 1) x).
  { intros c. rewrite in_open_grid_product by apply steps_positive.
    rewrite Hlen. split; intros [Hl H]; (split; [exact Hl|]).
    + intros j x lo hi p Hx Hlo Hhi Hp.
      apply (H j x (lo + p / 2) (hi - p / 2) (Z.max (p - overlap) 1) Hx).
      * rewrite lookup_shift_by, Hlo, lookup_patch_half, Hp. reflexivity.
      * rewrite lookup_shift_by, Hhi, lookup_patch_half, Hp. reflexivity.
      * rewrite lookup_steps, Hp. reflexivity.
    + intros j x l h s Hx Hl' Hh Hs.
      rewrite lookup_shift_by, lookup_patch_half in Hl', Hh.
      rewrite lookup_steps in Hs.
      destruct (mn !! j) as [lo|] eqn:Hlo; [|discriminate].
      destruct (mx !! j) as [hi|] eqn:Hhi; [|discriminate].
      destruct (patch_size !! j) as [p|] eqn:Hp; [|discriminate].
      simpl in *. inversion Hl'; inversion Hh; inversion Hs; subst.
      eapply H; eauto. }
  split; [exact Hin|].
  intros j lo hi p Hlo Hhi Hp Hthin.
  assert (Hno : forall c,
    ~ In c (product (dim_range_single (shift_by Z.add mn (patch_half_of patch_size))
                       (shift_by Z.sub mx (patch_half_of patch_size))
                       (steps_of patch_size overlap)))).
  { intros c Hc. apply Hin in Hc as [Hl Hg].
    assert (Hj : (j < length c)%nat).
    { rewrite Hl. apply lookup_lt_Some in Hlo, Hp. simpl in Lmn. lia. }
    destruct (lookup_lt_is_Some_2 c j Hj) as [x Hx].
    destruct (Hg j x lo hi p Hx Hlo Hhi Hp) as [k [Hk [-> Hlt]]].
    assert (0 <= k * Z.max (p - overlap) 1) by nia. lia. }
  destruct (product _) as [|c cs]; [reflexivity|].
  exfalso. apply (Hno c). left. reflexivity.
Qed.

(** ** Reading a patch outside the range of the dataset *)

Lemma where_none (bs : list bool) :
  Forall (fun b => b = false) bs ->
  np_min_all (np_where (mkarray [Z.of_nat (length bs)] bs)) = Raise ValueError.
Proof.
  intros H. pose proof (np_min_all_spec (np_where (mkarray [Z.of_nat (length bs)] bs))) as S.
  destruct (np_min_all _) as [m|e].
  - destruct S as [Hm _]. apply in_where_1 in Hm as [k [_ Hk]].
    rewrite Forall_lookup in H. specialize (H k true Hk). discriminate.
  - destruct S as [_ ->]. reflexivity.
Qed.

Lemma cumsum_bounded (l : list Z) (last : Z) :
  Forall (fun x => 0 <= x) l ->
  py_index (np_cumsum l) (-1) = Ok last ->
  Forall (fun m => m <= last) (np_cumsum l).
Proof.
  intros Hpos Hlast. apply py_index_last in Hlast as [Hne Hlast].
  unfold np_cumsum in *. rewrite length_cumsum_from in Hlast.
  assert (Hl : (length l - 1 < length l)%nat).
  { destruct l; [simpl in Hne; congruence|simpl; lia]. }
  pose proof (lookup_np_cumsum l _ Hl) as E. unfold np_cumsum in E.
  rewrite E in Hlast. inversion Hlast as [Elast]. clear Hlast.
  apply Forall_lookup. intros k m Hk.
  assert (Hkl : (k < length l)%nat).
  { apply lookup_lt_Some in Hk. rewrite length_cumsum_from in Hk. exact Hk. }
  pose proof (lookup_np_cumsum l k Hkl) as Ek. unfold np_cumsum in Ek.
  rewrite Ek in Hk. inversion Hk; subst.
  apply prefix_sum_mono; [exact Hpos|lia].
Qed.

(** X4: for a dataset built by the constructor of
    [GenericSegmentationCroppingDataset], [__getitem__] raises [ValueError]
    for every index from [__len__()] on: no cumulative count exceeds the
    index, and the minimum of an empty selection is taken. *)
Theorem getitem_past_the_end (rng : Type)
    (np_permutation : rng -> nat -> list nat * rng)
    cases labels masks balanced overlap min_size patch_size neg_ratio sampler
    (g g' : rng) (d : GSCD.t) (n index : Z) :
  GSCD.__init__ rng np_permutation cases labels masks balanced overlap min_size
                patch_size neg_ratio sampler g = Ok (d, g') ->
  GSCD.__len__ d = Ok n -> n <= index ->
  GSCD.__getitem__ d index = Raise ValueError.
Proof.
  intros Hinit Hlen Hi.
  pose proof (init_max_slice _ _ _ _ _ _ _ _ _ _ _ _ _ _ Hinit) as Hms.
  unfold GSCD.__len__ in Hlen. rewrite Hms in Hlen.
  pose proof (cumsum_bounded _ _ (patch_counts_nonneg d) Hlen) as Hb.
  unfold GSCD.__getitem__. rewrite Hms.
  rewrite <- (length_map (fun m => index <? m) (np_cumsum (patch_counts d))).
  rewrite where_none; [reflexivity|].
  apply Forall_map. eapply Forall_impl; [exact Hb|].
  intros m Hm. simpl in Hm. simpl. apply Z.ltb_ge. lia.
Qed.

Lemma getitem_past_the_end_witness :
  GSCD.__init__ unit id_permutation example_cases (Some example_labels) None true
                0 0 (GSCD.PatchInt 2) 1%Q false tt = Ok (example_dataset, tt) /\
  GSCD.__len__ example_dataset = Ok 2 /\ 2 <= 2 /\
  GSCD.__getitem__ example_dataset 2 = Raise ValueError.
Proof.
  assert (Hinit :
    GSCD.__init__ unit id_permutation example_cases (Some example_labels) None true
                  0 0 (GSCD.PatchInt 2) 1%Q false tt = Ok (example_dataset, tt))
    by (vm_compute; reflexivity).
  assert (Hlen : GSCD.__len__ example_dataset = Ok 2) by reflexivity.
  assert (Hi : 2 <= 2) by lia.
  split; [exact Hinit|]. split; [exact Hlen|]. split; [exact Hi|].
  exact (getitem_past_the_end unit id_permutation _ _ _ _ _ _ _ _ _ tt tt
           example_dataset 2 2 Hinit Hlen Hi).
Defined.

Lemma where_all_first (bs : list bool) :
  bs !! 0%nat = Some true ->
  np_min_all (np_where (mkarray [Z.of_nat (length bs)] bs)) = Ok 0.
Proof.
  intros H0.
  pose proof (np_min_all_spec (np_where (mkarray [Z.of_nat (length bs)] bs))) as S.
  destruct (np_min_all _) as [m|e].
  - destruct S as [Hm Hle]. apply in_where_1 in Hm as [k [-> _]].
    assert (H : In 0 (concat (np_where (mkarray [Z.of_nat (length bs)] bs)))).
    { apply in_where_1. exists 0%nat. auto. }
    apply Hle in H. f_equal. lia.
  - destruct S as [Hem _].
    assert (H : In 0 (concat (np_where (mkarray [Z.of_nat (length bs)] bs)))).
    { apply in_where_1. exists 0%nat. auto. }
    rewrite Hem in H. destruct H.
Qed.

Lemma py_index_negative {A : Type} (l : list A) (i : Z) :
  - Z.of_nat (length l) <= i < 0 ->
  py_index l i = py_index l (i + Z.of_nat (length l)).
Proof.
  intros Hi. unfold py_index.
  assert (E1 : (i <? 0) = true) by lia.
  assert (E2 : (i + Z.of_nat (length l) <? 0) = false) by lia.
  rewrite E1, !E2. reflexivity.
Qed.

(** X5: a negative index does not count from the end of the dataset.  For a
    dataset built by the constructor whose first case has patches,
    [__getitem__(i)] with [-len(first case) <= i < 0] returns what
    [__getitem__(i + len(first case))] returns, the patch of the first case
    counted from the end of that case; an item that carries its index (a
    dataset built for a sampler, with labels) carries [i] itself. *)
Theorem getitem_negative_index (rng : Type)
    (np_permutation : rng -> nat -> list nat * rng)
    cases labels masks balanced overlap min_size patch_size neg_ratio sampler
    (g g' : rng) (d : GSCD.t) (first : list (list slice)) (i : Z) :
  GSCD.__init__ rng np_permutation cases labels masks balanced overlap min_size
                patch_size neg_ratio sampler g = Ok (d, g') ->
  GSCD.patch_slices d !! 0%nat = Some first ->
  - Z.of_nat (length first) <= i < 0 ->
  GSCD.__getitem__ d i
  = match GSCD.__getitem__ d (i + Z.of_nat (length first)) with
    | Ok it => Ok (with_index i it)
    | Raise e => Raise e
    end.
Proof.
  intros Hinit Hfirst Hi.
  pose proof (init_max_slice _ _ _ _ _ _ _ _ _ _ _ _ _ _ Hinit) as Hms.
  assert (Hcount : patch_counts d !! 0%nat = Some (Z.of_nat (length first))).
  { unfold patch_counts. rewrite lookup_map, Hfirst. reflexivity. }
  assert (Hcum : GSCD.max_slice d !! 0%nat = Some (Z.of_nat (length first))).
  { rewrite Hms. rewrite lookup_np_cumsum by (eapply lookup_lt_Some; eauto).
    f_equal. rewrite (prefix_sum_S _ _ _ Hcount). unfold prefix_sum. simpl. lia. }
  set (j := i + Z.of_nat (length first)).
  assert (Hidx : forall index, index < Z.of_nat (length first) ->
    np_min_all
      (np_where (mkarray [Z.of_nat (length (GSCD.max_slice d))]
                         (map (fun m => index <? m) (GSCD.max_slice d)))) = Ok 0).
  { intros index Hlt.
    rewrite <- (length_map (fun m => index <? m) (GSCD.max_slice d)).
    apply where_all_first. rewrite lookup_map, Hcum. simpl. f_equal.
    apply Z.ltb_lt. exact Hlt. }
  unfold GSCD.__getitem__.
  rewrite (Hidx i) by lia. rewrite (Hidx j) by (unfold j; lia). simpl.
  destruct (py_index (GSCD.cases d) 0) as [case|e]; [simpl|reflexivity].
  rewrite (py_index_nonneg (GSCD.patch_slices d) 0 first) by (simpl; auto with zarith).
  simpl. rewrite !Z.sub_0_r.
  rewrite (py_index_negative first i Hi). fold j.
  destruct (py_index first j) as [slice_i|e]; [simpl|reflexivity].
  destruct (getitem case (none_slice case :: slice_i)) as [inputs|e];
    [simpl|reflexivity].
  destruct (GSCD.labels d) as [ls|]; [|reflexivity].
  destruct (py_index ls 0) as [l|e]; [simpl|reflexivity].
  destruct (getitem _ slice_i) as [sub|e]; [simpl|reflexivity].
  destruct (GSCD.sampler d); reflexivity.
Qed.

Lemma getitem_negative_index_witness :
  GSCD.__init__ unit id_permutation example_cases (Some example_labels) None true
                0 0 (GSCD.PatchInt 2) 1%Q true tt = Ok (indexed_dataset, tt) /\
  GSCD.patch_slices indexed_dataset !! 0%nat
    = Some [[mkslice 0 2; mkslice 0 2]; [mkslice 1 3; mkslice 1 3]] /\
  - Z.of_nat 2 <= -1 < 0 /\
  GSCD.__getitem__ indexed_dataset 1
    = Ok (GSCD.WithIndex (mkarray [2; 2; 2] (repeat 7 8%nat))
                         (mkarray [1; 2; 2] [1; 0; 0; 1]) 1) /\
  GSCD.__getitem__ indexed_dataset (-1)
    = Ok (GSCD.WithIndex (mkarray [2; 2; 2] (repeat 7 8%nat))
                         (mkarray [1; 2; 2] [1; 0; 0; 1]) (-1)).
Proof.
  assert (Hinit :
    GSCD.__init__ unit id_permutation example_cases (Some example_labels) None true
                  0 0 (GSCD.PatchInt 2) 1%Q true tt = Ok (indexed_dataset, tt))
    by (vm_compute; reflexivity).
  assert (Hfirst : GSCD.patch_slices indexed_dataset !! 0%nat
    = Some [[mkslice 0 2; mkslice 0 2]; [mkslice 1 3; mkslice 1 3]])
    by reflexivity.
  assert (Hi : - Z.of_nat 2 <= -1 < 0) by (simpl; lia).
  assert (Hitem : GSCD.__getitem__ indexed_dataset 1
    = Ok (GSCD.WithIndex (mkarray [2; 2; 2] (repeat 7 8%nat))
                         (mkarray [1; 2; 2] [1; 0; 0; 1]) 1))
    by (vm_compute; reflexivity).
  split; [exact Hinit|]. split; [exact Hfirst|]. split; [exact Hi|].
  split; [exact Hitem|].
  rewrite (getitem_negative_index unit id_permutation _ _ _ _ _ _ _ _ _ tt tt
             indexed_dataset _ (-1) Hinit Hfirst Hi).
  change (-1 + Z.of_nat (length [[mkslice 0 2; mkslice 0 2];
                                  [mkslice 1 3; mkslice 1 3]])) with 1.
  rewrite Hitem. reflexivity.
Defined.

(** * The boundary sampler *)

Lemma border_mask_spec (sh half : list Z) (mesh : list (ndarray Z)) :
  get_mesh sh = Ok mesh ->
  border_mask mesh half sh =
    match combine (combine (seq 0 (length sh)) half) sh with
    | [] => Raise TypeError
    | _ :: _ => Ok (mkarray sh (map (away_from_border half sh) (ndindex sh)))
    end.
Proof.
  unfold get_mesh. destruct sh as [|n0 sh0] eqn:Esh; [discriminate|].
  rewrite <- Esh. intros H. inversion H as [Hmesh]. clear H Hmesh.
  unfold border_mask. rewrite !combine_map_l, map_result_map.
  simpl.
  set (zs := combine (combine (seq 0 (length sh)) half) sh).
  rewrite (map_result_pure _
             (fun t : nat * Z * Z =>
                mkarray sh
                  (map (fun c =>
                          let '(j, p_ij, max_j) := t in
                          (p_ij <=? nth j c 0) && (nth j c 0 <=? max_j - p_ij))
                       (ndindex sh)))).
  - simpl. rewrite reduce_logical_and_preds. unfold away_from_border. fold zs.
    destruct zs; reflexivity.
  - intros [[j p] n] _. simpl. unfold array_map. simpl.
    rewrite !map_map. apply logical_and_same.
Qed.

Lemma away_from_border_bounds (half sh c : list Z) (j : nat) (x p n : Z) :
  away_from_border half sh c = true ->
  c !! j = Some x -> half !! j = Some p -> sh !! j = Some n ->
  p <= x <= n - p.
Proof.
  unfold away_from_border. rewrite forallb_forall. intros H Hx Hp Hn.
  specialize (H (j, p, n)). simpl in H.
  rewrite nth_lookup, Hx in H. simpl in H.
  assert (Hin : In (j, p, n) (combine (combine (seq 0 (length sh)) half) sh)).
  { apply In_lookup. exists j. rewrite !lookup_combine.
    rewrite lookup_seq_lt by (eapply lookup_lt_Some; eauto).
    simpl. rewrite Hp, Hn. reflexivity. }
  apply H in Hin. apply andb_true_iff in Hin as [H1 H2]. lia.
Qed.

(** Zipping the index arrays of [np.where] gives back the coordinates. *)
Lemma zip_star_columns (tv : list (list Z)) (n k : nat) :
  (forall v, In v tv -> length v = (k + S n)%nat) ->
  zip_star (map (fun j => map (fun v => nth j v 0) tv) (seq k (S n)))
  = map (skipn k) tv.
Proof.
  revert k. induction n as [|n IH]; intros k Hlen.
  - simpl. rewrite map_map. apply map_ext_in. intros v Hv.
    specialize (Hlen v Hv). clear Hv. revert v Hlen.
    induction k as [|k IHk]; intros [|x v] Hlen; simpl in *; try lia.
    + destruct v; [reflexivity|simpl in Hlen; lia].
    + apply IHk. lia.
  - change (seq k (S (S n))) with (k :: seq (S k) (S n)).
    rewrite map_cons.
    assert (E : forall r rest,
               rest <> [] -> zip_star (r :: rest) = zip_with cons r (zip_star rest)).
    { intros r [|r' rest] Hne; [congruence|reflexivity]. }
    rewrite E by (simpl; discriminate).
    rewrite IH by (intros v Hv; rewrite (Hlen v Hv); lia).
    clear E IH. induction tv as [|v tv IHtv]; simpl; [reflexivity|].
    rewrite IHtv by (intros w Hw; apply Hlen; right; exact Hw).
    f_equal. assert (Hv : length v = (k + S (S n))%nat) by (apply Hlen; left; reflexivity).
    clear -Hv. revert v Hv. induction k as [|k IHk]; intros [|x v] Hv; simpl in *; try lia.
    + reflexivity.
    + apply IHk. lia.
Qed.

Lemma zip_star_where (a : ndarray bool) :
  shape a <> [] -> zip_star (np_where a) = true_voxels a.
Proof.
  intros Hne. unfold np_where.
  destruct (length (shape a)) as [|n] eqn:En.
  { destruct (shape a); [congruence|discriminate]. }
  rewrite (zip_star_columns (true_voxels a) n 0).
  - simpl. apply map_id.
  - intros v Hv. apply true_voxels_ndindex, in_ndindex_length in Hv.
    rewrite Hv, En. reflexivity.
Qed.

Section BoundaryProofs.

Variable rng : Type.
Variable np_permutation : rng -> nat -> list nat * rng.
Variable imerode : ndarray bool -> ndarray bool.

Lemma map_rng_result_Forall2 {A B : Type} (f : A -> rng -> result B * rng)
    (l : list A) (g g' : rng) (bs : list B) :
  map_rng_result rng f l g = Ok (bs, g') ->
  Forall2 (fun a b => exists g1 g2, f a g1 = (Ok b, g2)) l bs.
Proof.
  revert g bs. induction l as [|a l IH]; simpl; intros g bs H.
  - inversion H. constructor.
  - destruct (f a g) as [[b|e] g1] eqn:Ha; [|discriminate].
    destruct (map_rng_result rng f l g1) as [[bs' g2]|e] eqn:Hl; [|discriminate].
    inversion H; subst. constructor; eauto.
Qed.

(** The centres drawn for a case are voxels of one of its boundaries (or
    the empty coordinate that stands for a position outside the pool), and
    there is at least one of them. *)
Lemma boundary_centers_spec (rate : Q) (b : list (ndarray bool)) (g g' : rng)
    (cs : list (list Z)) :
  boundary_centers rng np_permutation rate b g = (Ok cs, g') ->
  cs <> [] /\
  forall c, In c cs ->
    c = [] \/ exists b_i, In b_i b /\ In c (zip_star (np_where b_i)).
Proof.
  unfold boundary_centers.
  destruct (map_rng rng _ b g) as [arrs g1] eqn:Hm.
  intros H. inversion H as [[Hc Hg]]. clear H Hg.
  apply map_rng_Forall2 in Hm.
  unfold np_concatenate in Hc.
  destruct (List.filter _ arrs) as [|a0 l0] eqn:Hf; [discriminate|].
  assert (Ecs : cs = concat (a0 :: l0)) by (inversion Hc; reflexivity).
  subst cs. clear Hc. split.
  - assert (Ha0 : In a0 (List.filter (fun arr => 0 <? rows_size arr) arrs))
      by (rewrite Hf; left; reflexivity).
    apply filter_In in Ha0 as [_ Hsize].
    unfold rows_size in Hsize. simpl.
    destruct a0 as [|c0 a0]; [simpl in Hsize; discriminate|]. simpl. discriminate.
  - intros c Hc. rewrite <- Hf in Hc.
    apply in_concat in Hc as [arr [Harr Hc]].
    apply filter_In in Harr as [Harr _].
    apply In_lookup in Harr as [i Hi].
    destruct (Forall2_lookup_r _ _ _ _ _ Hm Hi) as [b_i [Hb [g2 [g3 Hsub]]]].
    destruct (in_random_subset _ _ _ _ _ _ _ _ _ Hsub Hc) as [Hin | ->];
      [right|left; reflexivity].
    exists b_i. split; [|exact Hin]. apply In_lookup. eauto.
Qed.

(** What a successful call of [get_slices_boundary] went through. *)
Lemma get_slices_boundary_inv (masks : list (ndarray Z)) (patch_size : list Z)
    (rois : option (list (ndarray Z))) (rate : Q) (g g' : rng)
    (r : list (list (list slice))) :
  get_slices_boundary rng np_permutation imerode masks patch_size rois rate g
    = Ok (r, g') ->
  exists m0 centers,
    masks !! 0%nat = Some m0 /\ shape m0 <> [] /\
    length centers = length masks /\
    r = map (fun c => centers_to_slice c (patch_half_of patch_size)) centers /\
    forall cs, In cs centers ->
      cs <> [] /\
      forall c, In c cs ->
        c = [] \/
        (In c (ndindex (shape m0)) /\
         away_from_border (patch_half_of patch_size) (shape m0) c = true).
Proof.
  unfold get_slices_boundary.
  destruct (map_result (label_boundaries imerode) masks) as [bnd|e] eqn:Hb;
    [simpl|intros H; discriminate H].
  destruct masks as [|m0 masks']; [intros H; discriminate H|]. simpl.
  destruct (get_mesh (shape m0)) as [mesh|e] eqn:Hmesh;
    [simpl|intros H; discriminate H].
  rewrite (border_mask_spec _ _ _ Hmesh).
  assert (Hsh : shape m0 <> []).
  { unfold get_mesh in Hmesh. destruct (shape m0); [discriminate|discriminate]. }
  destruct (combine (combine (seq 0 (length (shape m0))) (patch_half_of patch_size))
              (shape m0)) as [|z zs] eqn:Hz; [intros H; discriminate H|]. simpl.
  destruct (map_result _ bnd) as [bnd'|e] eqn:Hb'; [simpl|intros H; discriminate H].
  destruct (map_rng_result rng _ bnd' g) as [[centers g1]|e] eqn:Hc;
    [simpl|intros H; discriminate H].
  intros H. inversion H; subst. clear H.
  exists m0, centers. split; [reflexivity|]. split; [exact Hsh|].
  apply map_rng_result_Forall2 in Hc.
  apply map_result_Forall2 in Hb, Hb'.
  split.
  { rewrite <- (Forall2_length _ _ _ Hc), <- (Forall2_length _ _ _ Hb').
    rewrite <- (Forall2_length _ _ _ Hb). reflexivity. }
  split; [reflexivity|].
  intros cs Hcs. apply In_lookup in Hcs as [i Hi].
  destruct (Forall2_lookup_r _ _ _ _ _ Hc Hi) as [b [Hbi [g2 [g3 Hbc]]]].
  destruct (boundary_centers_spec _ _ _ _ _ Hbc) as [Hne Hall].
  split; [exact Hne|].
  intros c Hcin. destruct (Hall c Hcin) as [->|[b_i [Hbin Hcz]]]; [left; reflexivity|].
  right.
  destruct (Forall2_lookup_r _ _ _ _ _ Hb' Hbi) as [b0 [_ Hand]].
  apply map_result_Forall2 in Hand.
  apply In_lookup in Hbin as [k Hk].
  destruct (Forall2_lookup_r _ _ _ _ _ Hand Hk) as [a_k [_ Hl]].
  pose proof (logical_and_legal _ _ _ _ Hl) as [Hshape Htv].
  assert (Hshape' : shape b_i = shape m0).
  { unfold logical_and in Hl. case_decide as E; [|discriminate].
    inversion Hl. simpl. exact Hshape. }
  rewrite zip_star_where in Hcz by (rewrite Hshape'; exact Hsh).
  rewrite Htv in Hcz. apply in_legal_true_voxels in Hcz as [Hc1 Hc2].
  split; [|exact Hc2].
  apply true_voxels_ndindex in Hc1. rewrite Hshape in Hc1. exact Hc1.
Qed.

(** X7: every slice that [get_slices_boundary] returns lies within the
    array of the first mask and spans twice the half patch length in every
    dimension; one tuple of slices is returned for every centre, and the
    argument [rois] has no effect on them. *)
Theorem get_slices_boundary_in_bounds (masks : list (ndarray Z))
    (patch_size : list Z) (rois : option (list (ndarray Z))) (rate : Q)
    (g g' : rng) (r : list (list (list slice))) :
  get_slices_boundary rng np_permutation imerode masks patch_size rois rate g
    = Ok (r, g') ->
  get_slices_boundary rng np_permutation imerode masks patch_size None rate g
    = Ok (r, g') /\
  exists m0,
    masks !! 0%nat = Some m0 /\
    forall case s j s_j n p,
      In case r -> In s case -> s !! j = Some s_j ->
      shape m0 !! j = Some n -> patch_size !! j = Some p ->
      fits_patch n (2 * (p / 2)) s_j.
Proof.
  intros Hget. split; [exact Hget|].
  apply get_slices_boundary_inv in Hget
    as (m0 & centers & Hm0 & Hsh & _ & -> & Hall).
  exists m0. split; [exact Hm0|].
  intros case s j s_j n p Hcase Hs Hsj Hn Hp.
  apply in_map_iff in Hcase as [cs [<- Hcs]].
  apply in_centers_to_slice in Hs as [c [Hc ->]].
  rewrite lookup_slices_of_center, lookup_patch_half, Hp in Hsj.
  destruct (c !! j) as [x|] eqn:Hx; [|discriminate].
  simpl in Hsj. inversion Hsj; subst s_j. clear Hsj.
  destruct (Hall cs Hcs) as [_ Hvox].
  destruct (Hvox c Hc) as [->|[_ Haway]]; [discriminate Hx|].
  pose proof (away_from_border_bounds _ _ _ j x (p / 2) n Haway Hx) as Hb.
  rewrite lookup_patch_half, Hp in Hb. specialize (Hb eq_refl Hn).
  unfold fits_patch. simpl. lia.
Qed.

(** X8: [get_slices_boundary] never returns a case without patches: when
    it returns, there is one list of slices per mask and none of them is
    empty (a case for which no label yields a centre makes
    [np.concatenate] raise). *)
Theorem get_slices_boundary_nonempty (masks : list (ndarray Z))
    (patch_size : list Z) (rois : option (list (ndarray Z))) (rate : Q)
    (g g' : rng) (r : list (list (list slice))) :
  get_slices_boundary rng np_permutation imerode masks patch_size rois rate g
    = Ok (r, g') ->
  length r = length masks /\ Forall (fun case => case <> []) r.
Proof.
  intros Hget.
  apply get_slices_boundary_inv in Hget
    as (m0 & centers & Hm0 & Hsh & Hlen & -> & Hall).
  split; [rewrite length_map; exact Hlen|].
  apply List.Forall_forall. intros case Hcase.
  apply in_map_iff in Hcase as [cs [<- Hcs]].
  destruct (Hall cs Hcs) as [Hne _].
  unfold centers_to_slice. destruct cs; [congruence|discriminate].
Qed.

End BoundaryProofs.

(** * The bounding-box datasets *)

(** ** Slices that keep nothing *)

Lemma in_slice_empty (n : Z) (s : slice) (i : Z) :
  empty_slice s -> in_slice n s i = false.
Proof.
  unfold empty_slice, in_slice, slice_indices, clip_index. intros H.
  destruct (start s <? 0) eqn:E1; [lia|].
  destruct (stop s <? 0) eqn:E2; [lia|].
  apply andb_false_iff.
  destruct (Z.min (start s) n <=? i) eqn:E3; [right|left; reflexivity].
  apply Z.ltb_ge. lia.
Qed.

Lemma getitem_empty {A : Type} (a : ndarray A) (s0 s1 : slice) (ss : list slice)
    (sub : ndarray A) :
  empty_slice s1 ->
  getitem a (s0 :: s1 :: ss) = Ok sub -> data sub = [].
Proof.
  intros Hs. unfold getitem.
  destruct (length (shape a) <? length (s0 :: s1 :: ss))%nat eqn:E; [discriminate|].
  apply Nat.ltb_ge in E. intros H. inversion H; subst. clear H. simpl.
  assert (Hnone : forall cv, In cv (combine (ndindex (shape a)) (data a)) ->
                   in_slices (shape a) (s0 :: s1 :: ss) (fst cv) = false).
  { intros [c v] Hcv. apply in_combine_l in Hcv. simpl.
    pose proof (in_ndindex_length _ _ Hcv) as Hl.
    destruct (shape a) as [|n0 [|n1 sh]]; simpl in E; try lia.
    destruct c as [|i0 [|i1 c]]; simpl in Hl; try lia.
    simpl. rewrite (in_slice_empty n1 s1 i1 Hs).
    rewrite andb_false_r. reflexivity. }
  induction (combine (ndindex (shape a)) (data a)) as [|cv l IH]; [reflexivity|].
  simpl. rewrite (Hnone cv) by (left; reflexivity).
  apply IH. intros cv' Hcv'. apply Hnone. right. exact Hcv'.
Qed.

(** ** Flips *)

Lemma chunks_nil {A : Type} (size count : nat) :
  concat (rev (chunks size count (@nil A))) = [].
Proof.
  assert (H : forall c, Forall (fun b : list A => b = []) (chunks size c [])).
  { induction c as [|c IH]; simpl; [constructor|].
    rewrite firstn_nil, skipn_nil. constructor; [reflexivity|exact IH]. }
  specialize (H count).
  assert (Hrev : Forall (fun b : list A => b = []) (rev (chunks size count []))).
  { apply List.Forall_forall. intros b Hb. apply in_rev in Hb.
    rewrite List.Forall_forall in H. auto. }
  induction Hrev as [|b l -> _ IH]; simpl; auto.
Qed.

Lemma chunks_of_nil {A : Type} (size count : nat) (b : list A) :
  In b (chunks size count []) -> b = [].
Proof.
  induction count as [|c IH]; simpl; [tauto|].
  rewrite firstn_nil, skipn_nil. intros [<-|H]; auto.
Qed.

Lemma fliplr_empty {A : Type} (a b : ndarray A) :
  data a = [] -> fliplr a = Ok b -> data b = [].
Proof.
  unfold fliplr. intros Ha. destruct (shape a) as [|n0 [|n1 sh]]; try discriminate.
  intros H. inversion H; subst. clear H. simpl. rewrite Ha.
  match goal with |- concat (map ?f ?l) = [] =>
    assert (Hall : forall x, In x l -> f x = [])
  end.
  { intros x Hx. apply chunks_of_nil in Hx. subst x. apply chunks_nil. }
  induction (chunks _ _ _) as [|x l IH]; simpl; [reflexivity|].
  rewrite Hall by (left; reflexivity). simpl.
  apply IH. intros y Hy. apply Hall. right. exact Hy.
Qed.

(** ** The boxes of the modes *)

Lemma lookup_box_of (mn mx : list Z) (j : nat) :
  box_of mn mx !! j =
    match mn !! j, mx !! j with
    | Some lo, Some hi => Some (mkslice lo hi)
    | _, _ => None
    end.
Proof.
  unfold box_of. rewrite lookup_map, lookup_combine.
  destruct (mn !! j), (mx !! j); reflexivity.
Qed.

Lemma np_reduce_first_spec (f : list Z -> Z) (rows : list (list Z)) (out : list Z) :
  np_reduce_first f rows = Ok out ->
  exists r, rows !! 0%nat = Some r /\ length out = length r /\
    forall j x, out !! j = Some x -> x = f (map (fun row => nth j row 0) rows).
Proof.
  unfold np_reduce_first. destruct rows as [|r rest]; [discriminate|].
  destruct (forallb _ rest); [|discriminate].
  intros H. inversion H; subst. clear H.
  exists r. split; [reflexivity|]. split; [now rewrite length_map, length_seq|].
  intros j x Hx. apply lookup_map_Some in Hx as [k [Hk ->]].
  apply lookup_seq in Hk as [-> _]. reflexivity.
Qed.

(** The corner taken as the minimum down the cases is not above the corner
    taken as the maximum. *)
Lemma column_min_le_max (rows : list (list Z)) (j : nat) :
  rows <> [] ->
  list_min (map (fun row => nth j row 0) rows)
  <= list_max (map (fun row => nth j row 0) rows).
Proof.
  intros Hne.
  assert (Hc : map (fun row : list Z => nth j row 0) rows <> []).
  { destruct rows; [congruence|discriminate]. }
  destruct (list_min_spec _ Hc) as [Hin _].
  destruct (list_max_spec _ Hc) as [_ Hmax].
  rewrite List.Forall_forall in Hmax. apply Hmax. exact Hin.
Qed.

Lemma column_nonneg (masks : list (ndarray Z)) (mins : list (list Z)) (j : nat)
    (r : list Z) (f : list Z -> Z) :
  map_result np_min_last (map (fun mask => np_where (gt0 mask)) masks) = Ok mins ->
  mins !! 0%nat = Some r -> (j < length r)%nat ->
  Forall (fun row => (length row =? length r)%nat = true) mins ->
  (forall l, l <> [] -> In (f l) l) ->
  0 <= f (map (fun row => nth j row 0) mins).
Proof.
  intros Hmins Hr Hj Hlen Hf.
  assert (Hc : map (fun row : list Z => nth j row 0) mins <> []).
  { destruct mins; [discriminate|discriminate]. }
  specialize (Hf _ Hc). apply in_map_iff in Hf as [row [<- Hrow]].
  rewrite map_result_map in Hmins. apply map_result_Forall2 in Hmins.
  apply In_lookup in Hrow as [k Hk].
  destruct (Forall2_lookup_r _ _ _ _ _ Hmins Hk) as [mask [_ Hmin]].
  rewrite Forall_lookup in Hlen. specialize (Hlen k row Hk).
  apply Nat.eqb_eq in Hlen.
  assert (Hjr : (j < length row)%nat) by lia.
  destruct (lookup_lt_is_Some_2 row j Hjr) as [x Hx].
  rewrite nth_lookup, Hx. simpl.
  unfold np_min_last in Hmin. rewrite np_reduce_where in Hmin.
  case_decide as Hne; [discriminate|]. inversion Hmin as [Erow]. clear Hmin.
  rewrite <- Erow in Hx. apply lookup_map_Some in Hx as [j' [Hj' ->]].
  apply lookup_seq in Hj' as [-> Hj'].
  set (col := map (fun v => nth j v 0) (true_voxels (gt0 mask))).
  assert (Hcol : col <> []).
  { unfold col. destruct (true_voxels (gt0 mask)); simpl; [tauto|discriminate]. }
  destruct (list_min_spec col Hcol) as [Hin _].
  unfold col in Hin at 2. apply in_map_iff in Hin as [v [Ev Hv]].
  apply true_voxels_ndindex, in_ndindex in Hv. simpl in Hj'.
  destruct (lookup_lt_is_Some_2 (shape (gt0 mask)) j Hj') as [n Hn].
  destruct (Forall2_lookup_r _ _ _ _ _ Hv Hn) as [y [Hy Hyn]].
  rewrite nth_lookup, Hy in Ev. simpl in Ev. simpl. fold col. lia.
Qed.

Lemma reduce_first_rows (f : list Z -> Z) (rows : list (list Z)) (out : list Z) :
  np_reduce_first f rows = Ok out ->
  exists r, rows !! 0%nat = Some r /\
    Forall (fun row => (length row =? length r)%nat = true) rows.
Proof.
  unfold np_reduce_first. destruct rows as [|r rest]; [discriminate|].
  destruct (forallb _ rest) eqn:E; [|discriminate]. intros _.
  exists r. split; [reflexivity|]. constructor; [apply Nat.eqb_refl|].
  apply List.Forall_forall. rewrite forallb_forall in E. exact E.
Qed.

Lemma np_min_last_nonempty (a : ndarray bool) (r : list Z) :
  np_min_last (np_where a) = Ok r -> r <> [].
Proof.
  unfold np_min_last. rewrite np_reduce_where.
  case_decide as Hne; [discriminate|]. intros H. inversion H. clear H.
  destruct (shape a) as [|n sh]; [tauto|]. simpl. discriminate.
Qed.

(** With a mode, every slice of the box shared by the cases is empty when
    there is one mask; in mode ['min'] it is empty for any number of
    masks. *)
Lemma mode_box_empty (mode : mode_arg) (masks : list (ndarray Z)) (bb : bb_attr) :
  bounding_boxes mode masks = Ok bb -> mode <> ModeNone ->
  exists box, bb = BoxTuple box /\ box <> [] /\
    (mode = ModeMin \/ length masks = 1%nat -> Forall empty_slice box).
Proof.
  intros Hbb Hmode. destruct mode; [congruence| |]; simpl in Hbb.
  - destruct (map_result np_min_last _) as [mins|e] eqn:Hmins; [simpl in Hbb|discriminate].
    destruct (np_reduce_first list_max mins) as [min_bb|e] eqn:Hmn;
      [simpl in Hbb|discriminate].
    destruct (np_reduce_first list_min mins) as [max_bb|e] eqn:Hmx;
      [simpl in Hbb|discriminate].
    inversion Hbb; subst. clear Hbb. eexists. split; [reflexivity|].
    destruct (np_reduce_first_spec _ _ _ Hmn) as [r [Hr [Ln Hn]]].
    destruct (np_reduce_first_spec _ _ _ Hmx) as [r' [Hr' [Lx Hx]]].
    assert (r' = r) by congruence. subst r'.
    destruct (reduce_first_rows _ _ _ Hmn) as [r' [Hr'' Hrows]].
    assert (r' = r) by congruence. subst r'.
    assert (Hrne : r <> []).
    { rewrite map_result_map in Hmins. apply map_result_Forall2 in Hmins.
      destruct (Forall2_lookup_r _ _ _ _ _ Hmins Hr) as [mask [_ Hmin]].
      eapply np_min_last_nonempty; eauto. }
    split.
    { unfold box_of. destruct min_bb, max_bb, r; simpl in *; try lia; try congruence;
        discriminate. }
    intros _. apply Forall_lookup. intros j s Hs.
    rewrite lookup_box_of in Hs.
    destruct (min_bb !! j) as [lo|] eqn:Hlo; [|discriminate].
    destruct (max_bb !! j) as [hi|] eqn:Hhi; [|discriminate].
    inversion Hs; subst. clear Hs. unfold empty_slice. simpl.
    rewrite (Hn j lo Hlo), (Hx j hi Hhi).
    assert (Hj : (j < length r)%nat) by (apply lookup_lt_Some in Hlo; lia).
    split.
    + apply (column_nonneg masks mins j r list_min Hmins Hr Hj Hrows).
      intros l Hl. apply list_min_spec. exact Hl.
    + apply column_min_le_max. destruct mins; [discriminate|discriminate].
  - destruct (map_result np_min_last _) as [mins|e] eqn:Hmins; [simpl in Hbb|discriminate].
    destruct (np_reduce_first list_min mins) as [min_bb|e] eqn:Hmn;
      [simpl in Hbb|discriminate].
    destruct (np_reduce_first list_max mins) as [max_bb|e] eqn:Hmx;
      [simpl in Hbb|discriminate].
    inversion Hbb; subst. clear Hbb. eexists. split; [reflexivity|].
    destruct (np_reduce_first_spec _ _ _ Hmn) as [r [Hr [Ln Hn]]].
    destruct (np_reduce_first_spec _ _ _ Hmx) as [r' [Hr' [Lx Hx]]].
    assert (r' = r) by congruence. subst r'.
    destruct (reduce_first_rows _ _ _ Hmn) as [r' [Hr'' Hrows]].
    assert (r' = r) by congruence. subst r'.
    assert (Hrne : r <> []).
    { rewrite map_result_map in Hmins. apply map_result_Forall2 in Hmins.
      destruct (Forall2_lookup_r _ _ _ _ _ Hmins Hr) as [mask [_ Hmin]].
      eapply np_min_last_nonempty; eauto. }
    split.
    { unfold box_of. destruct min_bb, max_bb, r; simpl in *; try lia; try congruence;
        discriminate. }
    intros [Hm|Hone]; [discriminate Hm|].
    assert (Hmins1 : mins = [r]).
    { apply map_result_Forall2, Forall2_length in Hmins.
      rewrite length_map, Hone in Hmins.
      destruct mins as [|r0 [|r1 mins]]; simpl in Hmins; try lia.
      simpl in Hr. congruence. }
    apply Forall_lookup. intros j s Hs.
    rewrite lookup_box_of in Hs.
    destruct (min_bb !! j) as [lo|] eqn:Hlo; [|discriminate].
    destruct (max_bb !! j) as [hi|] eqn:Hhi; [|discriminate].
    inversion Hs; subst s. clear Hs. unfold empty_slice. simpl.
    rewrite (Hn j lo Hlo), (Hx j hi Hhi).
    assert (Hj : (j < length r)%nat) by (apply lookup_lt_Some in Hlo; lia).
    split.
    + apply (column_nonneg masks mins j r list_max Hmins Hr Hj Hrows).
      intros l Hl. apply list_max_spec. exact Hl.
    + rewrite Hmins1. simpl. lia.
Qed.

(** With a mode there is one entry in [bb]: with one case it is the box,
    and with any other number of cases the crop raises. *)
Lemma crop_with_mode {A : Type} (mode : mode_arg) (masks : list (ndarray Z))
    (bb : bb_attr) (ncases : nat) (index : Z) (v : bb_value) (case sub : ndarray A) :
  bounding_boxes mode masks = Ok bb -> mode <> ModeNone ->
  mode = ModeMin \/ length masks = ncases ->
  select_bb bb ncases index = Ok v ->
  crop_case case v = Ok sub ->
  ncases = 1%nat /\ data sub = [].
Proof.
  intros Hbb Hmode Hlen Hsel Hcrop.
  destruct (mode_box_empty _ _ _ Hbb Hmode) as [box [-> [Hne Hempty]]].
  unfold select_bb, bb_len in Hsel.
  destruct (1 =? ncases)%nat eqn:E.
  - apply Nat.eqb_eq in E. subst ncases. split; [reflexivity|].
    destruct (py_index [box] index) as [b'|e] eqn:Hb; [|discriminate].
    simpl in Hsel. assert (Ev : v = OneBox b') by congruence. subst v. clear Hsel.
    assert (b' = box).
    { unfold py_index in Hb. destruct (_ <? 0); [discriminate|].
      destruct ([box] !! _) as [x|] eqn:Hx; [|discriminate].
      inversion Hb; subst. apply list_elem_of_lookup_2 in Hx.
      apply list_elem_of_In in Hx. destruct Hx as [<-|[]]. reflexivity. }
    subst b'. simpl in Hcrop.
    destruct box as [|s1 ss]; [congruence|].
    eapply getitem_empty; [|exact Hcrop].
    assert (Hall : Forall empty_slice (s1 :: ss)) by (apply Hempty; tauto).
    inversion Hall. assumption.
  - simpl in Hsel. assert (Ev : v = WholeTuple box) by congruence.
    subst v. discriminate Hcrop.
Qed.

(** X9: with the mode ['min'] or ['max'] and as many masks as cases, none of
    the bounding-box datasets ever returns image data: [__getitem__] raises
    when the number of cases is not one (the attribute [bb] is then a tuple
    that cannot be appended to a list), and with one case the box stops
    where it starts, so that the crop has no entry.  The conclusion is
    stated for [BBImageDataset], for [BBImageValueDataset], whose default
    mode is ['max'], and for [BBImageTupleDataset]. *)
Theorem mode_crops_are_empty (mode : mode_arg) (cases masks : list (ndarray Z))
    (index : Z) :
  mode <> ModeNone -> length masks = length cases ->
  (forall labels sampler flip d it,
     BBImageDataset.__init__ cases labels masks sampler mode flip = Ok d ->
     BBImageDataset.__getitem__ d index = Ok it ->
     length cases = 1%nat /\ data (image_inputs it) = []) /\
  (forall values sampler d it,
     BBImageValueDataset.__init__ cases values masks sampler mode = Ok d ->
     BBImageValueDataset.__getitem__ d index = Ok it ->
     length cases = 1%nat /\ data (value_inputs it) = []) /\
  (forall labels d inputs targets,
     BBImageTupleDataset.__init__ cases labels masks mode = Ok d ->
     BBImageTupleDataset.__getitem__ d index = Ok (inputs, targets) ->
     length cases = 1%nat /\ data inputs = []).
Proof.
  intros Hmode Hlen. split; [|split].
  - intros labels sampler flip d it Hinit Hget.
    unfold BBImageDataset.__init__ in Hinit.
    destruct (bounding_boxes mode masks) as [bb|e] eqn:Hbb; [|discriminate].
    simpl in Hinit. inversion Hinit; subst d. clear Hinit.
    unfold BBImageDataset.__getitem__ in Hget. simpl in Hget.
    destruct (select_bb bb (length cases) index) as [v|e] eqn:Hsel; [|discriminate].
    simpl in Hget.
    assert (Hin : exists inputs case sub,
               crop_case case v = Ok sub /\
               (inputs = sub \/ fliplr sub = Ok inputs) /\
               image_inputs it = inputs).
    { destruct flip.
      - destruct (py_index cases (index / 2)) as [case|e]; [|discriminate].
        simpl in Hget.
        destruct (crop_case case v) as [sub|e] eqn:Hc; [|discriminate].
        simpl in Hget.
        destruct (index mod 2 =? 1).
        + destruct (fliplr sub) as [inputs|e] eqn:Hf; [|discriminate].
          simpl in Hget. exists inputs, case, sub.
          split; [exact Hc|]. split; [right; exact Hf|].
          destruct labels as [ls|]; [|inversion Hget; reflexivity].
          match type of Hget with (?m ≫= _) = _ => destruct m as [t|e]; [|discriminate] end.
          simpl in Hget.
          destruct sampler; inversion Hget; reflexivity.
        + simpl in Hget. exists sub, case, sub.
          split; [exact Hc|]. split; [left; reflexivity|].
          destruct labels as [ls|]; [|inversion Hget; reflexivity].
          match type of Hget with (?m ≫= _) = _ => destruct m as [t|e]; [|discriminate] end.
          simpl in Hget.
          destruct sampler; inversion Hget; reflexivity.
      - destruct (py_index cases index) as [case|e]; [|discriminate].
        simpl in Hget.
        destruct (crop_case case v) as [sub|e] eqn:Hc; [|discriminate].
        simpl in Hget. exists sub, case, sub.
        split; [exact Hc|]. split; [left; reflexivity|].
        destruct labels as [ls|]; [|inversion Hget; reflexivity].
        match type of Hget with (?m ≫= _) = _ => destruct m as [t|e]; [|discriminate] end.
          simpl in Hget.
        destruct sampler; inversion Hget; reflexivity. }
    destruct Hin as (inputs & case & sub & Hc & Hflip & ->).
    destruct (crop_with_mode mode masks bb _ index v case sub Hbb Hmode
                (or_intror Hlen) Hsel Hc) as [H1 Hd].
    split; [exact H1|].
    destruct Hflip as [->|Hf]; [exact Hd|].
    eapply fliplr_empty; eauto.
  - intros values sampler d it Hinit Hget.
    unfold BBImageValueDataset.__init__ in Hinit.
    destruct (bounding_boxes mode masks) as [bb|e] eqn:Hbb; [|discriminate].
    simpl in Hinit. inversion Hinit; subst d. clear Hinit.
    unfold BBImageValueDataset.__getitem__ in Hget. simpl in Hget.
    destruct (select_bb bb (length cases) index) as [v|e] eqn:Hsel; [|discriminate].
    simpl in Hget.
    destruct (py_index cases index) as [case|e]; [|discriminate]. simpl in Hget.
    destruct (crop_case case v) as [sub|e] eqn:Hc; [|discriminate]. simpl in Hget.
    destruct (crop_with_mode mode masks bb _ index v case sub Hbb Hmode
                (or_intror Hlen) Hsel Hc) as [H1 Hd].
    split; [exact H1|].
    destruct values as [vs|]; [|inversion Hget; exact Hd].
    destruct (py_index vs index) as [x|e]; [|discriminate]. simpl in Hget.
    destruct sampler; inversion Hget; exact Hd.
  - intros labels d inputs targets Hinit Hget.
    unfold BBImageTupleDataset.__init__ in Hinit.
    destruct (map_result _ (combine labels masks)) as [mix|e]; [|discriminate].
    simpl in Hinit.
    destruct (bounding_boxes mode masks) as [bb|e] eqn:Hbb; [|discriminate].
    simpl in Hinit. inversion Hinit; subst d. clear Hinit.
    unfold BBImageTupleDataset.__getitem__ in Hget. simpl in Hget.
    destruct (select_bb bb (length cases) index) as [v|e] eqn:Hsel; [|discriminate].
    simpl in Hget.
    destruct (py_index cases index) as [case|e]; [|discriminate]. simpl in Hget.
    destruct (crop_case case v) as [sub|e] eqn:Hc; [|discriminate]. simpl in Hget.
    destruct (crop_with_mode mode masks bb _ index v case sub Hbb Hmode
                (or_intror Hlen) Hsel Hc) as [H1 Hd].
    split; [exact H1|].
    destruct (py_index labels index) as [l|e]; [|discriminate]. simpl in Hget.
    destruct (crop_labels l v) as [t1|e]; [|discriminate]. simpl in Hget.
    destruct (py_index mix index) as [m|e]; [|discriminate]. simpl in Hget.
    destruct (crop_labels m v) as [t2|e]; [|discriminate]. simpl in Hget.
    inversion Hget; subst. exact Hd.
Qed.

Lemma bounding_boxes_none (masks : list (ndarray Z)) (bb : bb_attr) :
  bounding_boxes ModeNone masks = Ok bb ->
  exists boxes, bb = BoxPerMask boxes /\
    Forall2
      (fun mask box =>
         exists mn mx,
           np_min_last (np_where (gt0 mask)) = Ok mn /\
           np_max_last (np_where (gt0 mask)) = Ok mx /\
           box = box_of mn mx)
      masks boxes.
Proof.
  simpl. destruct (map_result _ _) as [boxes|e] eqn:Hb; [simpl|discriminate].
  intros H. inversion H; subst. clear H. exists boxes. split; [reflexivity|].
  rewrite map_result_map in Hb. apply map_result_Forall2 in Hb.
  eapply Forall2_impl; [exact Hb|]. intros mask box Hbox. simpl in Hbox.
  destruct (np_min_last _) as [mn|e]; [simpl in Hbox|discriminate].
  destruct (np_max_last _) as [mx|e]; [simpl in Hbox|discriminate].
  inversion Hbox. eauto.
Qed.

Lemma py_index_past_end {A : Type} (l : list A) (i : Z) :
  Z.of_nat (length l) <= i -> py_index l i = Raise IndexError.
Proof.
  intros Hi. unfold py_index.
  assert (E : (i <? 0) = false) by lia. rewrite E, E.
  rewrite lookup_ge_None_2 by lia. reflexivity.
Qed.

(** X10: a [BBImageDataset] that flips reports twice as many items as it
    has cases, but the boxes are looked up with the index of the item and
    not with the index of its case: without a mode and with as many masks
    as cases, [__getitem__] raises [IndexError] for every index of the
    second half. *)
Theorem flip_second_half_raises (cases : list (ndarray Z))
    (labels : option (list (ndarray Z))) (masks : list (ndarray Z))
    (sampler : bool) (d : BBImageDataset.t) (i : Z) :
  BBImageDataset.__init__ cases labels masks sampler ModeNone true = Ok d ->
  length masks = length cases ->
  Z.of_nat (length cases) <= i < BBImageDataset.__len__ d ->
  BBImageDataset.__len__ d = 2 * Z.of_nat (length cases) /\
  BBImageDataset.__getitem__ d i = Raise IndexError.
Proof.
  unfold BBImageDataset.__init__. intros Hinit Hlen Hi.
  destruct (bounding_boxes ModeNone masks) as [bb|e] eqn:Hbb; [|discriminate].
  simpl in Hinit. inversion Hinit; subst d. clear Hinit.
  unfold BBImageDataset.__len__ in *. cbn [BBImageDataset.flip BBImageDataset.cases] in *.
  split; [lia|].
  destruct (bounding_boxes_none _ _ Hbb) as [boxes [-> Hall]].
  apply Forall2_length in Hall.
  unfold BBImageDataset.__getitem__, select_bb.
  cbn [BBImageDataset.bb BBImageDataset.cases bb_len].
  assert (E : (length boxes =? length cases)%nat = true)
    by (apply Nat.eqb_eq; lia).
  rewrite E. rewrite (py_index_past_end boxes i) by lia. reflexivity.
Qed.

Lemma slice_len_inside (n lo hi : Z) :
  0 <= lo -> lo <= hi -> hi <= n -> slice_len n (mkslice lo hi) = hi - lo.
Proof.
  intros H1 H2 H3. unfold slice_len, slice_indices, clip_index. simpl.
  assert (E1 : (lo <? 0) = false) by lia.
  assert (E2 : (hi <? 0) = false) by lia.
  rewrite E1, E2. lia.
Qed.

Lemma sliced_shape_box (sh mn mx : list Z) :
  length mn = length sh -> length mx = length sh ->
  (forall j lo hi n,
     mn !! j = Some lo -> mx !! j = Some hi -> sh !! j = Some n ->
     0 <= lo /\ lo <= hi /\ hi < n) ->
  sliced_shape sh (box_of mn mx) = zip_with (fun lo hi => hi - lo) mn mx.
Proof.
  revert mn mx. induction sh as [|n sh IH]; intros [|lo mn] [|hi mx] L1 L2 H;
    simpl in *; try lia; [reflexivity|].
  destruct (H 0%nat lo hi n eq_refl eq_refl eq_refl) as (H1 & H2 & H3).
  unfold box_of in *. simpl.
  rewrite slice_len_inside by lia. f_equal.
  apply IH; [lia|lia|].
  intros j lo' hi' n' Hlo Hhi Hn. apply (H (S j)); assumption.
Qed.

(** X11: without a mode, the box of a case stops at the last foreground
    coordinate, which a slice excludes: the image of case [k] is cropped to
    [max - min] entries in every dimension, one less than the extent of the
    foreground, so that a mask with a single foreground voxel gives an image
    without entries. *)
Theorem crop_leaves_out_last_plane (cases masks : list (ndarray Z))
    (sampler : bool) (d : BBImageDataset.t) (k : nat) (case mask : ndarray Z)
    (channels : Z) :
  BBImageDataset.__init__ cases None masks sampler ModeNone false = Ok d ->
  length masks = length cases ->
  cases !! k = Some case -> masks !! k = Some mask ->
  shape case = channels :: shape mask -> 0 <= channels ->
  exists mn mx inputs,
    np_min_last (np_where (gt0 mask)) = Ok mn /\
    np_max_last (np_where (gt0 mask)) = Ok mx /\
    BBImageDataset.__getitem__ d (Z.of_nat k) = Ok (BBImageDataset.Inputs inputs) /\
    shape inputs = channels :: zip_with (fun lo hi => hi - lo) mn mx.
Proof.
  unfold BBImageDataset.__init__. intros Hinit Hlen Hcase Hmask Hshape Hch.
  destruct (bounding_boxes ModeNone masks) as [bb|e] eqn:Hbb; [|discriminate].
  simpl in Hinit. inversion Hinit; subst d. clear Hinit.
  destruct (bounding_boxes_none _ _ Hbb) as [boxes [-> Hall]].
  destruct (Forall2_lookup_l _ _ _ _ _ Hall Hmask)
    as [box [Hbox [mn [mx [Hmn [Hmx ->]]]]]].
  exists mn, mx.
  destruct (bounding_box_spec _ _ _ Hmn Hmx) as (Lmn & Lmx & _ & _ & Hb).
  simpl in Lmn, Lmx, Hb.
  apply Forall2_length in Hall.
  unfold BBImageDataset.__getitem__, select_bb. simpl.
  assert (E : (length boxes =? length cases)%nat = true)
    by (apply Nat.eqb_eq; lia).
  rewrite E.
  rewrite (py_index_nonneg boxes (Z.of_nat k) (box_of mn mx))
    by (try lia; rewrite Nat2Z.id; exact Hbox).
  simpl.
  rewrite (py_index_nonneg cases (Z.of_nat k) case)
    by (try lia; rewrite Nat2Z.id; exact Hcase).
  simpl.
  destruct (getitem_ok case (none_slice case :: box_of mn mx)) as [sub [Hsub Hsh]].
  { rewrite Hshape. unfold box_of. simpl.
    rewrite length_map, length_combine. lia. }
  rewrite Hsub. simpl. exists sub. split; [exact Hmn|]. split; [exact Hmx|].
  split; [reflexivity|].
  rewrite Hsh, Hshape. unfold none_slice. rewrite Hshape. simpl.
  rewrite slice_len_inside by lia. rewrite Z.sub_0_r. f_equal.
  apply sliced_shape_box; [exact Lmn|exact Lmx|].
  intros j lo hi n Hlo Hhi Hn.
  destruct (Hb j lo hi n Hlo Hhi Hn) as (H1 & H2 & H3 & _). lia.
Qed.

(** * The samplers *)

(** ** Recording weights *)

Lemma lookup_put_other (idx : list nat) (vs t : list Q) (i : nat) :
  ~ In i idx ->
  fold_left (fun acc iv => <[fst iv := snd iv]> acc) (combine idx vs) t !! i = t !! i.
Proof.
  revert vs t. induction idx as [|j idx IH]; intros [|v vs] t Hi; simpl; auto.
  rewrite IH by (intros H; apply Hi; right; exact H).
  apply list_lookup_insert_ne. intros ->. apply Hi. left. reflexivity.
Qed.

Lemma length_put (idx : list nat) (vs t : list Q) :
  length (fold_left (fun acc iv => <[fst iv := snd iv]> acc) (combine idx vs) t)
  = length t.
Proof.
  revert vs t. induction idx as [|j idx IH]; intros [|v vs] t; simpl; auto.
  rewrite IH. apply length_insert.
Qed.

Lemma lookup_put_same (idx : list nat) (vs t : list Q) (k i : nat) (v : Q) :
  List.NoDup idx -> idx !! k = Some i -> vs !! k = Some v -> (i < length t)%nat ->
  fold_left (fun acc iv => <[fst iv := snd iv]> acc) (combine idx vs) t !! i = Some v.
Proof.
  revert vs t k. induction idx as [|j idx IH]; intros [|v0 vs] t k Hnd Hk Hv Hi;
    try discriminate.
  inversion Hnd as [|? ? Hnotin Hnd']; subst. destruct k as [|k]; simpl in *.
  - inversion Hk; inversion Hv; subst.
    rewrite lookup_put_other by exact Hnotin.
    apply list_lookup_insert_eq. exact Hi.
  - apply (IH vs _ k Hnd' Hk Hv). rewrite length_insert. exact Hi.
Qed.

(** X12: [update_weights] records the new weights at the given indices and
    nothing else: when it returns for as many weights as indices, the
    tensor of weights keeps its length, the weight at the [k]-th index is
    the [k]-th new weight (for pairwise distinct indices), every index is
    within the tensor, the weights at the other positions and the other
    tensors are unchanged, and so are the fields of the sampler. *)
Theorem update_weights_records (rng : Type) (new_weights : list Q)
    (idx : list nat) (s s' : WSRS.state rng) :
  length new_weights = length idx ->
  WSRS.update_weights rng new_weights idx s = (Done tt, s') ->
  exists w w',
    WSRS.heap rng s !! WSRS.weights (WSRS.self rng s) = Some w /\
    WSRS.heap rng s' !! WSRS.weights (WSRS.self rng s) = Some w' /\
    WSRS.self rng s' = WSRS.self rng s /\
    Forall (fun i => (i < length w)%nat) idx /\ length w' = length w /\
    (forall r, r <> WSRS.weights (WSRS.self rng s) ->
       WSRS.heap rng s' !! r = WSRS.heap rng s !! r) /\
    (forall i, ~ In i idx -> w' !! i = w !! i) /\
    (List.NoDup idx ->
     forall k i v, idx !! k = Some i -> new_weights !! k = Some v ->
       w' !! i = Some v).
Proof.
  intros _.
  unfold WSRS.update_weights, mbind, M_bind, WSRS.get_self, WSRS.read, WSRS.lift,
    WSRS.write.
  destruct (WSRS.heap rng s !! WSRS.weights (WSRS.self rng s)) as [w|] eqn:Hw;
    [|discriminate].
  unfold index_put.
  destruct (length idx =? length new_weights)%nat eqn:El; simpl; [|discriminate].
  destruct (forallb _ idx) eqn:Hall; [|discriminate].
  intros H. inversion H; subst s'. clear H. simpl.
  apply Nat.eqb_eq in El. rewrite forallb_forall in Hall.
  eexists w, _. split; [reflexivity|]. split.
  { apply list_lookup_insert_eq. eapply lookup_lt_Some; eauto. }
  split; [reflexivity|].
  split; [apply List.Forall_forall; intros i Hi; apply Nat.ltb_lt, Hall, Hi|].
  split; [apply length_put|].
  split; [|split].
  - intros r Hr. apply list_lookup_insert_ne. congruence.
  - intros i Hi. apply lookup_put_other. exact Hi.
  - intros Hnd k i v Hk Hv. eapply lookup_put_same; eauto.
    apply Nat.ltb_lt. apply Hall. apply In_lookup. eauto.
Qed.

Lemma update_weights_records_witness :
  length [5; 6]%Q = length [2; 0]%nat /\
  WSRS.update_weights unit [5; 6]%Q [2; 0]%nat trained_example
    = (Done tt, WSRS.mkstate unit (WSRS.self unit trained_example) [[6; 2; 5; 4]%Q] tt) /\
  exists w w',
    WSRS.heap unit trained_example !! WSRS.weights (WSRS.self unit trained_example)
      = Some w /\
    [[6; 2; 5; 4]%Q] !! WSRS.weights (WSRS.self unit trained_example) = Some w' /\
    length w' = length w.
Proof.
  assert (Hl : length [5; 6]%Q = length [2; 0]%nat) by reflexivity.
  assert (H : WSRS.update_weights unit [5; 6]%Q [2; 0]%nat trained_example
    = (Done tt, WSRS.mkstate unit (WSRS.self unit trained_example) [[6; 2; 5; 4]%Q] tt))
    by reflexivity.
  split; [exact Hl|]. split; [exact H|].
  destruct (update_weights_records unit _ _ _ _ Hl H)
    as (w & w' & H1 & H2 & _ & _ & H5 & _).
  exists w, w'. auto.
Defined.

(** ** Blocks of a list *)

Lemma py_slice_nonneg {A : Type} (l : list A) (a b : Z) :
  0 <= a <= b ->
  py_slice l a b = firstn (Z.to_nat b - Z.to_nat a) (skipn (Z.to_nat a) l).
Proof.
  intros Hab. unfold py_slice, slice_indices, clip_index. simpl.
  assert (E1 : (a <? 0) = false) by lia.
  assert (E2 : (b <? 0) = false) by lia.
  rewrite E1, E2.
  destruct (Z_le_gt_dec a (Z.of_nat (length l))) as [Ha|Ha].
  - rewrite (Z.min_l a) by lia.
    destruct (Z_le_gt_dec b (Z.of_nat (length l))) as [Hb|Hb].
    + rewrite (Z.min_l b) by lia. f_equal. lia.
    + rewrite (Z.min_r b) by lia.
      rewrite !firstn_all2; [reflexivity| |]; rewrite length_skipn; lia.
  - rewrite (Z.min_r a), (Z.min_r b) by lia.
    rewrite !skipn_all2 by lia. rewrite !firstn_nil. reflexivity.
Qed.

Lemma firstn_app_chunk {A : Type} (l : list A) (a b : nat) :
  (a <= b)%nat -> firstn a l ++ firstn (b - a) (skipn a l) = firstn b l.
Proof.
  revert l b. induction a as [|a IH]; intros l b Hab; simpl.
  - rewrite Nat.sub_0_r. reflexivity.
  - destruct b as [|b]; [lia|]. destruct l as [|x l]; simpl.
    + rewrite firstn_nil. reflexivity.
    + rewrite IH by lia. reflexivity.
Qed.

(** The first [d] blocks of [m] entries are the first [d * m] entries. *)
Lemma concat_chunks {A : Type} (l : list A) (m : Z) (d : nat) :
  0 <= m ->
  concat (map (chunk l m) (seq 0 d)) = firstn (Z.to_nat (Z.of_nat d * m)) l.
Proof.
  intros Hm. induction d as [|d IH].
  - reflexivity.
  - rewrite seq_S, map_app, concat_app, IH. simpl. rewrite app_nil_r.
    unfold chunk. rewrite py_slice_nonneg by nia.
    replace (Z.to_nat ((Z.of_nat d + 1) * m) - Z.to_nat (Z.of_nat d * m))%nat
      with (Z.to_nat (Z.of_nat (S d) * m) - Z.to_nat (Z.of_nat d * m))%nat
      by (f_equal; f_equal; lia).
    apply firstn_app_chunk. nia.
Qed.

Lemma ceil_div_covers (n d : Z) : 0 < d -> 0 <= n -> 0 <= WSRS.ceil_div n d /\ n <= d * WSRS.ceil_div n d.
Proof.
  intros Hd Hn. unfold WSRS.ceil_div.
  pose proof (Z.mul_div_le (- n) d Hd) as H1.
  assert (H2 : (- n) / d <= 0) by (apply Z.div_le_upper_bound; lia).
  split; [lia|]. nia.
Qed.

(** ** The epochs of the warm-up *)

Section WarmUp.

Variable rng : Type.
Variable torch_randperm : rng -> nat -> list nat * rng.
Variable multinomial_draw : rng -> list Q -> nat -> list nat * rng.
Hypothesis torch_randperm_spec :
  forall g n, Permutation (fst (torch_randperm g n)) (seq 0 n).

Local Abbreviation state := (WSRS.state rng).
Local Abbreviation self := (WSRS.self rng).

Lemma update_warm_up (fuel : nat) (s : state) :
  WSRS.step (self s) + 1 < WSRS.step_inc (self s) ->
  WSRS.indices (self (snd (WSRS.update rng torch_randperm multinomial_draw fuel s)))
  = py_slice (WSRS.initial (self s))
      ((WSRS.step (self s) + 1) * WSRS.num_samples (self s))
      ((WSRS.step (self s) + 1 + 1) * WSRS.num_samples (self s)).
Proof.
  intros Hstep. rewrite update_unfold. unfold update_body.
  cbn [WSRS.set_step WSRS.step WSRS.step_inc WSRS.num_samples WSRS.initial].
  assert (E : (WSRS.step (self s) + 1 <? WSRS.step_inc (self s)) = true) by lia.
  rewrite E. unfold WSRS.set_self. cbn [fst snd WSRS.self].
  unfold update_rate. cbn [WSRS.self].
  destruct (_ && _); reflexivity.
Qed.

Lemma reached_warm_up (s0 : state) (k : nat) (s : state) :
  reached rng torch_randperm multinomial_draw s0 k s ->
  WSRS.step (self s0) = 0 ->
  WSRS.indices (self s0)
    = chunk (WSRS.initial (self s0)) (WSRS.num_samples (self s0)) 0 ->
  WSRS.step (self s) = Z.of_nat k /\
  WSRS.step_inc (self s) = WSRS.step_inc (self s0) /\
  WSRS.num_samples (self s) = WSRS.num_samples (self s0) /\
  WSRS.initial (self s) = WSRS.initial (self s0) /\
  (Z.of_nat k < WSRS.step_inc (self s0) ->
   WSRS.indices (self s)
     = chunk (WSRS.initial (self s0)) (WSRS.num_samples (self s0)) k).
Proof.
  intros Hreach Hstep0 Hind0.
  induction Hreach as [|n fuel s s' o _ IH Hrun _|n s s' o ws idx _ IH Hrun].
  - repeat split; auto.
  - destruct IH as (H1 & H2 & H3 & H4 & H5).
    pose proof (update_self rng torch_randperm multinomial_draw fuel s) as Hu.
    pose proof (update_warm_up fuel s) as Hw.
    rewrite Hrun in Hu, Hw. simpl in Hu, Hw.
    destruct Hu as (U1 & U2 & _ & _ & U5 & U6 & _).
    repeat split; try congruence; try lia.
    intros Hk. rewrite Hw by lia. rewrite H1, H3, H4. unfold chunk.
    f_equal; lia.
  - pose proof (keeps_self_update_weights rng ws idx s) as Hk.
    rewrite Hrun in Hk. simpl in Hk. rewrite Hk. exact IH.
Qed.

(** X13: the warm-up of [WeightedSubsetRandomSampler] goes once through the
    whole dataset.  For a sampler built with [sample_div >= 1], the indices
    yielded after [k < sample_div] calls to [update] (and any calls to
    [update_weights]) are the [k]-th block of [__len__()] entries of the
    initial permutation, and the [sample_div] blocks together are that
    permutation, which holds every sample index once. *)
Theorem warm_up_covers_dataset (num_samples sample_div : Z)
    (initial_rate rate_increase : Q) (h : list (list Q)) (g : rng) (s0 : state) :
  WSRS.__init__ rng torch_randperm num_samples sample_div initial_rate
                rate_increase h g = Ok s0 ->
  1 <= sample_div ->
  (forall k s,
     reached rng torch_randperm multinomial_draw s0 k s ->
     Z.of_nat k < sample_div ->
     WSRSI.__len__ (self s) = WSRSI.__len__ (self s0) /\
     WSRSI.__iter__ (self s)
       = chunk (WSRS.initial (self s0)) (WSRSI.__len__ (self s0)) k) /\
  concat (map (chunk (WSRS.initial (self s0)) (WSRSI.__len__ (self s0)))
              (seq 0 (Z.to_nat sample_div)))
    = WSRS.initial (self s0) /\
  Permutation (WSRS.initial (self s0)) (seq 0 (Z.to_nat num_samples)).
Proof.
  intros Hinit Hdiv.
  assert (Hfields :
    WSRS.step (self s0) = 0 /\ WSRS.step_inc (self s0) = sample_div /\
    WSRS.num_samples (self s0) = WSRS.ceil_div num_samples sample_div /\
    0 <= num_samples /\
    WSRS.indices (self s0)
      = chunk (WSRS.initial (self s0)) (WSRS.num_samples (self s0)) 0 /\
    Permutation (WSRS.initial (self s0)) (seq 0 (Z.to_nat num_samples))).
  { revert Hinit. unfold WSRS.__init__.
    destruct (sample_div =? 0); [discriminate|].
    destruct (num_samples <? 0) eqn:En; [discriminate|].
    pose proof (torch_randperm_spec g (Z.to_nat num_samples)) as Hp.
    destruct (torch_randperm g _) as [p g']. intros H. inversion H; subst.
    simpl. repeat split; auto; try lia.
    unfold chunk. simpl. f_equal. lia. }
  destruct Hfields as (F1 & F2 & F3 & F4 & F5 & F6).
  unfold WSRSI.__len__, WSRSI.__iter__. split; [|split; [|exact F6]].
  - intros k s Hreach Hk.
    destruct (reached_warm_up s0 k s Hreach F1 F5) as (_ & _ & R3 & _ & R5).
    split; [exact R3|]. apply R5. rewrite F2. exact Hk.
  - destruct (ceil_div_covers num_samples sample_div) as [C1 C2]; [lia|lia|].
    rewrite F3, concat_chunks by exact C1.
    apply firstn_all2. rewrite (Permutation_length F6), length_seq. nia.
Qed.

End WarmUp.

Lemma warm_up_covers_dataset_witness :
  WSRS.__init__ unit id_randperm 4 2 (1 # 4) (1 # 16) [] tt = Ok fresh_example /\
  1 <= 2 /\
  concat (map (chunk (WSRS.initial (WSRS.self unit fresh_example))
                     (WSRSI.__len__ (WSRS.self unit fresh_example)))
              (seq 0 (Z.to_nat 2)))
    = WSRS.initial (WSRS.self unit fresh_example).
Proof.
  assert (Hinit : WSRS.__init__ unit id_randperm 4 2 (1 # 4) (1 # 16) [] tt
                  = Ok fresh_example) by reflexivity.
  assert (Hd : 1 <= 2) by lia.
  split; [exact Hinit|]. split; [exact Hd|].
  exact (proj1 (proj2 (warm_up_covers_dataset unit id_randperm first_draw
                         id_randperm_spec 4 2 (1 # 4) (1 # 16) [] tt fresh_example
                         Hinit Hd))).
Defined.

(** ** The split sampler *)

Section Split.

Variable rng : Type.
Variable torch_randperm : rng -> nat -> list nat * rng.
Variable torch_argsort : list Q -> list nat.

Lemma split_indices_raises (me : WSplit.t) (g : rng) :
  exists e g', WSplit.split_indices rng torch_randperm torch_argsort me g = (inl e, g').
Proof.
  unfold WSplit.split_indices.
  destruct (torch_randperm g _) as [p1 g1].
  destruct (tensor_take _ p1) as [good1|e] eqn:H1; [|eauto].
  assert (Hg1 : exists l, good1 = Tensor1 l).
  { unfold tensor_take in H1. destruct (forallb _ p1); inversion H1. eauto. }
  destruct Hg1 as [l ->].
  destruct (tensor_at (Tensor1 l) _) as [good2|e] eqn:H2; [|eauto].
  assert (Hg2 : exists x, good2 = Tensor0 x).
  { unfold tensor_at in H2. destruct (py_index l _); inversion H2. eauto. }
  destruct Hg2 as [x ->].
  destruct (torch_randperm g1 _) as [p2 g2]. simpl. eauto.
Qed.

(** X14: once the warm-up of [WeightedSplitRandomSampler] is over, every
    call to [update] raises and changes nothing: the branch indexes a
    tensor without axes, so that neither the indices nor the step are
    assigned. *)
Theorem split_update_raises (me : WSplit.t) (g : rng) :
  WSplit.divs me <= WSplit.step me ->
  exists e g', WSplit.update rng torch_randperm torch_argsort me g = (Some e, me, g').
Proof.
  intros Hstep. unfold WSplit.update.
  assert (E : (WSplit.step me <? WSplit.divs me) = false) by lia. rewrite E.
  destruct (split_indices_raises me g) as [e [g' ->]]. eauto.
Qed.

Hypothesis torch_randperm_spec :
  forall g n, Permutation (fst (torch_randperm g n)) (seq 0 n).

Lemma split_updates_warm_up (me0 : WSplit.t) (g0 : rng) (k : nat) :
  WSplit.step me0 = 0 ->
  Z.of_nat k <= WSplit.divs me0 ->
  let me := fst (split_updates rng torch_randperm torch_argsort k me0 g0) in
  WSplit.step me = Z.of_nat k /\ WSplit.divs me = WSplit.divs me0 /\
  WSplit.num_samples me = WSplit.num_samples me0 /\
  WSplit.initial me = WSplit.initial me0 /\
  (WSplit.indices me0 = chunk (WSplit.initial me0) (WSplit.num_samples me0) 0 ->
   WSplit.indices me = chunk (WSplit.initial me0) (WSplit.num_samples me0) k).
Proof.
  intros Hstep0. induction k as [|k IH]; intros Hk; simpl.
  - repeat split; auto.
  - destruct IH as (H1 & H2 & H3 & H4 & H5); [lia|].
    destruct (split_updates rng torch_randperm torch_argsort k me0 g0) as [me g] eqn:Hrun.
    simpl in *. unfold WSplit.update.
    assert (E : (WSplit.step me <? WSplit.divs me) = true) by lia. rewrite E.
    simpl. repeat split; auto; try lia.
    intros _. rewrite H1, H3, H4. unfold chunk. f_equal; lia.
Qed.

(** X15: the warm-up of [WeightedSplitRandomSampler] yields the blocks of
    [num_samples // sample_div] entries of the initial permutation, one
    block further with every call to [update], up to the block number
    [sample_div]: that last block holds what is left of the permutation,
    which is nothing when [sample_div] divides [num_samples], while
    [__len__()] stays the length of a full block. *)
Theorem split_warm_up_blocks (num_samples sample_div splits : Z) (g g0 : rng)
    (me0 : WSplit.t) (k : nat) :
  WSplit.__init__ rng torch_randperm num_samples sample_div splits g = Ok (me0, g0) ->
  1 <= sample_div -> Z.of_nat k <= sample_div ->
  let me := fst (split_updates rng torch_randperm torch_argsort k me0 g0) in
  WSplit.__iter__ me = chunk (WSplit.initial me0) (num_samples / sample_div) k /\
  WSplit.__len__ me = num_samples / sample_div /\
  (Z.of_nat k = sample_div ->
   Z.of_nat (length (WSplit.__iter__ me))
   = Z.min (num_samples mod sample_div) (num_samples / sample_div)).
Proof.
  intros Hinit Hdiv Hk.
  assert (Hfields :
    WSplit.step me0 = 0 /\ WSplit.divs me0 = sample_div /\
    WSplit.num_samples me0 = num_samples / sample_div /\
    0 <= num_samples /\
    WSplit.indices me0 = chunk (WSplit.initial me0) (WSplit.num_samples me0) 0 /\
    length (WSplit.initial me0) = Z.to_nat num_samples).
  { revert Hinit. unfold WSplit.__init__.
    destruct (sample_div =? 0); [discriminate|].
    destruct (num_samples <? 0) eqn:En; [discriminate|].
    pose proof (torch_randperm_spec g (Z.to_nat num_samples)) as Hp.
    destruct (torch_randperm g _) as [p g']. intros H. inversion H; subst.
    simpl. repeat split; auto; try lia.
    - unfold chunk. simpl. f_equal. lia.
    - simpl in Hp. rewrite (Permutation_length Hp), length_seq. reflexivity. }
  destruct Hfields as (F1 & F2 & F3 & F4 & F5 & F6).
  destruct (split_updates_warm_up me0 g0 k F1) as (R1 & R2 & R3 & R4 & R5);
    [rewrite F2; exact Hk|].
  cbv zeta. unfold WSplit.__iter__, WSplit.__len__.
  rewrite R3, (R5 F5), F3. split; [reflexivity|]. split; [reflexivity|].
  intros Hlast.
  pose proof (Z.div_mod num_samples sample_div ltac:(lia)) as Hdm.
  pose proof (Z.mod_pos_bound num_samples sample_div ltac:(lia)) as Hmod.
  assert (Hq : 0 <= num_samples / sample_div) by (apply Z.div_pos; lia).
  unfold chunk. rewrite py_slice_nonneg by nia.
  rewrite length_firstn, length_skipn, F6, Hlast. nia.
Qed.

End Split.

Lemma split_warm_up_blocks_witness :
  WSplit.__init__ unit id_randperm 4 2 10 tt
    = Ok (WSplit.mk 0 2 10 4 2 (repeat (inject_Z 32767) 4) [0; 1; 2; 3]%nat
            [0; 1]%nat, tt) /\
  1 <= 2 /\ Z.of_nat 2 <= 2 /\
  WSplit.__iter__
    (fst (split_updates unit id_randperm (fun _ => []) 2
            (WSplit.mk 0 2 10 4 2 (repeat (inject_Z 32767) 4) [0; 1; 2; 3]%nat
               [0; 1]%nat) tt))
  = chunk [0; 1; 2; 3]%nat (4 / 2) 2.
Proof.
  assert (Hinit : WSplit.__init__ unit id_randperm 4 2 10 tt
    = Ok (WSplit.mk 0 2 10 4 2 (repeat (inject_Z 32767) 4) [0; 1; 2; 3]%nat
            [0; 1]%nat, tt)) by reflexivity.
  assert (Hd : 1 <= 2) by lia.
  assert (Hk : Z.of_nat 2 <= 2) by (simpl; lia).
  split; [exact Hinit|]. split; [exact Hd|]. split; [exact Hk|].
  exact (proj1 (split_warm_up_blocks unit id_randperm (fun _ => []) id_randperm_spec
                  4 2 10 tt tt _ 2 Hinit Hd Hk)).
Defined.

Lemma split_update_raises_witness :
  2 <= 2 /\
  exists e g',
    WSplit.update unit id_randperm (fun w => seq 0 (length w))
      (WSplit.mk 2 2 10 4 2 (repeat (inject_Z 32767) 4) [0; 1; 2; 3]%nat []) tt
    = (Some e,
       WSplit.mk 2 2 10 4 2 (repeat (inject_Z 32767) 4) [0; 1; 2; 3]%nat [], g').
Proof.
  assert (H : 2 <= 2) by lia. split; [exact H|].
  exact (split_update_raises unit id_randperm (fun w => seq 0 (length w))
           (WSplit.mk 2 2 10 4 2 (repeat (inject_Z 32767) 4) [0; 1; 2; 3]%nat [])
           tt H).
Defined.

(** * Instances *)

Lemma get_slices_bb_single_grid_witness :
  get_slices_bb (MaskArray (mask_of [6] [[0]; [5]])) [2] 0 false 0
    = Ok (Flat [[mkslice 0 2]; [mkslice 2 4]]) /\
  exists mn mx centers,
    np_min_last (np_where (gt0 (mask_of [6] [[0]; [5]]))) = Ok mn /\
    np_max_last (np_where (gt0 (mask_of [6] [[0]; [5]]))) = Ok mx /\
    Flat [[mkslice 0 2]; [mkslice 2 4]]
      = Flat (centers_to_slice centers (patch_half_of [2])).
Proof.
  assert (H : get_slices_bb (MaskArray (mask_of [6] [[0]; [5]])) [2] 0 false 0
              = Ok (Flat [[mkslice 0 2]; [mkslice 2 4]])) by reflexivity.
  split; [exact H|].
  destruct (get_slices_bb_single_grid _ _ _ _ _ H)
    as (mn & mx & centers & H1 & H2 & H3 & _).
  exists mn, mx, centers. auto.
Defined.

Lemma get_slices_boundary_in_bounds_witness :
  get_slices_boundary unit id_permutation binary_erosion
      [mask_of [4; 4] [[1; 1]; [2; 2]]] [2; 2] None 1%Q tt
    = Ok ([[[mkslice 0 2; mkslice 0 2]; [mkslice 1 3; mkslice 1 3]]], tt) /\
  exists m0,
    [mask_of [4; 4] [[1; 1]; [2; 2]]] !! 0%nat = Some m0 /\
    forall case s j s_j n p,
      In case [[[mkslice 0 2; mkslice 0 2]; [mkslice 1 3; mkslice 1 3]]] ->
      In s case -> s !! j = Some s_j ->
      shape m0 !! j = Some n -> [2; 2] !! j = Some p ->
      fits_patch n (2 * (p / 2)) s_j.
Proof.
  assert (H : get_slices_boundary unit id_permutation binary_erosion
      [mask_of [4; 4] [[1; 1]; [2; 2]]] [2; 2] None 1%Q tt
    = Ok ([[[mkslice 0 2; mkslice 0 2]; [mkslice 1 3; mkslice 1 3]]], tt))
    by (vm_compute; reflexivity).
  split; [exact H|].
  exact (proj2 (get_slices_boundary_in_bounds unit id_permutation binary_erosion
                  _ _ _ _ _ _ _ H)).
Defined.

Lemma get_slices_boundary_nonempty_witness :
  get_slices_boundary unit id_permutation binary_erosion
      [mask_of [3; 3] [[1; 1]]] [2; 2] None 1%Q tt
    = Ok ([[[mkslice 0 2; mkslice 0 2]]], tt) /\
  length [[[mkslice 0 2; mkslice 0 2]]] = length [mask_of [3; 3] [[1; 1]]] /\
  Forall (fun case => case <> []) [[[mkslice 0 2; mkslice 0 2]]].
Proof.
  assert (H : get_slices_boundary unit id_permutation binary_erosion
      [mask_of [3; 3] [[1; 1]]] [2; 2] None 1%Q tt
    = Ok ([[[mkslice 0 2; mkslice 0 2]]], tt))
    by (vm_compute; reflexivity).
  split; [exact H|].
  exact (get_slices_boundary_nonempty unit id_permutation binary_erosion
           _ _ _ _ _ _ _ H).
Defined.

Lemma mode_crops_are_empty_witness :
  ModeMin <> ModeNone /\
  length [mask_of [3; 3] [[1; 1]]] = length [small_image] /\
  forall labels sampler flip d it,
    BBImageDataset.__init__ [small_image] labels [mask_of [3; 3] [[1; 1]]]
                            sampler ModeMin flip = Ok d ->
    BBImageDataset.__getitem__ d 0 = Ok it ->
    length [small_image] = 1%nat /\ data (image_inputs it) = [].
Proof.
  assert (Hm : ModeMin <> ModeNone) by discriminate.
  assert (Hl : length [mask_of [3; 3] [[1; 1]]] = length [small_image])
    by reflexivity.
  split; [exact Hm|]. split; [exact Hl|].
  exact (proj1 (mode_crops_are_empty ModeMin [small_image]
                  [mask_of [3; 3] [[1; 1]]] 0 Hm Hl)).
Defined.

Lemma flip_second_half_raises_witness :
  BBImageDataset.__init__ [small_image] None [mask_of [3; 3] [[0; 0]; [2; 2]]]
                          false ModeNone true = Ok (corners_dataset true) /\
  length [mask_of [3; 3] [[0; 0]; [2; 2]]] = length [small_image] /\
  Z.of_nat (length [small_image]) <= 1
    < BBImageDataset.__len__ (corners_dataset true) /\
  BBImageDataset.__len__ (corners_dataset true)
    = 2 * Z.of_nat (length [small_image]) /\
  BBImageDataset.__getitem__ (corners_dataset true) 1 = Raise IndexError.
Proof.
  assert (Hinit :
    BBImageDataset.__init__ [small_image] None [mask_of [3; 3] [[0; 0]; [2; 2]]]
                            false ModeNone true = Ok (corners_dataset true))
    by reflexivity.
  assert (Hl : length [mask_of [3; 3] [[0; 0]; [2; 2]]] = length [small_image])
    by reflexivity.
  assert (Hi : Z.of_nat (length [small_image]) <= 1
               < BBImageDataset.__len__ (corners_dataset true))
    by (vm_compute; split; [discriminate|reflexivity]).
  split; [exact Hinit|]. split; [exact Hl|]. split; [exact Hi|].
  exact (flip_second_half_raises [small_image] None
           [mask_of [3; 3] [[0; 0]; [2; 2]]] false (corners_dataset true) 1
           Hinit Hl Hi).
Defined.

Lemma crop_leaves_out_last_plane_witness :
  BBImageDataset.__init__ [small_image] None [mask_of [3; 3] [[0; 0]; [2; 2]]]
                          false ModeNone false = Ok (corners_dataset false) /\
  length [mask_of [3; 3] [[0; 0]; [2; 2]]] = length [small_image] /\
  [small_image] !! 0%nat = Some small_image /\
  [mask_of [3; 3] [[0; 0]; [2; 2]]] !! 0%nat
    = Some (mask_of [3; 3] [[0; 0]; [2; 2]]) /\
  shape small_image = 1 :: shape (mask_of [3; 3] [[0; 0]; [2; 2]]) /\
  0 <= 1 /\
  exists mn mx inputs,
    np_min_last (np_where (gt0 (mask_of [3; 3] [[0; 0]; [2; 2]]))) = Ok mn /\
    np_max_last (np_where (gt0 (mask_of [3; 3] [[0; 0]; [2; 2]]))) = Ok mx /\
    BBImageDataset.__getitem__ (corners_dataset false) (Z.of_nat 0)
      = Ok (BBImageDataset.Inputs inputs) /\
    shape inputs = 1 :: zip_with (fun lo hi => hi - lo) mn mx.
Proof.
  assert (Hinit :
    BBImageDataset.__init__ [small_image] None [mask_of [3; 3] [[0; 0]; [2; 2]]]
                            false ModeNone false = Ok (corners_dataset false))
    by reflexivity.
  assert (Hl : length [mask_of [3; 3] [[0; 0]; [2; 2]]] = length [small_image])
    by reflexivity.
  assert (Hc : [small_image] !! 0%nat = Some small_image) by reflexivity.
  assert (Hm : [mask_of [3; 3] [[0; 0]; [2; 2]]] !! 0%nat
               = Some (mask_of [3; 3] [[0; 0]; [2; 2]])) by reflexivity.
  assert (Hs : shape small_image = 1 :: shape (mask_of [3; 3] [[0; 0]; [2; 2]]))
    by reflexivity.
  assert (Hch : 0 <= 1) by lia.
  split; [exact Hinit|]. split; [exact Hl|]. split; [exact Hc|].
  split; [exact Hm|]. split; [exact Hs|]. split; [exact Hch|].
  exact (crop_leaves_out_last_plane [small_image]
           [mask_of [3; 3] [[0; 0]; [2; 2]]] false (corners_dataset false) 0%nat
           small_image (mask_of [3; 3] [[0; 0]; [2; 2]]) 1 Hinit Hl Hc Hm Hs Hch).
Defined.

(** ** The boundary dataset *)

Lemma prefix_sum_ge (l : list Z) (k : nat) :
  Forall (fun x => 1 <= x) l -> (k <= length l)%nat ->
  Z.of_nat k <= prefix_sum l k.
Proof.
  intros Hl. revert k. induction Hl as [|x l Hx _ IH]; intros k Hk.
  - simpl in Hk. assert (k = 0%nat) by lia. subst. unfold prefix_sum. simpl. lia.
  - destruct k as [|k]; [unfold prefix_sum; simpl; lia|].
    simpl in Hk. specialize (IH k ltac:(lia)).
    unfold prefix_sum in *. simpl. lia.
Qed.

Lemma py_index_last_ok {A : Type} (l : list A) :
  l <> [] -> exists x, py_index l (-1) = Ok x /\ l !! (length l - 1)%nat = Some x.
Proof.
  intros Hne. destruct (l !! (length l - 1)%nat) as [x|] eqn:Hx.
  - exists x. split; [|reflexivity]. unfold py_index. simpl.
    assert (E : (-1 + Z.of_nat (length l) <? 0) = false).
    { apply Z.ltb_ge. destruct l; [congruence|]. rewrite length_cons. lia. }
    rewrite E.
    replace (Z.to_nat (-1 + Z.of_nat (length l))) with (length l - 1)%nat by lia.
    rewrite Hx. reflexivity.
  - apply lookup_ge_None in Hx. destruct l; [congruence|]. simpl in Hx. lia.
Qed.

Section BoundaryDataset.

Variable rng : Type.
Variable np_permutation : rng -> nat -> list nat * rng.
Variable imerode : ndarray bool -> ndarray bool.

Lemma boundary_slices_counts (masks : list (ndarray Z)) (patch_size : list Z)
    (rois : option (list (ndarray Z))) (rate : Q) (g g' : rng)
    (r : list (list (list slice))) :
  get_slices_boundary rng np_permutation imerode masks patch_size rois rate g
    = Ok (r, g') ->
  length r = length masks /\ masks <> [] /\
  Forall (fun x => 1 <= x) (map (fun s => Z.of_nat (length s)) r).
Proof.
  intros Hget.
  apply (get_slices_boundary_inv rng np_permutation imerode) in Hget
    as (m0 & centers & Hm0 & _ & Hlen & -> & Hall).
  split; [rewrite length_map; exact Hlen|].
  split; [intros ->; discriminate Hm0|].
  rewrite map_map. apply Forall_map, List.Forall_forall. intros cs Hcs.
  destruct (Hall cs Hcs) as [Hne _]. simpl.
  unfold centers_to_slice. destruct cs; [congruence|]. simpl. lia.
Qed.

(** X16: a [BoundarySegmentationCroppingDataset] that could be built is
    never empty: it holds at least one patch for every label image (for
    every case when there are no labels), so that [__len__] returns at
    least their number, which is at least one. *)
Theorem boundary_dataset_has_patches (cases : list (ndarray Z))
    (labels masks : option (list (ndarray Z)))
    (patch_size : GenericSegmentationCroppingDataset.patch_size_arg)
    (g g' : rng) (d : BSCD.t) :
  BSCD.__init__ rng np_permutation imerode cases labels masks patch_size g
    = Ok (d, g') ->
  exists n,
    BSCD.__len__ d = Ok n /\
    Z.of_nat (length (BSCD.patch_slices d)) <= n /\
    (1 <= length (BSCD.patch_slices d))%nat /\
    length (BSCD.patch_slices d)
      = match labels with Some l => length l | None => length cases end /\
    Forall (fun case => case <> []) (BSCD.patch_slices d).
Proof.
  unfold BSCD.__init__. destruct cases as [|c0 cases']; [discriminate|].
  cbn [mbind result_bind].
  set (ps := match patch_size with
             | GenericSegmentationCroppingDataset.PatchTuple ps => ps
             | GenericSegmentationCroppingDataset.PatchInt p =>
                 repeat p (length (shape c0))
             end).
  remember (c0 :: cases') as cs eqn:Ecs. clear Ecs.
  intros Hinit.
  assert (Hex : exists ms rois rate g0 r,
    get_slices_boundary rng np_permutation imerode ms ps rois rate g0 = Ok (r, g') /\
    length ms = match labels with Some l => length l | None => length cs end /\
    d = BSCD.mk cs labels masks ps r
          (np_cumsum (map (fun s => Z.of_nat (length s)) r))).
  { destruct masks as [ms|], labels as [ls|]; simpl in Hinit.
    - destruct (get_slices_boundary _ _ _ ls ps _ _ g) as [[r g1]|e] eqn:Hg;
        simpl in Hinit; [|discriminate Hinit]. inversion Hinit; subst.
      exists ls, (Some ms), (1 # 10)%Q, g, r. auto.
    - discriminate Hinit.
    - destruct (get_slices_boundary _ _ _ ls ps _ _ g) as [[r g1]|e] eqn:Hg;
        simpl in Hinit; [|discriminate Hinit]. inversion Hinit; subst.
      exists ls, (Some ls), (1 # 10)%Q, g, r. auto.
    - match type of Hinit with
      | context [map_result ?f ?l] =>
          destruct (map_result f l) as [single|e] eqn:Hsingle
      end; simpl in Hinit; [|discriminate Hinit].
      destruct (get_slices_boundary _ _ _ single ps _ _ g) as [[r g1]|e] eqn:Hg;
        simpl in Hinit; [|discriminate Hinit]. inversion Hinit; subst.
      exists single, None, (1 # 10)%Q, g, r. split; [exact Hg|]. split; [|reflexivity].
      apply map_result_Forall2 in Hsingle. apply Forall2_length in Hsingle.
      symmetry. exact Hsingle. }
  destruct Hex as (ms & rois & rate & g0 & r & Hget & Hlen & ->).
  apply boundary_slices_counts in Hget as (Hr & Hne & Hpos).
  unfold BSCD.__len__. cbn [BSCD.max_slice BSCD.patch_slices].
  set (lens := map (fun s => Z.of_nat (length s)) r) in *.
  assert (Hlens : length lens = length r) by (unfold lens; apply length_map).
  assert (Hr1 : (1 <= length r)%nat).
  { rewrite Hr. destruct ms; [congruence|simpl; lia]. }
  destruct (py_index_last_ok (np_cumsum lens)) as [n [Hn Hlook]].
  { intros E. apply (f_equal length) in E. unfold np_cumsum in E.
    rewrite length_cumsum_from in E. simpl in E. lia. }
  exists n. split; [exact Hn|].
  unfold np_cumsum in Hlook. rewrite length_cumsum_from in Hlook.
  pose proof (lookup_np_cumsum lens (length lens - 1) ltac:(lia)) as E.
  unfold np_cumsum in E. rewrite E in Hlook. inversion Hlook as [En].
  replace (S (length lens - 1)) with (length lens) by lia.
  split.
  { rewrite <- Hlens. apply prefix_sum_ge; [exact Hpos|lia]. }
  split; [exact Hr1|]. split; [lia|].
  apply List.Forall_forall. intros case Hcase.
  rewrite List.Forall_forall in Hpos.
  specialize (Hpos (Z.of_nat (length case))).
  assert (Hin : In (Z.of_nat (length case)) lens).
  { unfold lens. apply in_map_iff. exists case. auto. }
  specialize (Hpos Hin). intros ->. simpl in Hpos. lia.
Qed.

End BoundaryDataset.

Lemma boundary_dataset_has_patches_witness :
  BSCD.__init__ unit id_permutation binary_erosion [wide_image] None None
                (GenericSegmentationCroppingDataset.PatchInt 2) tt
    = Ok (ones_dataset, tt) /\
  exists n,
    BSCD.__len__ ones_dataset = Ok n /\
    Z.of_nat (length (BSCD.patch_slices ones_dataset)) <= n /\
    (1 <= length (BSCD.patch_slices ones_dataset))%nat /\
    length (BSCD.patch_slices ones_dataset) = length [wide_image] /\
    Forall (fun case => case <> []) (BSCD.patch_slices ones_dataset).
Proof.
  assert (Hinit :
    BSCD.__init__ unit id_permutation binary_erosion [wide_image] None None
                  (GenericSegmentationCroppingDataset.PatchInt 2) tt
      = Ok (ones_dataset, tt)) by (vm_compute; reflexivity).
  split; [exact Hinit|].
  exact (boundary_dataset_has_patches unit id_permutation binary_erosion
           [wide_image] None None (GenericSegmentationCroppingDataset.PatchInt 2)
           tt tt ones_dataset Hinit).
Defined.

